(** * netsi-address: a shallow embedding of the address-lookup component

    The repository ships three renditions of the same custom element:
    - the documented TypeScript class (first class of [src/netsi-address.ts]),
      embedded below in [Module TsA];
    - the TypeScript class that the bundle is built from (second class of
      [src/netsi-address.ts]), embedded in [Module TsB];
    - the published JavaScript class [src/netsi-address.js], embedded in
      [Module Js].
    Definitions shared by the three come first. *)

From Stdlib Require Import ZArith Lia Bool Ascii String DecimalString.
From stdpp Require Import base option list gmap strings.

Local Open Scope string_scope.
Local Open Scope Z_scope.
Set Warnings "-register-all".

(** ** JavaScript values

    Address records are JSON data ([response.json()]): objects and arrays
    hold their own properties, keys unique, in the order in which
    JavaScript enumerates them.  A number is known by the text [String]
    gives for it (only the truthiness and the printed form of a number are
    ever inspected): [7] is [JNum "7"], [1e21] is [JNum "1e+21"].  A string
    is its sequence of code units, one [ascii] each, so text is Latin-1
    text.  [JHost] is an object of the platform that is no data - a
    built-in function, a prototype, a date - known by an identifier and by
    the text [String] gives for it. *)

Inductive JsVal : Type :=
| JUndefined
| JNull
| JBool (b : bool)
| JNum (text : string)
| JStr (s : string)
| JArr (xs : list JsVal)
| JObj (props : list (string * JsVal))
| JHost (id : nat) (text : string).

(** A thrown value: [name], whether it is [instanceof Error], its message. *)
Record JsError : Type := mkError {
  err_name : string;
  err_isError : bool;
  err_message : string
}.

Definition TypeError (msg : string) : JsError := mkError "TypeError" true msg.
Definition Error (msg : string) : JsError := mkError "Error" true msg.
Definition AbortError : JsError :=
  mkError "AbortError" true "The operation was aborted.".

(** Result of evaluating an expression that may throw. *)
Inductive Completion (A : Type) : Type :=
| Normal (a : A)
| Throw (e : JsError).
Arguments Normal {A} a.
Arguments Throw {A} e.

Definition cbind {A B} (c : Completion A) (k : A -> Completion B) : Completion B :=
  match c with
  | Normal a => k a
  | Throw e => Throw e
  end.

(** ToBoolean. *)
Definition truthy (v : JsVal) : bool :=
  match v with
  | JUndefined | JNull => false
  | JBool b => b
  | JNum text => negb (String.eqb text "0" || String.eqb text "NaN")
  | JStr s => negb (String.eqb s "")
  | JArr _ | JObj _ | JHost _ _ => true
  end.

(** [v == null]. *)
Definition nullish (v : JsVal) : bool :=
  match v with
  | JUndefined | JNull => true
  | _ => false
  end.

Fixpoint assoc {A} (k : string) (l : list (string * A)) : option A :=
  match l with
  | [] => None
  | (k', v) :: l' => if String.eqb k k' then Some v else assoc k l'
  end.

Definition is_digit (c : ascii) : bool :=
  let n := nat_of_ascii c in (48 <=? n)%nat && (n <=? 57)%nat.

Fixpoint digits_value (s : string) (acc : nat) : option nat :=
  match s with
  | EmptyString => Some acc
  | String c s' =>
      if is_digit c
      then digits_value s' (10 * acc + (nat_of_ascii c - 48))%nat
      else None
  end.

(** A property key that is a canonical array index: ["0"], ["7"], ["12"]. *)
Definition array_index (k : string) : option nat :=
  match k with
  | EmptyString => None
  | String c EmptyString => digits_value k 0
  | String c _ => if Ascii.eqb c "0" then None else digits_value k 0
  end.

Definition string_at (s : string) (i : nat) : JsVal :=
  match String.get i s with
  | Some c => JStr (String c EmptyString)
  | None => JUndefined
  end.

Definition string_of_Z (n : Z) : string := NilZero.string_of_int (Z.to_int n).

(** The own property [k] of a value, [undefined] when the value holds no
    property of that name itself. *)
Definition own_prop (v : JsVal) (k : string) : JsVal :=
  match v with
  | JObj props => default JUndefined (assoc k props)
  | JArr xs =>
      if String.eqb k "length" then JNum (string_of_Z (Z.of_nat (length xs)))
      else match array_index k with
           | Some i => default JUndefined (xs !! i)
           | None => JUndefined
           end
  | JStr s =>
      if String.eqb k "length" then JNum (string_of_Z (Z.of_nat (String.length s)))
      else match array_index k with
           | Some i => string_at s i
           | None => JUndefined
           end
  | _ => JUndefined
  end.

(** [Object.hasOwn(v, k)] *)
Definition has_own (v : JsVal) (k : string) : bool :=
  match v with
  | JObj props => bool_decide (is_Some (assoc k props))
  | JArr xs =>
      String.eqb k "length"
      || match array_index k with
         | Some i => (i <? length xs)%nat
         | None => false
         end
  | JStr s =>
      String.eqb k "length"
      || match array_index k with
         | Some i => (i <? String.length s)%nat
         | None => false
         end
  | _ => false
  end.

(** [v.k] for the names the code itself reads from a record or a
    suggestion ([adresse], [href], [kommune], [adressebetegnelse], ...):
    data names, which no prototype of the platform defines, so that the
    read finds the own property or nothing.  A TypeError on [undefined] and
    [null]. *)
Definition getProp (v : JsVal) (k : string) : Completion JsVal :=
  if nullish v
  then Throw (TypeError "Cannot read properties of undefined or null")
  else Normal (own_prop v k).

(** What values inherit.  A segment of a configured path can be any
    string, the name of a member of a prototype among them
    ([constructor], [toString], [length] on a function, ...).
    [inherited v k] is the outcome of reading [k] on [v] when [v] holds no
    own property [k]: [None] when the prototype chain of [v] has no member
    [k], otherwise the member found - or the error thrown by the accessor
    found. *)
Definition Realm : Type := JsVal -> string -> option (Completion JsVal).

(** [v[k]] for any string [k]: the own property, else the inherited
    member, else [undefined]; a TypeError on [undefined] and [null]. *)
Definition get_member (inherited : Realm) (v : JsVal) (k : string)
  : Completion JsVal :=
  if nullish v
  then Throw (TypeError "Cannot read properties of undefined or null")
  else if has_own v k then Normal (own_prop v k)
  else match inherited v k with
       | Some member => member
       | None => Normal JUndefined
       end.

(** [s.split(sep)] for a one-character separator. *)
Fixpoint split (sep : ascii) (s : string) : list string :=
  match s with
  | EmptyString => [EmptyString]
  | String c s' =>
      if Ascii.eqb c sep then EmptyString :: split sep s'
      else match split sep s' with
           | [] => [String c EmptyString]
           | h :: t => String c h :: t
           end
  end.

(** [xs.reduce(f, init)] with a callback that may throw. *)
Fixpoint reduce {A B} (f : A -> B -> Completion A) (xs : list B) (acc : A)
  : Completion A :=
  match xs with
  | [] => Normal acc
  | x :: xs' => cbind (f acc x) (reduce f xs')
  end.

(** *** Path resolution *)

(** [(acc, part) => acc && acc[part]] *)
Definition getValue_step (inherited : Realm) (acc : JsVal) (part : string)
  : Completion JsVal :=
  if truthy acc then get_member inherited acc part else Normal acc.

(** [_getValue(obj, path)] of both TypeScript classes:
    [path.split(".").reduce((acc, part) => acc && acc[part], obj)]. *)
Definition _getValue (inherited : Realm) (obj : JsVal) (path : string)
  : Completion JsVal :=
  reduce (getValue_step inherited) (split "." path) obj.

(** [(obj, k) => (obj && obj[k] != null) ? obj[k] : ""] *)
Definition rawValue_step (inherited : Realm) (obj : JsVal) (k : string)
  : Completion JsVal :=
  cbind (if truthy obj
         then cbind (get_member inherited obj k)
                (fun x => Normal (negb (nullish x)))
         else Normal false)
        (fun c => if c : bool then get_member inherited obj k
                  else Normal (JStr "")).

(** The raw value computed inside [_populate] of the JavaScript class:
    [jsonPath.split(".").reduce(..., addressData)]. *)
Definition rawValue (inherited : Realm) (addressData : JsVal) (jsonPath : string)
  : Completion JsVal :=
  reduce (rawValue_step inherited) (split "." jsonPath) addressData.

(** ** Strings *)

(** White space removed by [trim]: tab to carriage return, space and
    no-break space. *)
Definition is_space (c : ascii) : bool :=
  let n := nat_of_ascii c in
  ((9 <=? n)%nat && (n <=? 13)%nat) || (n =? 32)%nat || (n =? 160)%nat.

Fixpoint trim_start (s : string) : string :=
  match s with
  | EmptyString => EmptyString
  | String c s' => if is_space c then trim_start s' else s
  end.

Fixpoint trim_end (s : string) : string :=
  match s with
  | EmptyString => EmptyString
  | String c s' =>
      match trim_end s' with
      | EmptyString => if is_space c then EmptyString else String c EmptyString
      | r => String c r
      end
  end.

(** [s.trim()] *)
Definition trim (s : string) : string := trim_end (trim_start s).

Fixpoint join (sep : string) (l : list string) : string :=
  match l with
  | [] => ""
  | [x] => x
  | x :: l' => x +:+ sep +:+ join sep l'
  end.

(** [String(v)] *)
Fixpoint ToString (v : JsVal) : string :=
  match v with
  | JUndefined => "undefined"
  | JNull => "null"
  | JBool true => "true"
  | JBool false => "false"
  | JNum text => text
  | JStr s => s
  | JArr xs =>
      join "," (List.map (fun x => if nullish x then "" else ToString x) xs)
  | JObj _ => "[object Object]"
  | JHost _ text => text
  end.

(** Conversion applied by the [value] setter of a form control: [null]
    becomes the empty string. *)
Definition dom_string (v : JsVal) : string :=
  match v with
  | JNull => ""
  | _ => ToString v
  end.

(** Conversion applied by the [textContent] setter, a nullable string:
    [null] and [undefined] clear the text. *)
Definition text_string (v : JsVal) : string :=
  if nullish v then "" else ToString v.

(** ** URLSearchParams *)

Definition URLSearchParams := list (string * string).

Definition params_has (k : string) (ps : URLSearchParams) : bool :=
  bool_decide (is_Some (assoc k ps)).

Definition params_get (k : string) (ps : URLSearchParams) : option string :=
  assoc k ps.

Definition params_append (k v : string) (ps : URLSearchParams) : URLSearchParams :=
  (ps ++ [(k, v)])%list.

Definition params_delete (k : string) (ps : URLSearchParams) : URLSearchParams :=
  List.filter (fun kv => negb (String.eqb (fst kv) k)) ps.

(** [params.set(k, v)]: the first entry named [k] takes the value and the
    other ones are dropped; a new name is appended. *)
Fixpoint params_set (k v : string) (ps : URLSearchParams) : URLSearchParams :=
  match ps with
  | [] => [(k, v)]
  | (k', v') :: ps' =>
      if String.eqb k' k then (k, v) :: params_delete k ps'
      else (k', v') :: params_set k v ps'
  end.

(** ** Plain objects as ordered property lists

    The list is the object in the order in which JavaScript enumerates its
    own keys: the keys that are array indices first, in ascending order,
    then the other keys in the order of their creation. *)

(** An integer index as a property key: a canonical numeric string below
    [2^32 - 1]. *)
Fixpoint digits_number (s : string) (acc : Z) : option Z :=
  match s with
  | EmptyString => Some acc
  | String c s' =>
      if is_digit c
      then digits_number s' (10 * acc + (Z.of_nat (nat_of_ascii c) - 48))
      else None
  end.

Definition index_key (k : string) : option Z :=
  match (match k with
         | EmptyString => None
         | String c EmptyString => digits_number k 0
         | String c _ => if Ascii.eqb c "0" then None else digits_number k 0
         end) with
  | Some i => if i <? 4294967295 then Some i else None
  | None => None
  end.

(** A new key [k] is enumerated before the key [k'] that is there. *)
Definition enumerated_before (k k' : string) : bool :=
  match index_key k, index_key k' with
  | Some i, Some i' => i <? i'
  | Some _, None => true
  | None, _ => false
  end.

(** [o[k] = v]: an existing key keeps its place, a new index takes its
    place among the indices and any other new key comes last. *)
Fixpoint obj_set {A} (k : string) (v : A) (o : list (string * A))
  : list (string * A) :=
  match o with
  | [] => [(k, v)]
  | (k', v') :: o' =>
      if String.eqb k k' then (k, v) :: o'
      else if enumerated_before k k' then (k, v) :: (k', v') :: o'
      else (k', v') :: obj_set k v o'
  end.

(** [{...target, ...source}] *)
Definition spread {A} (target source : list (string * A)) : list (string * A) :=
  fold_left (fun t kv => obj_set (fst kv) (snd kv) t) source target.

(** ** Configuration *)

(** A mapper receives the raw value and the full record; it may throw. *)
Definition MapperFunction : Type := JsVal -> JsVal -> Completion JsVal.

(** [UiMapping]: a selector string, or an object with a selector and a
    mapper (the mapper may be left out). *)
Inductive UiMapping : Type :=
| MapSelector (selector : string)
| MapObject (selector : string) (mapper : option MapperFunction).

(** The [ui] object: field-path to mapping, in the order in which the keys
    are enumerated; [None] is an [undefined] value. *)
Definition UiConfig : Type := list (string * option UiMapping).

(** [NetsiConfig]: the [ui] property, and every other own property in the
    order in which the keys are enumerated ([useFuzzyFallback] among them
    when present). *)
Record NetsiConfig : Type := mkConfig {
  cfg_ui : option UiConfig;
  cfg_props : list (string * JsVal)
}.

(** [config.useFuzzyFallback] *)
Definition useFuzzyFallback (c : NetsiConfig) : JsVal :=
  default JUndefined (assoc "useFuzzyFallback" (cfg_props c)).

(** A string of one code unit. *)
Definition unit_string (code : nat) : string :=
  String (ascii_of_nat code) EmptyString.

(** ** The document *)

(** A form control carries an editable value; any other element carries
    text.  Assigning [value] on an element that is not a form control only
    creates a script property, which leaves the page as it is. *)
Inductive Element : Type :=
| FormControl (value : string)
| PlainElement (textContent : string).

(** [qs] is the selector engine of the page, [document.querySelector]: the
    handle of the first matching element, [null] when no element matches,
    and a [SyntaxError] for a string that is no selector (the empty string
    among them).  [realm] is the realm of the page: what the values that
    scripts handle inherit from their prototypes. *)
Record Document : Type := mkDocument {
  qs : string -> Completion (option nat);
  realm : Realm;
  elems : gmap nat Element
}.

Definition element_of (d : Document) (h : nat) : Element :=
  default (PlainElement "") (elems d !! h).

(** ["value" in element] *)
Definition has_value (e : Element) : bool :=
  match e with
  | FormControl _ => true
  | PlainElement _ => false
  end.

(** [element.value] *)
Definition get_value (e : Element) : JsVal :=
  match e with
  | FormControl v => JStr v
  | PlainElement _ => JUndefined
  end.

(** [element.value = v] *)
Definition set_value (v : JsVal) (e : Element) : Element :=
  match e with
  | FormControl _ => FormControl (dom_string v)
  | PlainElement t => PlainElement t
  end.

(** [element.textContent = v] *)
Definition set_textContent (v : JsVal) (e : Element) : Element :=
  match e with
  | FormControl x => FormControl x
  | PlainElement _ => PlainElement (text_string v)
  end.

(** ** Component state and its environment *)

Record Suggestion : Type := mkSuggestion {
  tekst : JsVal;
  adresse : JsVal;
  isFuzzy : JsVal
}.

(** The [ul#netsi-suggestions-list]: its [visible] class and, for each
    [li], the suggestion its click listener closes over. *)
Record SuggestionsEl : Type := mkList {
  visible : bool;
  items : list Suggestion
}.

Record CustomEvent : Type := mkEvent {
  ev_type : string;
  ev_detail : JsVal;
  ev_bubbles : bool;
  ev_composed : bool
}.

(** A [console.error] call: its message and the error passed along. *)
Record LogEntry : Type := mkLog {
  log_message : string;
  log_error : option JsError
}.

Inductive Stage : Type := Primary | Fuzzy.

(** An autocomplete request awaited by a [lookup]. *)
Record Request : Type := mkRequest {
  rq_id : nat;
  rq_signal : option nat;
  rq_params : URLSearchParams;
  rq_stage : Stage
}.

(** A detail request awaited by a [select]. *)
Record DetailRequest : Type := mkDetail {
  dr_id : nat;
  dr_href : JsVal;
  dr_item : Suggestion
}.

(** How a [fetch] and the reading of its body settle. *)
Inductive Outcome (A : Type) : Type :=
| Rejected (e : JsError)
| Response (ok : bool) (statusText : string) (body : Completion A).
Arguments Rejected {A} e.
Arguments Response {A} ok statusText body.

Inductive NetEvent : Type :=
| NetAbort (controller : nat)
| NetFetch (request : nat).

Record State : Type := mkState {
  _config : NetsiConfig;
  _inputEl : option nat;
  _suggestionsEl : option SuggestionsEl;
  _highlightedIndex : Z;
  _abortController : option nat;
  document : Document;
  aborted : gset nat;
  next_id : nat;
  pending : list Request;
  pending_detail : list DetailRequest;
  net_trace : list NetEvent;
  console : list LogEntry;
  dispatched : list CustomEvent
}.

Definition set_config (x : NetsiConfig) (s : State) : State :=
  mkState x (_inputEl s) (_suggestionsEl s) (_highlightedIndex s)
    (_abortController s) (document s) (aborted s) (next_id s) (pending s)
    (pending_detail s) (net_trace s) (console s) (dispatched s).

Definition set_inputEl (x : option nat) (s : State) : State :=
  mkState (_config s) x (_suggestionsEl s) (_highlightedIndex s)
    (_abortController s) (document s) (aborted s) (next_id s) (pending s)
    (pending_detail s) (net_trace s) (console s) (dispatched s).

Definition set_suggestionsEl (x : option SuggestionsEl) (s : State) : State :=
  mkState (_config s) (_inputEl s) x (_highlightedIndex s)
    (_abortController s) (document s) (aborted s) (next_id s) (pending s)
    (pending_detail s) (net_trace s) (console s) (dispatched s).

Definition set_highlightedIndex (x : Z) (s : State) : State :=
  mkState (_config s) (_inputEl s) (_suggestionsEl s) x (_abortController s)
    (document s) (aborted s) (next_id s) (pending s) (pending_detail s)
    (net_trace s) (console s) (dispatched s).

Definition set_abortController (x : option nat) (s : State) : State :=
  mkState (_config s) (_inputEl s) (_suggestionsEl s) (_highlightedIndex s) x
    (document s) (aborted s) (next_id s) (pending s) (pending_detail s)
    (net_trace s) (console s) (dispatched s).

Definition set_document (x : Document) (s : State) : State :=
  mkState (_config s) (_inputEl s) (_suggestionsEl s) (_highlightedIndex s)
    (_abortController s) x (aborted s) (next_id s) (pending s)
    (pending_detail s) (net_trace s) (console s) (dispatched s).

Definition set_aborted (x : gset nat) (s : State) : State :=
  mkState (_config s) (_inputEl s) (_suggestionsEl s) (_highlightedIndex s)
    (_abortController s) (document s) x (next_id s) (pending s)
    (pending_detail s) (net_trace s) (console s) (dispatched s).

Definition set_next_id (x : nat) (s : State) : State :=
  mkState (_config s) (_inputEl s) (_suggestionsEl s) (_highlightedIndex s)
    (_abortController s) (document s) (aborted s) x (pending s)
    (pending_detail s) (net_trace s) (console s) (dispatched s).

Definition set_pending (x : list Request) (s : State) : State :=
  mkState (_config s) (_inputEl s) (_suggestionsEl s) (_highlightedIndex s)
    (_abortController s) (document s) (aborted s) (next_id s) x
    (pending_detail s) (net_trace s) (console s) (dispatched s).

Definition set_pending_detail (x : list DetailRequest) (s : State) : State :=
  mkState (_config s) (_inputEl s) (_suggestionsEl s) (_highlightedIndex s)
    (_abortController s) (document s) (aborted s) (next_id s) (pending s) x
    (net_trace s) (console s) (dispatched s).

Definition set_net_trace (x : list NetEvent) (s : State) : State :=
  mkState (_config s) (_inputEl s) (_suggestionsEl s) (_highlightedIndex s)
    (_abortController s) (document s) (aborted s) (next_id s) (pending s)
    (pending_detail s) x (console s) (dispatched s).

Definition set_console (x : list LogEntry) (s : State) : State :=
  mkState (_config s) (_inputEl s) (_suggestionsEl s) (_highlightedIndex s)
    (_abortController s) (document s) (aborted s) (next_id s) (pending s)
    (pending_detail s) (net_trace s) x (dispatched s).

Definition set_dispatched (x : list CustomEvent) (s : State) : State :=
  mkState (_config s) (_inputEl s) (_suggestionsEl s) (_highlightedIndex s)
    (_abortController s) (document s) (aborted s) (next_id s) (pending s)
    (pending_detail s) (net_trace s) (console s) x.

(** ** Methods as state transformers that may throw *)

Definition M (A : Type) : Type := State -> State * Completion A.

#[global] Instance M_ret : MRet M := fun A a s => (s, Normal a).

#[global] Instance M_bind : MBind M := fun A B k m s =>
  match m s with
  | (s', Normal a) => k a s'
  | (s', Throw e) => (s', Throw e)
  end.

Definition throw {A} (e : JsError) : M A := fun s => (s, Throw e).
Definition lift {A} (c : Completion A) : M A := fun s => (s, c).
Definition gets {A} (f : State -> A) : M A := fun s => (s, Normal (f s)).
Definition modify (f : State -> State) : M unit := fun s => (f s, Normal tt).

(** [try { m } catch (e) { handler(e) }] *)
Definition try_catch {A} (m : M A) (handler : JsError -> M A) : M A := fun s =>
  match m s with
  | (s', Normal a) => (s', Normal a)
  | (s', Throw e) => handler e s'
  end.

(** A loop body run on each element in turn; a throw leaves the loop. *)
Fixpoint for_each {A} (body : A -> M unit) (l : list A) : M unit :=
  match l with
  | [] => mret tt
  | x :: l' => body x ;; for_each body l'
  end.

(** Calling an [async] method without awaiting it: a failure stays in the
    returned promise. *)
Definition detached {A} (m : M A) : M unit := fun s => (fst (m s), Normal tt).

(** [document.querySelector(sel)] *)
Definition querySelector (sel : string) : M (option nat) :=
  fun s => (s, qs (document s) sel).

(** An expression that reads members of values, evaluated in the realm of
    the page. *)
Definition in_realm {A} (f : Realm -> Completion A) : M A :=
  fun s => (s, f (realm (document s))).

Definition read_element (h : nat) : M Element :=
  gets (fun s => element_of (document s) h).

Definition update_element (h : nat) (f : Element -> Element) : M unit :=
  modify (fun s =>
    set_document
      (mkDocument (qs (document s)) (realm (document s))
                  (<[h := f (element_of (document s) h)]> (elems (document s))))
      s).

Definition console_error (msg : string) (e : option JsError) : M unit :=
  modify (fun s => set_console (console s ++ [mkLog msg e]) s).

Definition dispatchEvent (ev : CustomEvent) : M unit :=
  modify (fun s => set_dispatched (dispatched s ++ [ev]) s).

(** [this._abortController?.abort()] *)
Definition abort_current : M unit :=
  modify (fun s =>
    match _abortController s with
    | Some c =>
        set_net_trace (net_trace s ++ [NetAbort c])
          (set_aborted ({[c]} ∪ aborted s) s)
    | None => s
    end).

(** [this._abortController = new AbortController()] *)
Definition new_controller : M unit :=
  modify (fun s =>
    set_next_id (S (next_id s)) (set_abortController (Some (next_id s)) s)).

(** [fetch(`${API_URL}?${params}`, { signal })] up to the point where the
    caller awaits the response. *)
Definition fetch (signal : option nat) (params : URLSearchParams)
    (stage : Stage) : M unit :=
  modify (fun s =>
    set_next_id (S (next_id s))
      (set_net_trace (net_trace s ++ [NetFetch (next_id s)])
         (set_pending (pending s ++ [mkRequest (next_id s) signal params stage]) s))).

(** [fetch(href)] of [select], up to the await. *)
Definition fetch_detail (href : JsVal) (item : Suggestion) : M unit :=
  modify (fun s =>
    set_next_id (S (next_id s))
      (set_pending_detail (pending_detail s ++ [mkDetail (next_id s) href item]) s)).

(** A request whose signal was aborted is cancelled ... *)
Definition cancelled (s : State) (rq : Request) : bool :=
  match rq_signal rq with
  | Some c => bool_decide (c ∈ aborted s)
  | None => false
  end.

(** ... and then settles with an [AbortError], whatever the server did. *)
Definition effective {A} (s : State) (rq : Request) (o : Outcome A) : Outcome A :=
  if cancelled s rq then Rejected AbortError else o.

(** The value of [await fetch(...)] followed by the [ok] test and
    [await response.json()], as the statements after the await see it. *)
Definition received {A} (failure : string -> JsError) (o : Outcome A) : Completion A :=
  match o with
  | Rejected e => Throw e
  | Response false statusText _ => Throw (failure statusText)
  | Response true _ body => body
  end.

Definition find_request (rid : nat) (l : list Request) : option Request :=
  List.find (fun rq => Nat.eqb (rq_id rq) rid) l.

Definition remove_request (rid : nat) (l : list Request) : list Request :=
  List.filter (fun rq => negb (Nat.eqb (rq_id rq) rid)) l.

Definition find_detail (rid : nat) (l : list DetailRequest) : option DetailRequest :=
  List.find (fun rq => Nat.eqb (dr_id rq) rid) l.

Definition remove_detail (rid : nat) (l : list DetailRequest) : list DetailRequest :=
  List.filter (fun rq => negb (Nat.eqb (dr_id rq) rid)) l.

(** A newly constructed element (field initialisers of the class). *)
Definition constructed (cfg : NetsiConfig) (d : Document) : State :=
  mkState cfg None None (-1) None d ∅ 0%nat [] [] [] [] [].

Definition empty_suggestion : Suggestion :=
  mkSuggestion JUndefined JUndefined JUndefined.

(** [this._suggestionsEl?.classList.contains("visible")] *)
Definition list_visible (s : State) : bool :=
  match _suggestionsEl s with
  | Some l => visible l
  | None => false
  end.

(** The rendered [li] elements. *)
Definition rendered (s : State) : list Suggestion :=
  match _suggestionsEl s with
  | Some l => items l
  | None => []
  end.

Definition select_event (detail : JsVal) : CustomEvent :=
  mkEvent "netsi-address:select" detail true true.

(** Own properties of the configuration that become request parameters:
    every key but [ui] and [useFuzzyFallback]. *)
Definition request_keys (c : NetsiConfig) : list (string * JsVal) :=
  List.filter
    (fun kv => negb (String.eqb (fst kv) "ui")
               && negb (String.eqb (fst kv) "useFuzzyFallback"))
    (cfg_props c).

(** [!mapping] on an entry of the [ui] object. *)
Definition mapping_falsy (m : option UiMapping) : bool :=
  match m with
  | None => true
  | Some (MapSelector sel) => String.eqb sel ""
  | Some (MapObject _ _) => false
  end.

(** What the user and the network can do to a component. *)
Inductive Event : Type :=
| EvEdit (h : nat) (text : string)
| EvLookup
| EvSettle (rid : nat) (o : Outcome (list Suggestion))
| EvKeydown (key : string)
| EvClickItem (i : nat)
| EvClickOutside
| EvSelect (item : option Suggestion)
| EvSettleDetail (rid : nat) (o : Outcome JsVal).

(** The user types into a form control. *)
Definition edit (h : nat) (text : string) : M unit :=
  update_element h (fun e =>
    match e with
    | FormControl _ => FormControl text
    | PlainElement t => PlainElement t
    end).

(** Delivery of a settled autocomplete request to the lookup awaiting it. *)
Definition settle (resume : Request -> Outcome (list Suggestion) -> M unit)
    (rid : nat) (o : Outcome (list Suggestion)) : M unit := fun s =>
  match find_request rid (pending s) with
  | Some rq =>
      detached (resume rq (effective s rq o))
        (set_pending (remove_request rid (pending s)) s)
  | None => (s, Normal tt)
  end.

(** Delivery of a settled detail request to the select awaiting it. *)
Definition settle_detail (resume : DetailRequest -> Outcome JsVal -> M unit)
    (rid : nat) (o : Outcome JsVal) : M unit := fun s =>
  match find_detail rid (pending_detail s) with
  | Some rq =>
      detached (resume rq o)
        (set_pending_detail (remove_detail rid (pending_detail s)) s)
  | None => (s, Normal tt)
  end.

(** ** The documented TypeScript class (first class of netsi-address.ts) *)

Module TsA.

Definition _defaults : NetsiConfig :=
  mkConfig
    (Some
       [ ("address", Some (MapSelector "#address"));
         ("etage", Some (MapSelector "#etage"));
         (* the key is spelt with the two code units 195 and 184 in this class *)
         ("d" +:+ unit_string 195 +:+ unit_string 184 +:+ "r", Some (MapSelector "#doer"));
         ("adgangsadresse.vejstykke.navn", Some (MapSelector "#vejnavn"));
         ("adgangsadresse.husnr", Some (MapSelector "#husnr"));
         ("adgangsadresse.postnummer.nr", Some (MapSelector "#postnr"));
         ("adgangsadresse.postnummer.navn", Some (MapSelector "#postnrnavn"));
         ("adgangsadresse.kommune.kode", Some (MapSelector "#kommunekode"));
         ("adgangsadresse.kommune.navn", Some (MapSelector "#kommune")) ])
    [("useFuzzyFallback", JBool false)].

Definition _hideSuggestions : M unit :=
  modify (fun s =>
    match _suggestionsEl s with
    | Some l => set_suggestionsEl (Some (mkList false (items l))) s
    | None => s
    end).

(** Positioning is geometry only. *)
Definition _showSuggestions : M unit :=
  modify (fun s =>
    match _suggestionsEl s with
    | Some l => set_suggestionsEl (Some (mkList true (items l))) s
    | None => s
    end).

Definition set_items (f : list Suggestion -> list Suggestion) : M unit :=
  modify (fun s =>
    match _suggestionsEl s with
    | Some l => set_suggestionsEl (Some (mkList (visible l) (f (items l)))) s
    | None => s
    end).

Definition _renderSuggestions (suggestions : list Suggestion) : M unit :=
  el ← gets _suggestionsEl;
  match el with
  | Some _ =>
      set_items (fun _ => []) ;;
      modify (set_highlightedIndex (-1)) ;;
      if (length suggestions =? 0)%nat then _hideSuggestions
      else
        for_each (fun item => set_items (fun l => l ++ [item])%list) suggestions ;;
        _showSuggestions
  | None => mret tt
  end.

(** Toggles the [highlighted] class of the [li] at the highlighted index;
    the index itself is the state. *)
Definition _updateHighlight : M unit := mret tt.

Definition default_mapper : MapperFunction :=
  fun val _ => Normal (JStr (ToString (if nullish val then JStr "" else val))).

Definition _populate (addressData : JsVal) : M unit :=
  cfg ← gets _config;
  match cfg_ui cfg with
  | None => mret tt
  | Some ui =>
      for_each (fun entry =>
        let key := fst entry in
        let mapping := snd entry in
        if mapping_falsy mapping then mret tt
        else
          let '(selector, mapper) :=
            match mapping with
            | Some (MapObject sel m) => (sel, m)
            | Some (MapSelector sel) => (sel, Some default_mapper)
            | None => ("", None)
            end in
          element ← querySelector selector;
          match element with
          | Some h =>
              value ← in_realm (fun realm => _getValue realm addressData key);
              match mapper with
              | Some f =>
                  shown ← lift (f value addressData);
                  update_element h (set_value shown)
              | None => throw (TypeError "mapper is not a function")
              end
          | None => mret tt
          end) ui
  end.

Definition select (item : option Suggestion) : M unit :=
  _hideSuggestions ;;
  match item with
  | None => throw (TypeError "Cannot read properties of undefined (reading 'adresse')")
  | Some item =>
      dispatchEvent (select_event (JObj [("address", adresse item)])) ;;
      el ← gets _inputEl;
      match el with
      | Some h => update_element h (set_value (tekst item))
      | None => mret tt
      end ;;
      _populate (adresse item)
  end.

Definition _handleKeydown (key : string) : M unit :=
  vis ← gets list_visible;
  if negb vis then mret tt
  else
    n ← gets (fun s => length (rendered s));
    if (n =? 0)%nat then mret tt
    else if String.eqb key "ArrowDown" then
      modify (fun s =>
        set_highlightedIndex (Z.rem (_highlightedIndex s + 1) (Z.of_nat n)) s) ;;
      _updateHighlight
    else if String.eqb key "ArrowUp" then
      modify (fun s =>
        set_highlightedIndex
          (Z.rem (_highlightedIndex s - 1 + Z.of_nat n) (Z.of_nat n)) s) ;;
      _updateHighlight
    else if String.eqb key "Enter" then
      h ← gets _highlightedIndex;
      if -1 <? h then
        (* [JSON.parse(li.dataset.suggestion || "{}")]: no [li] carries a
           [data-suggestion] attribute. *)
        suggestions ← gets (fun s => List.map (fun _ => empty_suggestion) (rendered s));
        detached (select (suggestions !! Z.to_nat h))
      else mret tt
    else if String.eqb key "Escape" then _hideSuggestions
    else mret tt.

(** A click whose target lies outside the list and outside the input. *)
Definition _handleClickOutside : M unit :=
  l ← gets _suggestionsEl;
  i ← gets _inputEl;
  if bool_decide (is_Some l) && bool_decide (is_Some i)
  then _hideSuggestions else mret tt.

Definition _buildQueryParameters (isFuzzy : bool) : M URLSearchParams :=
  el ← gets _inputEl;
  match el with
  | None => throw (TypeError "Cannot read properties of null (reading 'value')")
  | Some h =>
      e ← read_element h;
      cfg ← gets _config;
      let params : URLSearchParams :=
        ([("q", ToString (get_value e)); ("type", "adresse"); ("per_side", "10")]
         ++ (if isFuzzy then [("fuzzy", "")] else []))%list in
      mret (fold_left
              (fun ps kv => params_append (fst kv) (ToString (snd kv)) ps)
              (request_keys cfg) params)
  end.

(** [_fetchData] up to its first await. *)
Definition _fetchData (params : URLSearchParams) (stage : Stage) : M unit :=
  abort_current ;;
  new_controller ;;
  c ← gets _abortController;
  fetch c params stage.

(** [_fetchData] from its first await to its return value. *)
Definition _fetchData_result (rq : Request) (o : Outcome (list Suggestion))
  : Completion (list Suggestion) :=
  cbind (received (fun _ => Error "Network response was not ok.") o)
    (fun data =>
       Normal (List.map
                 (fun s => mkSuggestion (tekst s) (adresse s)
                             (JBool (params_has "fuzzy" (rq_params rq))))
                 data)).

Definition lookup_catch (error : JsError) : M unit :=
  if negb (String.eqb (err_name error) "AbortError") then
    console_error "NetsiAddress: Error fetching address data:" (Some error) ;;
    _hideSuggestions
  else mret tt.

(** [lookup] up to its first await. *)
Definition lookup : M unit :=
  el ← gets _inputEl;
  short ← match el with
          | None => mret true
          | Some h =>
              e ← read_element h;
              match get_value e with
              | JStr v => mret (String.length v <? 2)%nat
              | _ => throw (TypeError "Cannot read properties of undefined (reading 'length')")
              end
          end;
  if short : bool then _hideSuggestions
  else
    try_catch
      (mainParams ← _buildQueryParameters false;
       _fetchData mainParams Primary)
      lookup_catch.

(** [lookup] from the settlement of the request it awaits. *)
Definition lookup_resume (rq : Request) (o : Outcome (list Suggestion)) : M unit :=
  try_catch
    (suggestions ← lift (_fetchData_result rq o);
     match rq_stage rq with
     | Primary =>
         cfg ← gets _config;
         if (length suggestions =? 0)%nat && truthy (useFuzzyFallback cfg) then
           fuzzyParams ← _buildQueryParameters true;
           _fetchData fuzzyParams Fuzzy
         else _renderSuggestions suggestions
     | Fuzzy => _renderSuggestions suggestions
     end)
    lookup_catch.

(** [!this._config.ui?.address] *)
Definition address_mapping (cfg : NetsiConfig) : option UiMapping :=
  ui ← cfg_ui cfg; m ← assoc "address" ui; m.

Definition _createSuggestionsUI : M unit :=
  modify (set_suggestionsEl (Some (mkList false []))).

Definition _initialize : M unit :=
  cfg ← gets _config;
  if mapping_falsy (address_mapping cfg) then
    console_error "NetsiAddress: `ui.address` selector is mandatory in the config." None
  else
    found ← match address_mapping cfg with
            | Some (MapSelector sel) => querySelector sel
            | _ => throw (mkError "SyntaxError" true "'[object Object]' is not a valid selector")
            end;
    modify (set_inputEl found) ;;
    match found with
    | None => console_error "NetsiAddress: Main input element not found with selector:" None
    | Some _ => _createSuggestionsUI
    end.

(** The merged configuration built by the [config] setter. *)
Definition merged (newConfig : NetsiConfig) : NetsiConfig :=
  mkConfig
    (Some (spread (default [] (cfg_ui _defaults)) (default [] (cfg_ui newConfig))))
    (spread (cfg_props _defaults) (cfg_props newConfig)).

(** [set config(newConfig)] *)
Definition config (newConfig : NetsiConfig) : M unit :=
  modify (set_config (merged newConfig)) ;;
  _initialize.

Definition step (ev : Event) (s : State) : State :=
  fst (match ev with
       | EvEdit h text => edit h text
       | EvLookup => lookup
       | EvSettle rid o => settle lookup_resume rid o
       | EvKeydown key => _handleKeydown key
       | EvClickItem i =>
           match rendered s !! i with
           | Some item => select (Some item)
           | None => mret tt
           end
       | EvClickOutside => _handleClickOutside
       | EvSelect item => select item
       | EvSettleDetail _ _ => mret tt
       end s).

End TsA.

(** ** The TypeScript class the bundle is built from (second class of
    netsi-address.ts) *)

Module TsB.

Definition _defaults : NetsiConfig :=
  mkConfig
    (Some
       [ ("address", Some (MapSelector "#address"));
         ("etage", Some (MapSelector "#etage"));
         (* the key d, o-slash (code unit 248), r *)
         ("d" +:+ unit_string 248 +:+ "r", Some (MapSelector "#doer"));
         ("adgangsadresse.vejstykke.navn", Some (MapSelector "#vejnavn"));
         ("adgangsadresse.husnr", Some (MapSelector "#husnr"));
         ("adgangsadresse.postnummer.nr", Some (MapSelector "#postnr"));
         ("adgangsadresse.postnummer.navn", Some (MapSelector "#postnrnavn"));
         ("adgangsadresse.kommune.kode", Some (MapSelector "#kommunekode"));
         ("adgangsadresse.kommune.navn", Some (MapSelector "#kommune")) ])
    [("useFuzzyFallback", JBool false)].
Definition _hideSuggestions : M unit := TsA._hideSuggestions.
Definition _showSuggestions : M unit := TsA._showSuggestions.
Definition _renderSuggestions : list Suggestion -> M unit := TsA._renderSuggestions.
Definition _updateHighlight : M unit := TsA._updateHighlight.
Definition _initialize : M unit := TsA._initialize.

(** The merged configuration built by the [config] setter. *)
Definition merged (newConfig : NetsiConfig) : NetsiConfig :=
  mkConfig
    (Some (spread (default [] (cfg_ui _defaults)) (default [] (cfg_ui newConfig))))
    (spread (cfg_props _defaults) (cfg_props newConfig)).

(** [set config(newConfig)] *)
Definition config (newConfig : NetsiConfig) : M unit :=
  modify (set_config (merged newConfig)) ;;
  _initialize.

Definition _populate (addressData : JsVal) : M unit :=
  cfg ← gets _config;
  match cfg_ui cfg with
  | None => mret tt
  | Some ui =>
      (* First, handle the main address input field specially. *)
      el ← gets _inputEl;
      match el with
      | Some h =>
          betegnelse ← lift (getProp addressData "adressebetegnelse");
          update_element h (set_value betegnelse)
      | None => mret tt
      end ;;
      (* Then, iterate over the rest of the UI mappings. *)
      for_each (fun entry =>
        let key := fst entry in
        let mapping := snd entry in
        if mapping_falsy mapping || String.eqb key "address" then mret tt
        else
          let '(selector, mapper) :=
            match mapping with
            | Some (MapObject sel m) => (sel, m)
            | Some (MapSelector sel) => (sel, None)
            | None => ("", None)
            end in
          targetEl ← querySelector selector;
          match targetEl with
          | Some h =>
              rawValue ← in_realm (fun realm => _getValue realm addressData key);
              shown ← match mapper with
                      | Some f => lift (f rawValue addressData)
                      | None => mret rawValue
                      end;
              update_element h (set_value shown)
          | None => mret tt
          end) ui
  end.

(** [select] after the record is resolved. *)
Definition select_finish (addressData : JsVal) : M unit :=
  _populate addressData ;;
  _hideSuggestions ;;
  dispatchEvent (select_event (JObj [("address", addressData)])).

(** [select] up to its first await. *)
Definition select (item : option Suggestion) : M unit :=
  match item with
  | None => mret tt
  | Some item =>
      if negb (truthy (adresse item)) then mret tt
      else
        let addressData := adresse item in
        adgangsadresse ← lift (getProp addressData "adgangsadresse");
        kommune ← (if nullish adgangsadresse then mret JUndefined
                   else lift (getProp adgangsadresse "kommune"));
        href ← lift (getProp addressData "href");
        if negb (truthy kommune) && truthy href
        then fetch_detail href item
        else select_finish addressData
  end.

(** [select] from the settlement of the detail request. *)
Definition select_resume (rq : DetailRequest) (o : Outcome JsVal) : M unit :=
  match received (fun _ => Error "Failed to fetch full address details.") o with
  | Normal addressData => select_finish addressData
  | Throw error => console_error "NetsiAddress select failed:" (Some error)
  end.

Definition _handleKeydown (key : string) : M unit :=
  vis ← gets list_visible;
  if negb vis then mret tt
  else
    n ← gets (fun s => length (rendered s));
    if (n =? 0)%nat then mret tt
    else if String.eqb key "ArrowDown" then
      modify (fun s =>
        set_highlightedIndex (Z.rem (_highlightedIndex s + 1) (Z.of_nat n)) s) ;;
      _updateHighlight
    else if String.eqb key "ArrowUp" then
      modify (fun s =>
        set_highlightedIndex
          (Z.rem (_highlightedIndex s - 1 + Z.of_nat n) (Z.of_nat n)) s) ;;
      _updateHighlight
    else if String.eqb key "Enter" then
      h ← gets _highlightedIndex;
      if -1 <? h then
        li ← gets (fun s => rendered s !! Z.to_nat h);
        match li with
        | Some item => detached (select (Some item))
        | None => throw (TypeError "Cannot read properties of undefined (reading 'click')")
        end
      else mret tt
    else if String.eqb key "Escape" then _hideSuggestions
    else mret tt.

(** A click whose target lies outside the list and is not the input. *)
Definition _handleClickOutside : M unit :=
  l ← gets _suggestionsEl;
  if bool_decide (is_Some l) then _hideSuggestions else mret tt.

(** [this._inputEl?.value.trim()]; [None] is [undefined]. *)
Definition input_query : M (option string) :=
  el ← gets _inputEl;
  match el with
  | None => mret None
  | Some h =>
      e ← read_element h;
      match get_value e with
      | JStr v => mret (Some (trim v))
      | _ => throw (TypeError "Cannot read properties of undefined (reading 'trim')")
      end
  end.

(** [!query] *)
Definition no_query (query : option string) : bool :=
  match query with
  | None => true
  | Some q => String.eqb q ""
  end.

Definition _buildQueryParameters (isFuzzy : bool) : M URLSearchParams :=
  query ← input_query;
  cfg ← gets _config;
  let params : URLSearchParams :=
    if no_query query then [] else params_set "q" (default "" query) [] in
  let params :=
    fold_left (fun ps kv => params_set (fst kv) (ToString (snd kv)) ps)
      (request_keys cfg) params in
  mret (if isFuzzy then params_set "fuzzy" "true" params else params).

(** [_fetchData] up to its first await. *)
Definition _fetchData (params : URLSearchParams) (stage : Stage) : M unit :=
  c ← gets _abortController;
  fetch c params stage.

(** [_fetchData] from its first await to its return value. *)
Definition _fetchData_result (o : Outcome (list Suggestion))
  : Completion (list Suggestion) :=
  received (fun statusText => Error ("API request failed: " +:+ statusText)) o.

Definition lookup_catch (error : JsError) : M unit :=
  if err_isError error && negb (String.eqb (err_name error) "AbortError") then
    console_error "NetsiAddress lookup failed:" (Some error)
  else mret tt.

(** [lookup] up to its first await. *)
Definition lookup : M unit :=
  abort_current ;;
  new_controller ;;
  query ← input_query;
  if no_query query then _renderSuggestions []
  else
    try_catch
      (params ← _buildQueryParameters false;
       _fetchData params Primary)
      lookup_catch.

Definition tag_fuzzy (item : Suggestion) : Suggestion :=
  mkSuggestion (tekst item) (adresse item) (JBool true).

(** [lookup] from the settlement of the request it awaits. *)
Definition lookup_resume (rq : Request) (o : Outcome (list Suggestion)) : M unit :=
  try_catch
    (data ← lift (_fetchData_result o);
     match rq_stage rq with
     | Primary =>
         cfg ← gets _config;
         if (length data =? 0)%nat && truthy (useFuzzyFallback cfg) then
           params ← _buildQueryParameters true;
           _fetchData params Fuzzy
         else _renderSuggestions data
     | Fuzzy =>
         _renderSuggestions
           (if (0 <? length data)%nat then List.map tag_fuzzy data else data)
     end)
    lookup_catch.

Definition step (ev : Event) (s : State) : State :=
  fst (match ev with
       | EvEdit h text => edit h text
       | EvLookup => lookup
       | EvSettle rid o => settle lookup_resume rid o
       | EvKeydown key => _handleKeydown key
       | EvClickItem i =>
           match rendered s !! i with
           | Some item => select (Some item)
           | None => mret tt
           end
       | EvClickOutside => _handleClickOutside
       | EvSelect item => select item
       | EvSettleDetail rid o => settle_detail select_resume rid o
       end s).

End TsB.

(** ** The published JavaScript class (netsi-address.js) *)

Module Js.

Definition _defaults : NetsiConfig :=
  mkConfig
    (Some
       [ ("address", Some (MapSelector "#address"));
         ("etage", Some (MapSelector "#etage"));
         (* the key d, o-slash (code unit 248), r *)
         ("d" +:+ unit_string 248 +:+ "r", Some (MapSelector "#doer"));
         ("adgangsadresse.vejstykke.navn", Some (MapSelector "#vejnavn"));
         ("adgangsadresse.husnr", Some (MapSelector "#husnr"));
         ("adgangsadresse.postnummer.nr", Some (MapSelector "#postnr"));
         ("adgangsadresse.postnummer.navn", Some (MapSelector "#postnrnavn"));
         ("adgangsadresse.kommune.kode", Some (MapSelector "#kommunekode"));
         ("adgangsadresse.kommune.navn", Some (MapSelector "#kommune")) ])
    [].

Definition null_list {A} : M A :=
  throw (TypeError "Cannot read properties of null").

Definition _hideSuggestions : M unit :=
  el ← gets _suggestionsEl;
  match el with
  | Some l => modify (set_suggestionsEl (Some (mkList false (items l))))
  | None => null_list
  end.

Definition _showSuggestions : M unit :=
  el ← gets _suggestionsEl;
  match el with
  | Some l => modify (set_suggestionsEl (Some (mkList true (items l))))
  | None => null_list
  end.

Definition _renderSuggestions (suggestions : list Suggestion) : M unit :=
  el ← gets _suggestionsEl;
  match el with
  | Some _ =>
      TsA.set_items (fun _ => []) ;;
      modify (set_highlightedIndex (-1)) ;;
      if (length suggestions =? 0)%nat then _hideSuggestions
      else
        for_each (fun item => TsA.set_items (fun l => l ++ [item])%list) suggestions ;;
        _showSuggestions
  | None => null_list
  end.

Definition _updateHighlight : M unit := mret tt.

Definition dquote : string :=
  String (Ascii false true false false false true false false) EmptyString.

Definition _populate (addressData : JsVal) : M unit :=
  cfg ← gets _config;
  for_each (fun entry =>
    let jsonPath := fst entry in
    let uiMapping := snd entry in
    if String.eqb jsonPath "address" then mret tt
    else
      match (match uiMapping with
             | Some (MapSelector sel) => Some (sel, None)
             | Some (MapObject sel m) =>
                 if String.eqb sel "" then None else Some (sel, m)
             | None => None
             end) with
      | None => mret tt
      | Some (selector, mapper) =>
          element ← querySelector selector;
          match element with
          | None => mret tt
          | Some h =>
              rawValue ← in_realm (fun realm => rawValue realm addressData jsonPath);
              match (match mapper with
                     | Some f => f rawValue addressData
                     | None => Normal rawValue
                     end) with
              | Throw e =>
                  console_error
                    ("Mapper function for path " +:+ dquote +:+ jsonPath
                     +:+ dquote +:+ " failed:") (Some e)
              | Normal displayValue =>
                  e ← read_element h;
                  if has_value e then update_element h (set_value displayValue)
                  else update_element h (set_textContent displayValue)
              end
          end
      end) (default [] (cfg_ui cfg)).

(** [select] after the record is resolved. *)
Definition select_finish (item : Suggestion) (addressData : JsVal) : M unit :=
  _hideSuggestions ;;
  el ← gets _inputEl;
  match el with
  | Some h => update_element h (set_value (tekst item))
  | None => mret tt
  end ;;
  _populate addressData ;;
  dispatchEvent (select_event addressData).

(** [select] up to its first await. *)
Definition select (item : option Suggestion) : M unit :=
  match item with
  | None => mret tt
  | Some item =>
      if negb (truthy (adresse item)) then mret tt
      else
        let addressData := adresse item in
        kommune ← lift (getProp addressData "kommune");
        href ← lift (getProp addressData "href");
        if negb (truthy kommune) && truthy href
        then fetch_detail href item
        else select_finish item addressData
  end.

(** [select] from the settlement of the detail request. *)
Definition select_resume (rq : DetailRequest) (o : Outcome JsVal) : M unit :=
  match received (fun _ => Error "Could not fetch full address data") o with
  | Normal addressData => select_finish (dr_item rq) addressData
  | Throw error => console_error "Failed to select address:" (Some error)
  end.

Definition _handleKeydown (key : string) : M unit :=
  el ← gets _suggestionsEl;
  match el with
  | None => null_list
  | Some l =>
      if negb (visible l) then mret tt
      else
        let n := length (items l) in
        if (n =? 0)%nat then mret tt
        else if String.eqb key "ArrowDown" then
          modify (fun s =>
            set_highlightedIndex (Z.rem (_highlightedIndex s + 1) (Z.of_nat n)) s) ;;
          _updateHighlight
        else if String.eqb key "ArrowUp" then
          modify (fun s =>
            set_highlightedIndex
              (Z.rem (_highlightedIndex s - 1 + Z.of_nat n) (Z.of_nat n)) s) ;;
          _updateHighlight
        else if String.eqb key "Enter" then
          h ← gets _highlightedIndex;
          if -1 <? h then
            match items l !! Z.to_nat h with
            | Some item => detached (select (Some item))
            | None => throw (TypeError "Cannot read properties of undefined (reading 'click')")
            end
          else mret tt
        else if String.eqb key "Escape" then _hideSuggestions
        else mret tt
  end.

(** A click whose target lies outside the list and is not the input. *)
Definition _handleClickOutside : M unit :=
  el ← gets _suggestionsEl;
  match el with
  | None => null_list
  | Some _ => _hideSuggestions
  end.

Definition _buildQueryParameters (isFuzzy : bool) : M URLSearchParams :=
  query ← TsB.input_query;
  cfg ← gets _config;
  let params : URLSearchParams :=
    if TsB.no_query query then [] else params_set "q" (default "" query) [] in
  let params :=
    fold_left (fun ps kv => params_set (fst kv) (ToString (snd kv)) ps)
      (request_keys cfg) params in
  mret (if isFuzzy then params_set "fuzzy" "true" params else params).

(** [_fetchData] up to its first await. *)
Definition _fetchData (params : URLSearchParams) (stage : Stage) : M unit :=
  c ← gets _abortController;
  match c with
  | Some _ => fetch c params stage
  | None => throw (TypeError "Cannot read properties of null (reading 'signal')")
  end.

(** [_fetchData] from its first await to its return value. *)
Definition _fetchData_result (o : Outcome (list Suggestion))
  : Completion (list Suggestion) :=
  received (fun statusText => Error ("API request failed: " +:+ statusText)) o.

Definition lookup_catch (error : JsError) : M unit :=
  if negb (String.eqb (err_name error) "AbortError") then
    console_error "NetsiAddress lookup failed:" (Some error)
  else mret tt.

(** [lookup] up to its first await. *)
Definition lookup : M unit :=
  abort_current ;;
  new_controller ;;
  query ← TsB.input_query;
  if TsB.no_query query then _renderSuggestions []
  else
    try_catch
      (params ← _buildQueryParameters false;
       _fetchData params Primary)
      lookup_catch.

(** [lookup] from the settlement of the request it awaits. *)
Definition lookup_resume (rq : Request) (o : Outcome (list Suggestion)) : M unit :=
  try_catch
    (data ← lift (_fetchData_result o);
     match rq_stage rq with
     | Primary =>
         cfg ← gets _config;
         if (length data =? 0)%nat && truthy (useFuzzyFallback cfg) then
           params ← _buildQueryParameters true;
           _fetchData params Fuzzy
         else _renderSuggestions data
     | Fuzzy =>
         _renderSuggestions
           (if (0 <? length data)%nat then List.map TsB.tag_fuzzy data else data)
     end)
    lookup_catch.

Definition _createSuggestionsUI : M unit := TsA._createSuggestionsUI.

Definition _initialize : M unit :=
  cfg ← gets _config;
  found ← match cfg_ui cfg with
          | None => throw (TypeError "Cannot read properties of undefined (reading 'address')")
          | Some ui =>
              match assoc "address" ui with
              | Some (Some (MapSelector sel)) => querySelector sel
              | Some (Some (MapObject _ _)) =>
                  throw (mkError "SyntaxError" true "'[object Object]' is not a valid selector")
              | _ => querySelector "undefined"
              end
          end;
  modify (set_inputEl found) ;;
  match found with
  | None => console_error "NetsiAddress: Main input element not found with selector:" None
  | Some _ => _createSuggestionsUI
  end.

(** The merged configuration built by the [config] setter. *)
Definition merged (newConfig : NetsiConfig) : NetsiConfig :=
  mkConfig
    (Some (spread (default [] (cfg_ui _defaults)) (default [] (cfg_ui newConfig))))
    (cfg_props newConfig).

(** [set config(newConfig)] *)
Definition config (newConfig : NetsiConfig) : M unit :=
  modify (set_config (merged newConfig)) ;;
  _initialize.

Definition step (ev : Event) (s : State) : State :=
  fst (match ev with
       | EvEdit h text => edit h text
       | EvLookup => lookup
       | EvSettle rid o => settle lookup_resume rid o
       | EvKeydown key => _handleKeydown key
       | EvClickItem i =>
           match rendered s !! i with
           | Some item => select (Some item)
           | None => mret tt
           end
       | EvClickOutside => _handleClickOutside
       | EvSelect item => select item
       | EvSettleDetail rid o => settle_detail select_resume rid o
       end s).

End Js.

(** ** [debounce]

    The function [debounce(func, delay)] returns closes over one variable,
    [timeoutId].  Time is left out: a timer that is set and not cleared may
    fire at any later moment, and it fires once. *)

Module Debounce.

Section Timers.
Context {A : Type}.

(** The closure's [timeoutId]; the timers it has set that have neither
    fired nor been cleared, each with the arguments its callback closes
    over; the id the next [setTimeout] returns; and the calls of [func]
    made so far. *)
Record Debounced : Type := mkDebounced {
  timeoutId : option nat;
  scheduled : gmap nat A;
  next_timer : nat;
  invoked : list A
}.

(** [debounce(func)]: nothing is scheduled. *)
Definition debounce (first_id : nat) : Debounced :=
  mkDebounced None ∅ first_id [].

(** [clearTimeout(id)]; [undefined] and the id of a timer that is gone
    clear nothing. *)
Definition clearTimeout (id : option nat) (timers : gmap nat A) : gmap nat A :=
  match id with
  | Some i => delete i timers
  | None => timers
  end.

(** The debounced function called with [args]:
    [clearTimeout(timeoutId); timeoutId = setTimeout(() => func.apply(this, args), delay)]. *)
Definition call (args : A) (d : Debounced) : Debounced :=
  mkDebounced (Some (next_timer d))
    (<[next_timer d := args]> (clearTimeout (timeoutId d) (scheduled d)))
    (S (next_timer d)) (invoked d).

(** The timer [id] fires: its callback runs [func.apply(this, args)]. *)
Definition fire (id : nat) (d : Debounced) : Debounced :=
  match scheduled d !! id with
  | Some args =>
      mkDebounced (timeoutId d) (delete id (scheduled d)) (next_timer d)
        (invoked d ++ [args])
  | None => d
  end.

Inductive Event : Type :=
| Call (args : A)
| Fire (id : nat).

Definition step (ev : Event) (d : Debounced) : Debounced :=
  match ev with
  | Call args => call args d
  | Fire id => fire id d
  end.

Definition run (evs : list Event) (d : Debounced) : Debounced :=
  fold_left (fun d ev => step ev d) evs d.

(** Only the timer [timeoutId] names can be scheduled. *)
Definition coalesced (d : Debounced) : Prop :=
  forall id args, scheduled d !! id = Some args -> timeoutId d = Some id.

End Timers.

Arguments Debounced A : clear implicits.
Arguments Event A : clear implicits.

End Debounce.

(** ** The debounced lookup

    [_debouncedLookup = debounce(this.lookup.bind(this))] is the [input]
    listener of the search field: the browser changes the field's value and
    calls the listener, and [lookup] runs when the timer fires. *)

Inductive Input : Type :=
| Typed (h : nat) (text : string)
| TimerFires (id : nat).

Definition input_step (lookup : M unit) (ev : Input)
    (c : State * Debounce.Debounced unit) : State * Debounce.Debounced unit :=
  match ev with
  | Typed h text => (fst (edit h text (fst c)), Debounce.call tt (snd c))
  | TimerFires id =>
      match Debounce.scheduled (snd c) !! id with
      | Some _ => (fst (lookup (fst c)), Debounce.fire id (snd c))
      | None => c
      end
  end.

Definition input_run (lookup : M unit) (evs : list Input)
    (c : State * Debounce.Debounced unit) : State * Debounce.Debounced unit :=
  fold_left (fun c ev => input_step lookup ev c) evs c.

(** The state after the texts were typed into the field one after the
    other. *)
Definition edits (h : nat) (texts : list string) (s : State) : State :=
  fold_left (fun s text => fst (edit h text s)) texts s.

(** ** Set-up and teardown on the page

    The part of the page that [_injectStyles], [_createSuggestionsUI],
    [_attachListeners] and [disconnectedCallback] act on: the registered
    event listeners, the [style] elements with the id
    [netsi-address-styles] in the head and the [ul] elements in the body.
    The methods are the same in the three classes (the TypeScript ones test
    for the presence of [addEventListener] and [removeEventListener], which
    every element, the document and the window have).  Without a search
    field [_attachListeners] is written as in the TypeScript classes, where
    it skips the two listeners of the field; the JavaScript class calls it
    only from [_initialize], after the field was found. *)

Module Lifecycle.

Inductive Target : Type :=
| OnElement (h : nat)
| TheDocument
| TheWindow.

(** The bound functions a component registers. *)
Inductive Callback : Type :=
| _debouncedLookup
| _boundHandleKeydown
| _boundHandleClickOutside
| _boundReposition.

(** A registered listener: target, event type, the callback of the
    component [owner], and the capture flag. *)
Record Listener : Type := mkListener {
  target : Target;
  type : string;
  owner : nat;
  callback : Callback;
  capture : bool
}.

#[global] Instance Target_eq_dec : EqDecision Target.
Proof. solve_decision. Defined.

#[global] Instance Callback_eq_dec : EqDecision Callback.
Proof. solve_decision. Defined.

#[global] Instance Listener_eq_dec : EqDecision Listener.
Proof. solve_decision. Defined.

Record Page : Type := mkPage {
  listeners : list Listener;
  styles : nat;
  lists : list nat;
  next_node : nat
}.

(** A component: which one it is, its search field and its list element. *)
Record Component : Type := mkComponent {
  self : nat;
  _inputEl : option nat;
  _suggestionsEl : option nat
}.

(** [target.addEventListener(type, callback, capture)]: a listener that is
    already registered with the same type, callback and capture flag is
    not registered again. *)
Definition addEventListener (l : Listener) (ls : list Listener) : list Listener :=
  if bool_decide (l ∈ ls) then ls else (ls ++ [l])%list.

(** [target.removeEventListener(type, callback, capture)] *)
Definition removeEventListener (l : Listener) (ls : list Listener) : list Listener :=
  List.filter (fun l' => negb (bool_decide (l' = l))) ls.

Definition _injectStyles (p : Page) : Page :=
  if (0 <? styles p)%nat then p
  else mkPage (listeners p) (S (styles p)) (lists p) (next_node p).

Definition _createSuggestionsUI (cp : Component * Page) : Component * Page :=
  let '(c, p) := cp in
  (mkComponent (self c) (_inputEl c) (Some (next_node p)),
   mkPage (listeners p) (styles p) (lists p ++ [next_node p])%list
     (S (next_node p))).

Definition _attachListeners (c : Component) (p : Page) : Page :=
  let ls := listeners p in
  let ls :=
    match _inputEl c with
    | Some h =>
        addEventListener
          (mkListener (OnElement h) "keydown" (self c) _boundHandleKeydown false)
          (addEventListener
             (mkListener (OnElement h) "input" (self c) _debouncedLookup false) ls)
    | None => ls
    end in
  let ls :=
    addEventListener
      (mkListener TheDocument "click" (self c) _boundHandleClickOutside false) ls in
  let ls :=
    addEventListener
      (mkListener TheWindow "resize" (self c) _boundReposition false) ls in
  let ls :=
    addEventListener
      (mkListener TheWindow "scroll" (self c) _boundReposition true) ls in
  mkPage ls (styles p) (lists p) (next_node p).

(** [_initialize] from the point where the search field [h] was found. *)
Definition _initialize (h : nat) (cp : Component * Page) : Component * Page :=
  let '(c, p) := cp in
  let c := mkComponent (self c) (Some h) (_suggestionsEl c) in
  let p := _injectStyles p in
  let '(c, p) := _createSuggestionsUI (c, p) in
  (c, _attachListeners c p).

Definition disconnectedCallback (cp : Component * Page) : Component * Page :=
  let '(c, p) := cp in
  let ls := listeners p in
  let ls :=
    match _inputEl c with
    | Some h =>
        removeEventListener
          (mkListener (OnElement h) "keydown" (self c) _boundHandleKeydown false)
          (removeEventListener
             (mkListener (OnElement h) "input" (self c) _debouncedLookup false) ls)
    | None => ls
    end in
  let ls :=
    removeEventListener
      (mkListener TheDocument "click" (self c) _boundHandleClickOutside false) ls in
  let ls :=
    removeEventListener
      (mkListener TheWindow "resize" (self c) _boundReposition false) ls in
  let ls :=
    removeEventListener
      (mkListener TheWindow "scroll" (self c) _boundReposition true) ls in
  (* this._suggestionsEl?.remove() *)
  let uls :=
    match _suggestionsEl c with
    | Some n => List.filter (fun n' => negb (Nat.eqb n' n)) (lists p)
    | None => lists p
    end in
  (* document.getElementById("netsi-address-styles")?.remove() *)
  (c, mkPage ls (Nat.pred (styles p)) uls (next_node p)).

(** A component that was just constructed. *)
Definition constructed (id : nat) : Component := mkComponent id None None.

(** The component owns no listener of the page, and the node ids of the
    page's lists lie below [next_node]. *)
Definition new_to (c : Component) (p : Page) : Prop :=
  (forall l, In l (listeners p) -> owner l <> self c) /\
  (forall n, In n (lists p) -> (n < next_node p)%nat).

End Lifecycle.

(** The five listeners [_attachListeners] registers for the component
    [id] on the search field [h], the document and the window. *)
Definition Lifecycle_registered (id h : nat) : list Lifecycle.Listener :=
  [ Lifecycle.mkListener (Lifecycle.OnElement h) "input" id
      Lifecycle._debouncedLookup false;
    Lifecycle.mkListener (Lifecycle.OnElement h) "keydown" id
      Lifecycle._boundHandleKeydown false;
    Lifecycle.mkListener Lifecycle.TheDocument "click" id
      Lifecycle._boundHandleClickOutside false;
    Lifecycle.mkListener Lifecycle.TheWindow "resize" id
      Lifecycle._boundReposition false;
    Lifecycle.mkListener Lifecycle.TheWindow "scroll" id
      Lifecycle._boundReposition true ].

(** A page with a listener of the host application and nothing of the
    component's. *)
Definition Lifecycle_sample_page : Lifecycle.Page :=
  Lifecycle.mkPage
    [Lifecycle.mkListener Lifecycle.TheDocument "click" 0
       Lifecycle._boundHandleClickOutside false]
    0 [] 10.

(** ** Notions used to state the properties *)

Definition is_undefined (v : JsVal) : bool :=
  match v with
  | JUndefined => true
  | _ => false
  end.

(** Some segment of the path is missing: on the way down, the holder is
    [undefined]/[null] or has no property of that name. *)
Fixpoint has_missing (v : JsVal) (parts : list string) : bool :=
  match parts with
  | [] => false
  | p :: ps =>
      nullish v || is_undefined (own_prop v p) || has_missing (own_prop v p) ps
  end.

(** An empty or absent value: [undefined], [null] or the empty string. *)
Definition absent (v : JsVal) : Prop :=
  v = JUndefined \/ v = JNull \/ v = JStr "".

(** None of the names is the name of a member that values inherit. *)
Definition data_names (inherited : Realm) (names : list string) : Prop :=
  forall v k, In k names -> inherited v k = None.

(** Path resolution by [resolve] is total and turns a missing segment into
    an empty or absent value. *)
Definition resolves_to_absent (resolve : JsVal -> string -> Completion JsVal) : Prop :=
  forall obj path,
    exists v, resolve obj path = Normal v /\
              (has_missing obj (split "." path) = true -> absent v).

Definition sample_record : JsVal :=
  JObj [("adgangsadresse", JObj [("postnummer", JObj [("nr", JStr "8541")])])].

Definition sample_empty_record : JsVal := JObj [("adgangsadresse", JObj [])].

(** An object literal has each key once. *)
Definition unique_keys {A} (o : list (string * A)) : Prop := NoDup (List.map fst o).

(** A page with the search field, two more form controls and a text
    element, used in the examples. *)
Definition SyntaxError (sel : string) : JsError :=
  mkError "SyntaxError" true ("'" +:+ sel +:+ "' is not a valid selector").

Definition sample_qs (sel : string) : Completion (option nat) :=
  if String.eqb sel "#address" then Normal (Some 0%nat)
  else if String.eqb sel "#postnr" then Normal (Some 1%nat)
  else if String.eqb sel "#etage" then Normal (Some 2%nat)
  else if String.eqb sel "#doer" then Normal (Some 3%nat)
  else if String.eqb sel "" || String.eqb sel "#" then Throw (SyntaxError sel)
  else Normal None.

(** What values inherit on the sample page, as far as the examples go: an
    object inherits [constructor], the function [Object]; that function
    has the [name] "Object", and its [caller] is an accessor that throws. *)
Definition Object_function : JsVal :=
  JHost 1 "function Object() { [native code] }".

Definition sample_realm : Realm := fun v k =>
  if String.eqb k "constructor" then
    match v with
    | JObj _ => Some (Normal Object_function)
    | _ => None
    end
  else if String.eqb k "name" then
    match v with
    | JHost 1 _ => Some (Normal (JStr "Object"))
    | _ => None
    end
  else if String.eqb k "caller" then
    match v with
    | JHost 1 _ =>
        Some (Throw (TypeError "'caller' may not be accessed on strict mode functions"))
    | _ => None
    end
  else None.

Definition sample_document (typed : string) : Document :=
  mkDocument sample_qs sample_realm
    (list_to_map [(0%nat, FormControl typed); (1%nat, FormControl "");
                  (2%nat, FormControl ""); (3%nat, PlainElement "")]).

Definition no_config : NetsiConfig := mkConfig None [].

(** States a component goes through when its configuration is assigned
    once, as in the README's usage: the [config] setter runs on a newly
    constructed element, then events arrive in any order.  A second
    assignment is not among the events; the setter itself, [config], runs
    on any state. *)
Inductive reachable (config : NetsiConfig -> M unit)
    (step : Event -> State -> State) : State -> Prop :=
| reach_config cfg d newConfig :
    reachable config step (fst (config newConfig (constructed cfg d)))
| reach_step s ev :
    reachable config step s -> reachable config step (step ev s).

Definition run (step : Event -> State -> State) (evs : list Event) (s : State)
  : State :=
  fold_left (fun s ev => step ev s) evs s.

(** Number of rendered suggestions. *)
Definition count (s : State) : Z := Z.of_nat (length (rendered s)).

(** The part of the state the highlight cursor ranges over. *)
Definition cursor (s : State) : Z * list Suggestion :=
  (_highlightedIndex s, rendered s).

(** A method leaves a part of the state as it was. *)
Definition preserves {A B} (part : State -> B) (m : M A) : Prop :=
  forall s, part (fst (m s)) = part s.

(** A method keeps a property of the state. *)
Definition keeps {A} (P : State -> Prop) (m : M A) : Prop :=
  forall s, P s -> P (fst (m s)).

Definition suggestion (text : string) : Suggestion :=
  mkSuggestion (JStr text) (JObj [("adressebetegnelse", JStr text)]) JUndefined.

Definition three_suggestions : list Suggestion :=
  [suggestion "Vej 1"; suggestion "Vej 2"; suggestion "Vej 3"].

(** The cursor is [-1] or the index of a rendered suggestion. *)
Definition in_range (s : State) : Prop :=
  -1 <= _highlightedIndex s <= count s - 1.

(** The documented class on the sample page, after three suggestions came
    back for the typed text and the user pressed the down arrow three times. *)
Definition TsA_started (typed : string) : State :=
  fst (TsA.config no_config (constructed no_config (sample_document typed))).

Definition TsA_three_down : State :=
  run TsA.step
    [EvLookup; EvSettle 1 (Response true "OK" (Normal three_suggestions));
     EvKeydown "ArrowDown"; EvKeydown "ArrowDown"; EvKeydown "ArrowDown"]
    (TsA_started "Vej").

(** A component of each class on the sample page, right after its
    configuration was set. *)
Definition started (config : NetsiConfig -> M unit) (newConfig : NetsiConfig)
    (typed : string) : State :=
  fst (config newConfig (constructed no_config (sample_document typed))).

Definition sample_address : JsVal :=
  JObj [("adressebetegnelse", JStr "Grenaavej 793C, 8541 Skodstrup");
        ("etage", JStr "2");
        ("adgangsadresse",
         JObj [("postnummer", JObj [("nr", JStr "8541")]);
               ("kommune", JObj [("kode", JStr "0751")])])].

(** A mapper that fails on every value. *)
Definition throwing_mapper : MapperFunction :=
  fun _ _ => Throw (Error "bad date").

(** [{ ui: { etage: { selector: "#etage", mapper } } }] with the failing
    mapper. *)
Definition throwing_config : NetsiConfig :=
  mkConfig (Some [("etage", Some (MapObject "#etage" (Some throwing_mapper)))]) [].

(** The suggestion carries a partial record and a link to the full one:
    the test that makes [select] fetch the detail. *)
Definition TsB_partial (addressData : JsVal) : bool :=
  truthy addressData
  && negb (truthy (let a := own_prop addressData "adgangsadresse" in
                   if nullish a then JUndefined else own_prop a "kommune"))
  && truthy (own_prop addressData "href").

Definition Js_partial (addressData : JsVal) : bool :=
  truthy addressData
  && negb (truthy (own_prop addressData "kommune"))
  && truthy (own_prop addressData "href").

(** Nothing the user can see has changed and no event was dispatched. *)
Definition untouched (s s' : State) : Prop :=
  document s' = document s /\ dispatched s' = dispatched s /\
  _suggestionsEl s' = _suggestionsEl s /\
  _highlightedIndex s' = _highlightedIndex s.

(** C4's reading of the payload: a selection that fires an event fires it
    with the record as the event's [detail]. *)
Definition fires_record_as_detail (select : option Suggestion -> M unit) : Prop :=
  forall s item s',
    select (Some item) s = (s', Normal tt) -> dispatched s' <> dispatched s ->
    dispatched s' = (dispatched s ++ [select_event (adresse item)])%list.

Definition sample_suggestion : Suggestion :=
  mkSuggestion (JStr "Grenaavej 793C") sample_address JUndefined.

Definition selector_of (m : UiMapping) : string :=
  match m with
  | MapSelector sel => sel
  | MapObject sel _ => sel
  end.

(** No field mapping other than [address] points at the element [h]. *)
Definition unmapped (s : State) (h : nat) : Prop :=
  forall path m,
    In (path, Some m) (default [] (cfg_ui (_config s))) ->
    path <> "address" ->
    qs (document s) (selector_of m) <> Normal (Some h).

(** C7's reading: a selection that fires its event leaves the suggestion's
    display text in the search field. *)
Definition shows_display_text (select : option Suggestion -> M unit) : Prop :=
  forall s item h s',
    _inputEl s = Some h -> unmapped s h ->
    select (Some item) s = (s', Normal tt) -> dispatched s' <> dispatched s ->
    element_of (document s') h = set_value (tekst item) (element_of (document s) h).

(** The component is attached to a search field that is a form control. *)
Definition attached (s : State) : Prop :=
  exists h v, _inputEl s = Some h /\ element_of (document s) h = FormControl v.

(** Every outstanding request is cancelled. *)
Definition all_cancelled (s : State) : Prop :=
  forall rq, In rq (pending s) -> cancelled s rq = true.

(** What holds of the network side of a component in every state it
    reaches. *)
Record well_formed (s : State) : Prop := mkWellFormed {
  wf_signal : forall rq, In rq (pending s) ->
    exists c, rq_signal rq = Some c /\
              (c ∈ aborted s \/ _abortController s = Some c);
  wf_aborted : forall c, c ∈ aborted s -> (c < next_id s)%nat;
  wf_controller : forall c, _abortController s = Some c -> (c < next_id s)%nat;
  wf_ids : forall rq, In rq (pending s) -> (rq_id rq < next_id s)%nat;
  wf_nodup : List.NoDup (List.map rq_id (pending s));
  wf_one_live : forall rq1 rq2,
    In rq1 (pending s) -> In rq2 (pending s) ->
    cancelled s rq1 = false -> cancelled s rq2 = false -> rq1 = rq2;
  wf_attached : pending s <> [] -> attached s /\ is_Some (_abortController s);
  wf_list : attached s -> is_Some (_suggestionsEl s);
  wf_fuzzy : forall rq, In rq (pending s) -> rq_stage rq = Fuzzy ->
    params_has "fuzzy" (rq_params rq) = true
}.

(** A method respects a relation between the state before and after. *)
Definition respects {A} (R : State -> State -> Prop) (m : M A) : Prop :=
  forall s, R s (fst (m s)).

(** A step that stays away from the network: requests, controllers and
    aborts are as before, fresh ids only grow, the search field is the same
    element of the same kind, and a list element stays one. *)
Record quiet (s s' : State) : Prop := mkQuiet {
  q_aborted : aborted s' = aborted s;
  q_controller : _abortController s' = _abortController s;
  q_pending : pending s' = pending s;
  q_trace : net_trace s' = net_trace s;
  q_next : (next_id s <= next_id s')%nat;
  q_input : _inputEl s' = _inputEl s;
  q_kind : forall h, has_value (element_of (document s') h)
                     = has_value (element_of (document s) h);
  q_list : is_Some (_suggestionsEl s) -> is_Some (_suggestionsEl s');
  q_config : _config s' = _config s
}.

(** The primary request came back with an empty result. *)
Definition zero_results (o : Outcome (list Suggestion)) : Prop :=
  exists statusText, o = Response true statusText (Normal []).

(** A request was issued between two states. *)
Definition issued (s s' : State) (rq : Request) : Prop :=
  In rq (pending s') /\ ~ In rq (pending s).

(** The search text as [input_query] reads it, and the parameters the two
    trimming classes build from a state. *)
Definition query_of (s : State) : Completion (option string) :=
  match _inputEl s with
  | None => Normal None
  | Some h =>
      match get_value (element_of (document s) h) with
      | JStr v => Normal (Some (trim v))
      | _ => Throw (TypeError "Cannot read properties of undefined (reading 'trim')")
      end
  end.

Definition trimmed_params (isFuzzy : bool) (s : State) : Completion URLSearchParams :=
  cbind (query_of s) (fun query =>
    let params : URLSearchParams :=
      if TsB.no_query query then [] else params_set "q" (default "" query) [] in
    let params :=
      fold_left (fun ps kv => params_set (fst kv) (ToString (snd kv)) ps)
        (request_keys (_config s)) params in
    Normal (if isFuzzy then params_set "fuzzy" "true" params else params)).

(** The parameters the documented class builds from a state. *)
Definition raw_params (isFuzzy : bool) (s : State) : Completion URLSearchParams :=
  match _inputEl s with
  | None => Throw (TypeError "Cannot read properties of null (reading 'value')")
  | Some h =>
      Normal (fold_left
                (fun ps kv => params_append (fst kv) (ToString (snd kv)) ps)
                (request_keys (_config s))
                ([("q", ToString (get_value (element_of (document s) h)));
                  ("type", "adresse"); ("per_side", "10")]
                 ++ (if isFuzzy then [("fuzzy", "")] else []))%list)
  end.

(** [this._abortController?.abort(); this._abortController = new
    AbortController()] as one step. *)
Definition restart (s : State) : State :=
  fst (new_controller (fst (abort_current s))).

(** The aborts a lookup performs before it fetches. *)
Definition aborts_of (s : State) : list NetEvent :=
  match _abortController s with
  | Some c => [NetAbort c]
  | None => []
  end.

(** The bundled class on the sample page with one lookup under way. *)
Definition TsB_looking : State :=
  run TsB.step [EvLookup] (started TsB.config no_config "Gren").

Definition first_request : Request :=
  mkRequest 1 (Some 0%nat) [("q", "Gren")] Primary.

(** Every rendered suggestion carries the fuzzy mark. *)
Definition all_fuzzy (l : list Suggestion) : Prop :=
  Forall (fun item => isFuzzy item = JBool true) l.

(** What the settlement of a primary request does about the fallback: a
    request is issued exactly when the result was empty and the flag is on,
    and that request is the fuzzy one. *)
Definition falls_back_iff_empty (s s' : State) (o : Outcome (list Suggestion)) : Prop :=
  ((exists rq', issued s s' rq') <->
   zero_results o /\ truthy (useFuzzyFallback (_config s)) = true) /\
  (forall rq', issued s s' rq' ->
     rq_stage rq' = Fuzzy /\ params_has "fuzzy" (rq_params rq') = true).

(** The documented class and the JavaScript class on the sample page, fuzzy
    fallback enabled, after the primary request came back empty. *)
Definition fuzzy_config : NetsiConfig :=
  mkConfig None [("useFuzzyFallback", JBool true)].


Definition TsA_looking : State :=
  run TsA.step [EvLookup] (started TsA.config fuzzy_config "Gren").

Definition Js_looking : State :=
  run Js.step [EvLookup] (started Js.config fuzzy_config "Gren").

(** The selector engine and the realm are those of the page, whatever the
    elements hold. *)
Definition same_platform (q : string -> Completion (option nat))
    (inherited : Realm) (s : State) : Prop :=
  qs (document s) = q /\ realm (document s) = inherited.

(** The selector engine is the page's, whatever the elements hold. *)
Definition same_page (q : string -> Completion (option nat)) (h : nat) (e : Element)
    (s : State) : Prop :=
  qs (document s) = q /\ element_of (document s) h = e.

(** A lookup resumed with anything but the abort of its own request finds
    no other request live. *)
Definition resumable (s : State) (o : Outcome (list Suggestion)) : Prop :=
  well_formed s /\ attached s /\ is_Some (_abortController s) /\
  (all_cancelled s \/ o = Rejected AbortError).

(** Right after the [config] setter nothing is outstanding, and a search
    field was kept only together with a list element. *)
Definition fresh (s : State) : Prop :=
  pending s = [] /\ aborted s = ∅ /\ _abortController s = None /\
  (_inputEl s = None \/ is_Some (_suggestionsEl s)).

(** What a lookup that restarts the controller leaves behind: the old
    requests, all cancelled, and possibly one new, live request whose fetch
    comes after the abort. *)
Definition cancels_then_fetches (s s' : State) : Prop :=
  (forall rq, In rq (pending s) -> cancelled s' rq = true) /\
  (forall rq, issued s s' rq ->
     cancelled s' rq = false /\
     net_trace s' = (net_trace s ++ aborts_of s ++ [NetFetch (rq_id rq)])%list).

(** The settlement of a cancelled request only takes it off the list. *)
Definition discarded (s s' : State) (rq : Request) : Prop :=
  untouched s s' /\ console s' = console s /\
  pending s' = remove_request (rq_id rq) (pending s).

(** ** Notions for the properties of the remaining code *)

(** The record that holds [v] under the path [parts] and nothing else. *)
Fixpoint nest (parts : list string) (v : JsVal) : JsVal :=
  match parts with
  | [] => v
  | p :: ps => JObj [(p, nest ps v)]
  end.

(** A path segment: a key without a full stop. *)
Fixpoint dotless (s : string) : bool :=
  match s with
  | EmptyString => true
  | String c s' => negb (Ascii.eqb c ".") && dotless s'
  end.

(** The entries [new URLSearchParams({ q, type, per_side, ...fuzzy })] of
    the documented class starts from. *)
Definition base_params (q : string) (isFuzzy : bool) : URLSearchParams :=
  ([("q", q); ("type", "adresse"); ("per_side", "10")]
   ++ (if isFuzzy then [("fuzzy", "")] else []))%list.

(** The pass-through part of the demo page's configuration:
    [{ useFuzzyFallback: true, per_side: 7 }]. *)
Definition demo_config : NetsiConfig :=
  mkConfig None [("useFuzzyFallback", JBool true); ("per_side", JNum "7")].

(** Events other than a lookup and the settlement of its request. *)
Definition local (ev : Event) : bool :=
  match ev with
  | EvLookup | EvSettle _ _ => false
  | _ => true
  end.

(** The autocomplete requests, the controller and the aborts are as they
    were. *)
Definition same_network (s s' : State) : Prop :=
  pending s' = pending s /\ aborted s' = aborted s /\
  _abortController s' = _abortController s /\ net_trace s' = net_trace s.

(** The list is hidden or holds no item. *)
Definition closed (s : State) : Prop :=
  list_visible s = false \/ rendered s = [].

(** What the keys do at the edges: nothing while the list is closed; on an
    open list with nothing highlighted, the down arrow goes to the first
    item, the up arrow to the last but one (to the only item of a list of
    one) and Enter does nothing; Escape hides the list and leaves its items
    and the cursor alone; any other key does nothing. *)
Definition keyboard_edges (step : Event -> State -> State) (s : State) : Prop :=
  (closed s -> forall key, step (EvKeydown key) s = s) /\
  (list_visible s = true -> rendered s <> [] ->
   (_highlightedIndex s = -1 ->
    _highlightedIndex (step (EvKeydown "ArrowDown") s) = 0 /\
    _highlightedIndex (step (EvKeydown "ArrowUp") s)
      = (if (length (rendered s) =? 1)%nat then 0 else count s - 2) /\
    step (EvKeydown "Enter") s = s) /\
   step (EvKeydown "Escape") s
     = set_suggestionsEl (Some (mkList false (rendered s))) s /\
   (forall key,
       key <> "ArrowDown" -> key <> "ArrowUp" -> key <> "Enter" ->
       key <> "Escape" -> step (EvKeydown key) s = s)).

(** The bundled class on the sample page with three suggestions on
    display, and with the first of them highlighted. *)
Definition TsB_open : State :=
  run TsB.step
    [EvLookup; EvSettle 1 (Response true "OK" (Normal three_suggestions))]
    (started TsB.config no_config "Vej").

Definition TsB_first : State := TsB.step (EvKeydown "ArrowDown") TsB_open.

(** A lookup that failed: its request is off the list, [logged] went to
    the console, and nothing was written, dispatched, requested or
    re-rendered. *)
Definition lookup_failed (s s' : State) (rq : Request) (logged : list LogEntry)
  : Prop :=
  console s' = (console s ++ logged)%list /\
  pending s' = remove_request (rq_id rq) (pending s) /\
  rendered s' = rendered s /\ _highlightedIndex s' = _highlightedIndex s /\
  document s' = document s /\ dispatched s' = dispatched s /\
  net_trace s' = net_trace s.

(** A lookup that rendered its result: the list holds [shown], it is open
    unless [shown] is empty, nothing is highlighted, the request is off the
    list, and nothing was logged, written or requested. *)
Definition lookup_rendered (s s' : State) (rq : Request) (shown : list Suggestion)
  : Prop :=
  rendered s' = shown /\ list_visible s' = negb (length shown =? 0)%nat /\
  _highlightedIndex s' = -1 /\
  pending s' = remove_request (rq_id rq) (pending s) /\
  console s' = console s /\ document s' = document s /\
  net_trace s' = net_trace s.

(** The bundled class with a second lookup under way. *)
Definition TsB_looking_twice : State := TsB.step EvLookup TsB_looking.

Definition second_request : Request :=
  mkRequest 3 (Some 2%nat) [("q", "Gren")] Primary.

(** The search field, if there is one, is a form control. *)
Definition field_is_control (s : State) : Prop :=
  forall h, _inputEl s = Some h -> has_value (element_of (document s) h) = true.

(** A component without a search field and without outstanding requests. *)
Definition inert (s : State) : Prop := _inputEl s = None /\ pending s = [].

(** A configuration whose search field is not on the sample page. *)
Definition missing_field_config : NetsiConfig :=
  mkConfig (Some [("address", Some (MapSelector "#missing"))]) [].

(** [mapper ? mapper(rawValue, addressData) : rawValue]: what a mapping of
    the bundled class and of the JavaScript class shows for a raw value. *)
Definition shown_value (m : UiMapping) (raw data : JsVal) : Completion JsVal :=
  match m with
  | MapSelector _ => Normal raw
  | MapObject _ (Some f) => f raw data
  | MapObject _ None => Normal raw
  end.

(** What a mapping of the documented class shows: a selector string comes
    with the mapper [String(val ?? "")], an object with its own mapper. *)
Definition TsA_shown_value (m : UiMapping) (raw data : JsVal) : Completion JsVal :=
  match m with
  | MapSelector _ => TsA.default_mapper raw data
  | MapObject _ (Some f) => f raw data
  | MapObject _ None => Throw (TypeError "mapper is not a function")
  end.

(** [if ("value" in element) element.value = v; else element.textContent = v] *)
Definition Js_write (v : JsVal) (e : Element) : Element :=
  if has_value e then set_value v e else set_textContent v e.

(** No mapping of [ui], the [address] entry apart, points at the element. *)
Definition untargeted (q : string -> Completion (option nat)) (ui : UiConfig) (h : nat) : Prop :=
  forall path m, In (path, Some m) ui -> path <> "address" ->
                 q (selector_of m) <> Normal (Some h).

(** A mapper that formats a date, and a configuration that uses it. *)
Definition date_mapper : MapperFunction :=
  fun raw _ => Normal (JStr ("den " +:+ ToString raw)).

Definition date_config : NetsiConfig :=
  mkConfig (Some [("etage", Some (MapObject "#etage" (Some date_mapper)))]) [].

(** No mapping of [ui] at all points at the element. *)
Definition untargeted_all (q : string -> Completion (option nat)) (ui : UiConfig) (h : nat)
  : Prop :=
  forall path m, In (path, Some m) ui -> q (selector_of m) <> Normal (Some h).

(** [{ ui: { "adgangsadresse.postnummer.nr": undefined } }]: the default
    mapping of the postal code is switched off. *)
Definition no_postnr_config : NetsiConfig :=
  mkConfig (Some [("adgangsadresse.postnummer.nr", None)]) [].

(** What the [config] setter leaves behind for the selector [sel] of the
    search field: the element found is the search field and has an empty,
    hidden list, nothing is logged; when no element is found the failure is
    logged and the component has neither field nor list; and when the
    selector engine rejects [sel], its error leaves the setter, nothing is
    logged and the component has neither field nor list. *)
Definition initialised (d : Document) (sel : string)
    (r : State * Completion unit) : Prop :=
  match qs d sel with
  | Normal (Some h) =>
      snd r = Normal tt /\
      _inputEl (fst r) = Some h /\
      _suggestionsEl (fst r) = Some (mkList false []) /\
      console (fst r) = []
  | Normal None =>
      snd r = Normal tt /\
      _inputEl (fst r) = None /\ _suggestionsEl (fst r) = None /\
      console (fst r)
        = [mkLog "NetsiAddress: Main input element not found with selector:" None]
  | Throw e =>
      snd r = Throw e /\
      _inputEl (fst r) = None /\ _suggestionsEl (fst r) = None /\
      console (fst r) = []
  end.

(** [_initialize] gave up for want of a selector. *)
Definition uninitialised (s : State) : Prop :=
  _inputEl s = None /\ _suggestionsEl s = None /\
  console s
    = [mkLog "NetsiAddress: `ui.address` selector is mandatory in the config." None].

(** The bundled class on the sample page, fuzzy fallback enabled, with one
    lookup under way. *)
Definition TsB_fuzzy_looking : State :=
  run TsB.step [EvLookup] (started TsB.config fuzzy_config "Gren").

(** * Properties *)

(** ** Path resolution *)

Lemma truthy_not_nullish v : truthy v = true -> nullish v = false.
Proof. destruct v; simpl; congruence. Qed.

Lemma get_absent_beyond s : forall i,
  (String.length s <= i)%nat -> String.get i s = None.
Proof.
  induction s as [|c s IH]; intros i Hi; [reflexivity|].
  destruct i as [|i]; simpl in *; [lia|]. apply IH. lia.
Qed.

(** What a value does not hold itself reads as [undefined] among its own
    properties. *)
Lemma own_prop_not_own v k : has_own v k = false -> own_prop v k = JUndefined.
Proof.
  destruct v as [| | | | s |xs|props|]; simpl; try reflexivity.
  - destruct (String.eqb k "length"); [discriminate|]. simpl.
    destruct (array_index k) as [i|]; [|reflexivity].
    intros Hi. apply Nat.ltb_ge in Hi. unfold string_at.
    now rewrite get_absent_beyond.
  - destruct (String.eqb k "length"); [discriminate|]. simpl.
    destruct (array_index k) as [i|]; [|reflexivity].
    intros Hi. apply Nat.ltb_ge in Hi.
    now rewrite (lookup_ge_None_2 xs i) by lia.
  - intros Hk. apply bool_decide_eq_false in Hk.
    destruct (assoc k props); [exfalso; apply Hk; eauto|reflexivity].
Qed.

(** An own property shadows whatever the value inherits. *)
Lemma get_member_own inherited v k :
  nullish v = false -> has_own v k = true ->
  get_member inherited v k = Normal (own_prop v k).
Proof. intros Hn Ho. unfold get_member. now rewrite Hn, Ho. Qed.

(** A name that the value does not inherit is read among its own
    properties. *)
Lemma get_member_data inherited v k :
  nullish v = false -> inherited v k = None ->
  get_member inherited v k = Normal (own_prop v k).
Proof.
  intros Hn Hk. unfold get_member. rewrite Hn, Hk.
  destruct (has_own v k) eqn:Ho; [reflexivity|].
  now rewrite own_prop_not_own.
Qed.

Lemma getValue_step_normal inherited acc part :
  inherited acc part = None ->
  getValue_step inherited acc part =
    Normal (if truthy acc then own_prop acc part else acc).
Proof.
  intros Hp. unfold getValue_step.
  destruct (truthy acc) eqn:Ht; [|reflexivity].
  now rewrite get_member_data by (try apply truthy_not_nullish; assumption).
Qed.

Lemma reduce_getValue_falsy inherited parts v :
  truthy v = false -> reduce (getValue_step inherited) parts v = Normal v.
Proof.
  induction parts as [|p parts IH]; intros Hv; simpl; [reflexivity|].
  unfold getValue_step at 1. rewrite Hv. simpl. now apply IH.
Qed.

Lemma data_names_cons inherited p parts :
  data_names inherited (p :: parts) ->
  (forall v, inherited v p = None) /\ data_names inherited parts.
Proof.
  intros H. split.
  - intros v. apply H. now left.
  - intros v k Hk. apply H. now right.
Qed.

Lemma reduce_getValue_total inherited parts :
  data_names inherited parts ->
  forall v, exists r, reduce (getValue_step inherited) parts v = Normal r.
Proof.
  induction parts as [|p parts IH]; intros Hd v; simpl; [eauto|].
  apply data_names_cons in Hd as [Hp Hd].
  rewrite getValue_step_normal by apply Hp. simpl. now apply IH.
Qed.

Lemma reduce_getValue_missing inherited parts :
  data_names inherited parts ->
  forall v, has_missing v parts = true ->
  exists r, reduce (getValue_step inherited) parts v = Normal r /\ truthy r = false.
Proof.
  induction parts as [|p parts IH]; intros Hd v Hm; simpl in *; [discriminate|].
  apply data_names_cons in Hd as [Hp Hd].
  rewrite getValue_step_normal by apply Hp. simpl.
  destruct (truthy v) eqn:Ht.
  - rewrite (truthy_not_nullish _ Ht) in Hm. simpl in Hm.
    destruct (is_undefined (own_prop v p)) eqn:Hu.
    + destruct (own_prop v p); try discriminate.
      exists JUndefined. split; [now apply reduce_getValue_falsy|reflexivity].
    + simpl in Hm. now apply IH.
  - exists v. split; [now apply reduce_getValue_falsy|assumption].
Qed.

(** A segment missing from a truthy holder gives [undefined], whatever
    follows it. *)
Lemma reduce_getValue_undefined inherited parts p v :
  inherited v p = None ->
  truthy v = true -> own_prop v p = JUndefined ->
  reduce (getValue_step inherited) (p :: parts) v = Normal JUndefined.
Proof.
  intros Hi Ht Hp. simpl. rewrite getValue_step_normal, Ht, Hp by exact Hi. simpl.
  now apply reduce_getValue_falsy.
Qed.

Lemma rawValue_step_normal inherited obj k :
  inherited obj k = None ->
  rawValue_step inherited obj k =
    Normal (if truthy obj && negb (nullish (own_prop obj k))
            then own_prop obj k else JStr "").
Proof.
  intros Hk. unfold rawValue_step.
  destruct (truthy obj) eqn:Ht; [|reflexivity].
  rewrite get_member_data by (try apply truthy_not_nullish; assumption). simpl.
  now destruct (nullish (own_prop obj k)).
Qed.

Lemma reduce_rawValue_empty inherited parts :
  reduce (rawValue_step inherited) parts (JStr "") = Normal (JStr "").
Proof.
  induction parts as [|p parts IH]; cbn [reduce]; [reflexivity|]. exact IH.
Qed.

Lemma reduce_rawValue_total inherited parts :
  data_names inherited parts ->
  forall v, exists r, reduce (rawValue_step inherited) parts v = Normal r.
Proof.
  induction parts as [|p parts IH]; intros Hd v; cbn [reduce]; [eauto|].
  apply data_names_cons in Hd as [Hp Hd].
  rewrite rawValue_step_normal by apply Hp. cbn [cbind]. now apply IH.
Qed.

Lemma reduce_rawValue_missing inherited parts :
  data_names inherited parts ->
  forall v, has_missing v parts = true ->
  reduce (rawValue_step inherited) parts v = Normal (JStr "").
Proof.
  induction parts as [|p parts IH]; intros Hd v Hm;
    cbn [reduce has_missing] in *; [discriminate|].
  apply data_names_cons in Hd as [Hp Hd].
  rewrite rawValue_step_normal by apply Hp. cbn [cbind].
  destruct (truthy v) eqn:Ht; cbn [andb]; [|apply reduce_rawValue_empty].
  rewrite (truthy_not_nullish _ Ht) in Hm. cbn [orb] in Hm.
  destruct (own_prop v p) eqn:Hp'; cbn [nullish negb is_undefined orb] in *;
    solve [apply reduce_rawValue_empty | now apply IH].
Qed.

(** C1, as stated, fails.  In the record [{a: false}] the segment [b] of
    the path [a.b] is missing, and [_getValue] resolves the path to [false],
    which is neither [undefined], [null] nor an empty string.  And a
    segment can name a member that the value inherits: on the sample page
    the path [adgangsadresse.constructor.name] resolves to ["Object"] in
    [{adgangsadresse: {}}], where [constructor] is missing from the record,
    in the TypeScript and in the JavaScript resolver alike, and
    [adgangsadresse.constructor.caller] throws. *)
Lemma path_resolution_not_absent :
  (has_missing (JObj [("a", JBool false)]) (split "." "a.b") = true /\
   _getValue sample_realm (JObj [("a", JBool false)]) "a.b" = Normal (JBool false)) /\
  (has_missing sample_empty_record (split "." "adgangsadresse.constructor.name") = true /\
   _getValue sample_realm sample_empty_record "adgangsadresse.constructor.name"
   = Normal (JStr "Object") /\
   rawValue sample_realm sample_empty_record "adgangsadresse.constructor.name"
   = Normal (JStr "Object")) /\
  (exists e,
     _getValue sample_realm sample_empty_record "adgangsadresse.constructor.caller"
     = Throw e /\
     rawValue sample_realm sample_empty_record "adgangsadresse.constructor.caller"
     = Throw e) /\
  ~ resolves_to_absent (_getValue sample_realm) /\
  ~ resolves_to_absent (rawValue sample_realm).
Proof.
  split; [split; reflexivity|]. split; [repeat split; reflexivity|].
  split; [eexists; split; reflexivity|]. split.
  - intros H. destruct (H (JObj [("a", JBool false)]) "a.b") as [v [Hv Ha]].
    vm_compute in Hv. injection Hv as <-.
    destruct (Ha eq_refl) as [?|[?|?]]; discriminate.
  - intros H.
    destruct (H sample_empty_record "adgangsadresse.constructor.name")
      as [v [Hv Ha]].
    vm_compute in Hv. injection Hv as <-.
    destruct (Ha eq_refl) as [?|[?|?]]; discriminate.
Qed.

(** C1, amended: when no segment of the path names a member that values
    inherit, dot-path resolution never throws; [_getValue] turns a missing
    segment into a falsy value ([undefined] when the segment is missing
    from a truthy holder, otherwise the falsy value at which the traversal
    stopped) and the JavaScript class turns it into the empty string.
    [adgangsadresse.postnummer.nr] resolves to ["8541"] in the sample
    record, whatever values inherit, and to [undefined], respectively the
    empty string, in [{adgangsadresse: {}}]. *)
Theorem path_resolution_total (inherited : Realm) (obj : JsVal) (path : string) :
  (data_names inherited (split "." path) ->
   (exists v, _getValue inherited obj path = Normal v /\
              (has_missing obj (split "." path) = true -> truthy v = false)) /\
   (forall pre p post holder,
       split "." path = (pre ++ p :: post)%list ->
       reduce (getValue_step inherited) pre obj = Normal holder ->
       truthy holder = true -> own_prop holder p = JUndefined ->
       _getValue inherited obj path = Normal JUndefined) /\
   (exists w, rawValue inherited obj path = Normal w /\
              (has_missing obj (split "." path) = true -> w = JStr ""))) /\
  _getValue inherited sample_record "adgangsadresse.postnummer.nr"
  = Normal (JStr "8541") /\
  rawValue inherited sample_record "adgangsadresse.postnummer.nr"
  = Normal (JStr "8541") /\
  (data_names inherited (split "." "adgangsadresse.postnummer.nr") ->
   _getValue inherited sample_empty_record "adgangsadresse.postnummer.nr"
   = Normal JUndefined /\
   rawValue inherited sample_empty_record "adgangsadresse.postnummer.nr"
   = Normal (JStr "")).
Proof.
  split; [|split; [reflexivity|split; [reflexivity|]]].
  - intros Hd. split; [|split].
    + unfold _getValue.
      destruct (reduce_getValue_total _ _ Hd obj) as [r Hr].
      exists r. split; [exact Hr|]. intros Hm.
      destruct (reduce_getValue_missing _ _ Hd _ Hm) as [r' [Hr' Hf]]. congruence.
    + intros pre p post holder Hsplit Hpre Ht Hp. unfold _getValue.
      rewrite Hsplit in *. clear Hsplit. revert obj Hpre.
      induction pre as [|x pre IH]; intros obj Hpre.
      * simpl in Hpre. injection Hpre as ->.
        apply reduce_getValue_undefined; [apply Hd; now left|assumption..].
      * apply data_names_cons in Hd as [Hx Hd].
        simpl in *. destruct (getValue_step inherited obj x); [|discriminate].
        simpl in *. now apply IH.
    + unfold rawValue.
      destruct (reduce_rawValue_total _ _ Hd obj) as [w Hw].
      exists w. split; [exact Hw|]. intros Hm.
      rewrite (reduce_rawValue_missing _ _ Hd _ Hm) in Hw. congruence.
  - intros Hd. split.
    + unfold _getValue.
      change (split "." "adgangsadresse.postnummer.nr")
        with ["adgangsadresse"; "postnummer"; "nr"] in *.
      apply data_names_cons in Hd as [_ Hd].
      apply data_names_cons in Hd as [Hp _].
      change (reduce (getValue_step inherited) ["postnummer"; "nr"] (JObj [])
              = Normal JUndefined).
      apply reduce_getValue_undefined; [apply Hp|reflexivity..].
    + unfold rawValue. now apply reduce_rawValue_missing.
Qed.

Lemma path_resolution_total_witness :
  (exists v, _getValue sample_realm (JObj [("a", JBool false)]) "a.b" = Normal v /\
             truthy v = false) /\
  _getValue sample_realm sample_empty_record "adgangsadresse.postnummer.nr"
  = Normal JUndefined /\
  rawValue sample_realm sample_empty_record "adgangsadresse.postnummer.nr"
  = Normal (JStr "").
Proof.
  assert (Hnames : forall path,
             (forall k, In k (split "." path) ->
                        String.eqb k "constructor" = false /\
                        String.eqb k "name" = false /\
                        String.eqb k "caller" = false) ->
             data_names sample_realm (split "." path)).
  { intros path H v k Hk. destruct (H k Hk) as [H1 [H2 H3]].
    unfold sample_realm. now rewrite H1, H2, H3. }
  destruct (path_resolution_total sample_realm (JObj [("a", JBool false)]) "a.b")
    as [Hfalse _].
  destruct (path_resolution_total sample_realm sample_empty_record
              "adgangsadresse.postnummer.nr") as [_ [_ [_ Hempty]]].
  split.
  - destruct Hfalse as [[v [Hv Hfalsy]] _].
    + apply Hnames. intros k Hk. vm_compute in Hk.
      decompose [or] Hk; subst; try contradiction; repeat split; reflexivity.
    + exists v. split; [exact Hv|]. exact (Hfalsy eq_refl).
  - apply Hempty, Hnames. intros k Hk. vm_compute in Hk.
    decompose [or] Hk; subst; try contradiction; repeat split; reflexivity.
Defined.

(** ** Selection without a record *)

(** C10: [select] called with [null]/[undefined], or with a suggestion whose
    [adresse] is missing, returns at once and leaves the whole state as it
    was: the list is not closed, no field is written, no event is
    dispatched. *)
Theorem select_without_record (s : State) (item : option Suggestion) :
  (item = None \/ exists x, item = Some x /\ truthy (adresse x) = false) ->
  TsB.select item s = (s, Normal tt) /\ Js.select item s = (s, Normal tt).
Proof.
  intros [->|[x [-> Hx]]]; [split; reflexivity|].
  unfold TsB.select, Js.select. rewrite Hx. split; reflexivity.
Qed.

Lemma select_without_record_witness :
  TsB.select (Some (mkSuggestion (JStr "Vej 1") JUndefined JUndefined))
    (constructed no_config (sample_document ""))
  = (constructed no_config (sample_document ""), Normal tt).
Proof.
  apply (select_without_record (constructed no_config (sample_document ""))
           (Some (mkSuggestion (JStr "Vej 1") JUndefined JUndefined))).
  right. eexists. split; reflexivity.
Defined.

(** ** Configuration merge *)

Lemma assoc_obj_set {A} k k' (v : A) o :
  assoc k (obj_set k' v o) = if String.eqb k k' then Some v else assoc k o.
Proof.
  induction o as [|[k0 v0] o IH]; simpl.
  - destruct (String.eqb k k'); reflexivity.
  - destruct (String.eqb_spec k' k0) as [->|Hne]; simpl.
    + destruct (String.eqb k k0); reflexivity.
    + destruct (enumerated_before k' k0); simpl; [reflexivity|].
      rewrite IH. destruct (String.eqb_spec k k0) as [->|Hne'];
        [|reflexivity].
      destruct (String.eqb_spec k0 k'); [congruence|reflexivity].
Qed.

(** Spreading keeps the order in which JavaScript enumerates the keys: a
    new index goes among the indices, any other new key comes last, and a
    key that is there keeps its place and takes the new value. *)
Example spread_enumeration_order :
  spread [("2", JStr "two"); ("a", JStr "old")]
         [("b", JStr "new"); ("10", JStr "ten"); ("a", JStr "set"); ("1", JStr "one")]
  = [("1", JStr "one"); ("2", JStr "two"); ("10", JStr "ten");
     ("a", JStr "set"); ("b", JStr "new")].
Proof. reflexivity. Qed.

Lemma assoc_spread_none {A} k (source : list (string * A)) : forall target,
  assoc k source = None -> assoc k (spread target source) = assoc k target.
Proof.
  unfold spread.
  induction source as [|[k0 v0] source IH]; intros target Hk; simpl in *;
    [reflexivity|].
  destruct (String.eqb_spec k k0) as [->|Hne]; [discriminate|].
  rewrite IH by assumption. rewrite assoc_obj_set.
  destruct (String.eqb_spec k k0); [congruence|reflexivity].
Qed.

Lemma assoc_not_in {A} k (o : list (string * A)) :
  ~ In k (List.map fst o) -> assoc k o = None.
Proof.
  induction o as [|[k0 v0] o IH]; simpl; intros Hn; [reflexivity|].
  destruct (String.eqb_spec k k0) as [->|Hne]; [tauto|].
  apply IH. tauto.
Qed.

Lemma assoc_spread_some {A} k (v : A) source : forall target,
  unique_keys source -> assoc k source = Some v ->
  assoc k (spread target source) = Some v.
Proof.
  induction source as [|[k0 v0] source IH]; intros target Hu Hk; simpl in *;
    [discriminate|].
  apply NoDup_cons in Hu as [Hnotin Hu].
  change (assoc k (spread (obj_set k0 v0 target) source) = Some v).
  destruct (String.eqb_spec k k0) as [->|Hne].
  - injection Hk as ->.
    rewrite assoc_spread_none.
    + rewrite assoc_obj_set, String.eqb_refl. reflexivity.
    + apply assoc_not_in. intros Hin. apply Hnotin.
      apply list_elem_of_In. exact Hin.
  - now apply IH.
Qed.

(** ** Running a method *)

Lemma run_gets_bind {A B} (f : State -> A) (k : A -> M B) s :
  (gets f ≫= k) s = k (f s) s.
Proof. reflexivity. Qed.

Lemma run_modify_bind {B} f (k : unit -> M B) s :
  (modify f ≫= k) s = k tt (f s).
Proof. reflexivity. Qed.

Lemma run_ret_bind {A B} (a : A) (k : A -> M B) s : (mret a ≫= k) s = k a s.
Proof. reflexivity. Qed.

Lemma run_lift_bind {A B} (c : Completion A) (k : A -> M B) s :
  (lift c ≫= k) s =
    match c with
    | Normal a => k a s
    | Throw e => (s, Throw e)
    end.
Proof. destruct c; reflexivity. Qed.

Lemma run_in_realm_bind {A B} (f : Realm -> Completion A) (k : A -> M B) s :
  (in_realm f ≫= k) s =
    match f (realm (document s)) with
    | Normal a => k a s
    | Throw e => (s, Throw e)
    end.
Proof.
  unfold in_realm, mbind, M_bind. destruct (f (realm (document s))); reflexivity.
Qed.

Lemma run_querySelector_bind {B} sel (k : option nat -> M B) s :
  (querySelector sel ≫= k) s =
    match qs (document s) sel with
    | Normal found => k found s
    | Throw e => (s, Throw e)
    end.
Proof.
  unfold querySelector, mbind, M_bind. destruct (qs (document s) sel); reflexivity.
Qed.

Lemma run_bind {A B} (m : M A) (k : A -> M B) s :
  (m ≫= k) s =
    match m s with
    | (s', Normal a) => k a s'
    | (s', Throw e) => (s', Throw e)
    end.
Proof. reflexivity. Qed.

(** ** Framing *)

Section Framing.
Context {B : Type} (part : State -> B).

Lemma preserves_ret {A} (a : A) : preserves part (mret a).
Proof. intros s. reflexivity. Qed.

Lemma preserves_throw {A} e : preserves part (throw (A:=A) e).
Proof. intros s. reflexivity. Qed.

Lemma preserves_lift {A} (c : Completion A) : preserves part (lift c).
Proof. intros s. reflexivity. Qed.

Lemma preserves_gets {A} (f : State -> A) : preserves part (gets f).
Proof. intros s. reflexivity. Qed.

Lemma preserves_querySelector sel : preserves part (querySelector sel).
Proof. intros s. reflexivity. Qed.

Lemma preserves_in_realm {A} (f : Realm -> Completion A) :
  preserves part (in_realm f).
Proof. intros s. reflexivity. Qed.

Lemma preserves_modify f :
  (forall s, part (f s) = part s) -> preserves part (modify f).
Proof. intros H s. apply H. Qed.

Lemma preserves_bind {A C} (m : M A) (k : A -> M C) :
  preserves part m -> (forall a, preserves part (k a)) ->
  preserves part (m ≫= k).
Proof.
  intros Hm Hk s. unfold mbind, M_bind.
  specialize (Hm s). destruct (m s) as [s' [a|e]]; simpl in *.
  - rewrite Hk. exact Hm.
  - exact Hm.
Qed.

Lemma preserves_try_catch {A} (m : M A) handler :
  preserves part m -> (forall e, preserves part (handler e)) ->
  preserves part (try_catch m handler).
Proof.
  intros Hm Hh s. unfold try_catch.
  specialize (Hm s). destruct (m s) as [s' [a|e]]; simpl in *.
  - exact Hm.
  - rewrite Hh. exact Hm.
Qed.

Lemma preserves_for_each {A} (body : A -> M unit) l :
  (forall x, preserves part (body x)) -> preserves part (for_each body l).
Proof.
  intros Hb. induction l as [|x l IH]; simpl.
  - apply preserves_ret.
  - apply preserves_bind; [apply Hb|intros _; exact IH].
Qed.

Lemma preserves_detached {A} (m : M A) :
  preserves part m -> preserves part (detached m).
Proof. intros Hm s. apply Hm. Qed.
End Framing.

Section Keeping.
Context (P : State -> Prop).

Lemma preserves_keeps {A B} (part : State -> B) (m : M A) :
  (forall s s', part s' = part s -> P s -> P s') ->
  preserves part m -> keeps P m.
Proof. intros HP Hm s Hs. eapply HP; [apply Hm|exact Hs]. Qed.

Lemma keeps_ret {A} (a : A) : keeps P (mret a).
Proof. intros s Hs. exact Hs. Qed.

Lemma keeps_throw {A} e : keeps P (throw (A:=A) e).
Proof. intros s Hs. exact Hs. Qed.

Lemma keeps_lift {A} (c : Completion A) : keeps P (lift c).
Proof. intros s Hs. exact Hs. Qed.

Lemma keeps_gets {A} (f : State -> A) : keeps P (gets f).
Proof. intros s Hs. exact Hs. Qed.

Lemma keeps_querySelector sel : keeps P (querySelector sel).
Proof. intros s Hs. exact Hs. Qed.

Lemma keeps_in_realm {A} (f : Realm -> Completion A) : keeps P (in_realm f).
Proof. intros s Hs. exact Hs. Qed.

Lemma keeps_bind {A C} (m : M A) (k : A -> M C) :
  keeps P m -> (forall a, keeps P (k a)) -> keeps P (m ≫= k).
Proof.
  intros Hm Hk s Hs. unfold mbind, M_bind.
  specialize (Hm s Hs). destruct (m s) as [s' [a|e]]; simpl in *.
  - now apply Hk.
  - exact Hm.
Qed.

Lemma keeps_try_catch {A} (m : M A) handler :
  keeps P m -> (forall e, keeps P (handler e)) -> keeps P (try_catch m handler).
Proof.
  intros Hm Hh s Hs. unfold try_catch.
  specialize (Hm s Hs). destruct (m s) as [s' [a|e]]; simpl in *.
  - exact Hm.
  - now apply Hh.
Qed.

Lemma keeps_for_each {A} (body : A -> M unit) l :
  (forall x, keeps P (body x)) -> keeps P (for_each body l).
Proof.
  intros Hb. induction l as [|x l IH]; simpl.
  - intros s Hs. exact Hs.
  - apply keeps_bind; [apply Hb|intros _; exact IH].
Qed.

Lemma keeps_detached {A} (m : M A) : keeps P m -> keeps P (detached m).
Proof. intros Hm s. apply Hm. Qed.
End Keeping.

(** Splits a method into its statements; what remains are the state
    updates themselves. *)
Ltac frame_step :=
  lazymatch goal with
  | |- preserves _ (mret _) => apply preserves_ret
  | |- preserves _ (throw _) => apply preserves_throw
  | |- preserves _ (lift _) => apply preserves_lift
  | |- preserves _ (gets _) => apply preserves_gets
  | |- preserves _ (querySelector _) => apply preserves_querySelector
  | |- preserves _ (in_realm _) => apply preserves_in_realm
  | |- preserves _ (mbind _ _) => apply preserves_bind; [|intros ?]
  | |- preserves _ (try_catch _ _) => apply preserves_try_catch; [|intros ?]
  | |- preserves _ (for_each _ _) => apply preserves_for_each; intros ?
  | |- preserves _ (detached _) => apply preserves_detached
  | |- preserves _ ?m =>
      match m with
      | context [match ?x with _ => _ end] => destruct x
      end
  end.

Ltac keep_step :=
  lazymatch goal with
  | |- keeps _ (mret _) => apply keeps_ret
  | |- keeps _ (throw _) => apply keeps_throw
  | |- keeps _ (lift _) => apply keeps_lift
  | |- keeps _ (gets _) => apply keeps_gets
  | |- keeps _ (querySelector _) => apply keeps_querySelector
  | |- keeps _ (in_realm _) => apply keeps_in_realm
  | |- keeps _ (mbind _ _) => apply keeps_bind; [|intros ?]
  | |- keeps _ (try_catch _ _) => apply keeps_try_catch; [|intros ?]
  | |- keeps _ (for_each _ _) => apply keeps_for_each; intros ?
  | |- keeps _ (detached _) => apply keeps_detached
  | |- keeps _ ?m =>
      match m with
      | context [match ?x with _ => _ end] => destruct x
      end
  end.

(** The state updates themselves: unfold and compare field by field. *)
Ltac frame_leaf :=
  intros ?s;
  unfold edit, update_element, console_error, dispatchEvent, abort_current,
    new_controller, fetch, fetch_detail, querySelector, read_element,
    TsA._hideSuggestions, TsA._showSuggestions, TsA.set_items,
    TsA._updateHighlight, TsA._createSuggestionsUI,
    TsB._hideSuggestions, TsB._showSuggestions, TsB._updateHighlight,
    Js._hideSuggestions, Js._showSuggestions, Js._updateHighlight,
    Js._createSuggestionsUI, Js.null_list,
    modify, gets, throw, mbind, M_bind;
  simpl;
  repeat match goal with
         | |- context [match ?x with _ => _ end] => destruct x eqn:?; simpl
         end;
  repeat match goal with
         | H : _ = _ |- _ => rewrite H
         end;
  reflexivity.

Ltac frame :=
  repeat first [ solve [eauto 2] | frame_step ];
  try solve [frame_leaf].

(** ** The configuration the setter stores *)

(** The [config] setter stores the merged configuration, whatever
    [_initialize] goes on to do with it - also when it throws. *)
Lemma TsA_config_stores newConfig s :
  _config (fst (TsA.config newConfig s)) = TsA.merged newConfig.
Proof.
  unfold TsA.config. rewrite run_modify_bind.
  assert (H : preserves _config TsA._initialize)
    by (unfold TsA._initialize; frame).
  now rewrite H.
Qed.

Lemma TsB_config_stores newConfig s :
  _config (fst (TsB.config newConfig s)) = TsB.merged newConfig.
Proof.
  unfold TsB.config. rewrite run_modify_bind.
  assert (H : preserves _config TsB._initialize)
    by (unfold TsB._initialize, TsA._initialize; frame).
  now rewrite H.
Qed.

Lemma Js_config_stores newConfig s :
  _config (fst (Js.config newConfig s)) = Js.merged newConfig.
Proof.
  unfold Js.config. rewrite run_modify_bind.
  assert (H : preserves _config Js._initialize)
    by (unfold Js._initialize; frame).
  now rewrite H.
Qed.

(** C9: whatever state the component is in, the configuration that the
    [config] setter leaves in [_config] holds, for every field-path the
    caller did not give, the built-in id-selector; it holds the caller's
    own mappings and every extra key with the caller's value; and its
    fuzzy flag is false when the caller gave none, so that the flag is on
    exactly when the caller enabled it. *)
Theorem config_merge (newConfig : NetsiConfig) (s : State) :
  unique_keys (default [] (cfg_ui newConfig)) ->
  unique_keys (cfg_props newConfig) ->
  let effective := _config (fst (TsA.config newConfig s)) in
  exists ui,
    cfg_ui effective = Some ui /\
    (forall path mapping,
        assoc path (default [] (cfg_ui TsA._defaults)) = Some mapping ->
        assoc path (default [] (cfg_ui newConfig)) = None ->
        assoc path ui = Some mapping) /\
    (forall path mapping,
        assoc path (default [] (cfg_ui newConfig)) = Some mapping ->
        assoc path ui = Some mapping) /\
    (forall key value,
        assoc key (cfg_props newConfig) = Some value ->
        assoc key (cfg_props effective) = Some value) /\
    (assoc "useFuzzyFallback" (cfg_props newConfig) = None ->
     useFuzzyFallback effective = JBool false) /\
    (truthy (useFuzzyFallback effective) = true <->
     exists value,
       assoc "useFuzzyFallback" (cfg_props newConfig) = Some value /\
       truthy value = true).
Proof.
  intros Hui Hprops effective. unfold effective. rewrite TsA_config_stores.
  eexists. split; [reflexivity|].
  repeat split.
  - intros path mapping Hd Hn. simpl. now rewrite assoc_spread_none.
  - intros path mapping Hm. simpl. now apply assoc_spread_some.
  - intros key value Hk. simpl. now apply assoc_spread_some.
  - intros Hn. unfold useFuzzyFallback. simpl.
    now rewrite assoc_spread_none.
  - unfold useFuzzyFallback. simpl.
    destruct (assoc "useFuzzyFallback" (cfg_props newConfig)) as [value|] eqn:Hf.
    + rewrite (assoc_spread_some _ _ _ _ Hprops Hf). simpl. eauto.
    + rewrite assoc_spread_none by assumption. simpl. discriminate.
  - intros [value [Hf Ht]]. unfold useFuzzyFallback. simpl.
    now rewrite (assoc_spread_some _ _ _ _ Hprops Hf).
Qed.

(** Every built-in selector is an id-selector. *)
Lemma default_ui_id_selectors :
  Forall (fun entry => exists id, snd entry = Some (MapSelector ("#" +:+ id)))
         (default [] (cfg_ui TsA._defaults)).
Proof. repeat constructor; eexists; reflexivity. Qed.

(** The demo page: two fields remapped, one request parameter, fuzzy
    fallback enabled. *)
Lemma config_merge_witness :
  exists ui,
    cfg_ui (_config
              (fst (TsA.config
                      (mkConfig
                         (Some [("adgangsadresse.postnummer.nr",
                                 Some (MapSelector "#zip"))])
                         [("useFuzzyFallback", JBool true); ("per_side", JNum "7")])
                      (constructed no_config (sample_document "")))))
    = Some ui /\
    assoc "adgangsadresse.husnr" ui = Some (Some (MapSelector "#husnr")) /\
    assoc "adgangsadresse.postnummer.nr" ui = Some (Some (MapSelector "#zip")).
Proof.
  destruct (config_merge
              (mkConfig (Some [("adgangsadresse.postnummer.nr", Some (MapSelector "#zip"))])
                        [("useFuzzyFallback", JBool true); ("per_side", JNum "7")])
              (constructed no_config (sample_document "")))
    as [ui [Hui [Hdef [Hown _]]]].
  - apply NoDup_singleton.
  - apply NoDup_cons_2; [|apply NoDup_singleton].
    rewrite list_elem_of_singleton. discriminate.
  - exists ui. split; [exact Hui|]. split.
    + apply Hdef; reflexivity.
    + apply Hown; reflexivity.
Defined.

(** The JavaScript class has no default for the flag: it stays absent, hence
    off, unless the caller gives it. *)
Lemma Js_merged_flag (newConfig : NetsiConfig) :
  cfg_props (Js.merged newConfig) = cfg_props newConfig /\
  (assoc "useFuzzyFallback" (cfg_props newConfig) = None ->
   truthy (useFuzzyFallback (Js.merged newConfig)) = false).
Proof.
  split; [reflexivity|]. intros Hn. unfold useFuzzyFallback. simpl.
  now rewrite Hn.
Qed.

(** ** The highlight cursor *)

Create HintDb cursor_frame discriminated.

Lemma cursor_update_element h f : preserves cursor (update_element h f).
Proof. intros s. reflexivity. Qed.

Lemma cursor_console_error msg e : preserves cursor (console_error msg e).
Proof. intros s. reflexivity. Qed.

Lemma cursor_dispatchEvent ev : preserves cursor (dispatchEvent ev).
Proof. intros s. reflexivity. Qed.

Lemma cursor_abort_current : preserves cursor abort_current.
Proof.
  intros s. unfold abort_current, modify. simpl.
  destruct (_abortController s); reflexivity.
Qed.

Lemma cursor_new_controller : preserves cursor new_controller.
Proof. intros s. reflexivity. Qed.

Lemma cursor_fetch c ps st : preserves cursor (fetch c ps st).
Proof. intros s. reflexivity. Qed.

Lemma cursor_fetch_detail href item : preserves cursor (fetch_detail href item).
Proof. intros s. reflexivity. Qed.

Lemma cursor_hide : preserves cursor TsA._hideSuggestions.
Proof.
  intros s. unfold TsA._hideSuggestions, modify, cursor, rendered. simpl.
  destruct (_suggestionsEl s) eqn:E; simpl; rewrite ?E; reflexivity.
Qed.

Lemma cursor_Js_hide : preserves cursor Js._hideSuggestions.
Proof.
  intros s. unfold Js._hideSuggestions, cursor, rendered, mbind, M_bind, gets.
  destruct (_suggestionsEl s) eqn:E; simpl; rewrite ?E; reflexivity.
Qed.

#[global] Hint Resolve cursor_update_element cursor_console_error
  cursor_dispatchEvent cursor_abort_current cursor_new_controller cursor_fetch
  cursor_fetch_detail cursor_hide cursor_Js_hide : cursor_frame.

Ltac cursor_frame :=
  repeat first [ solve [auto with cursor_frame] | frame_step ].

Lemma cursor_edit h text : preserves cursor (edit h text).
Proof. unfold edit. cursor_frame. Qed.

Lemma cursor_TsA_populate data : preserves cursor (TsA._populate data).
Proof. unfold TsA._populate. cursor_frame. Qed.

Lemma cursor_TsA_select item : preserves cursor (TsA.select item).
Proof.
  pose proof cursor_TsA_populate. unfold TsA.select. cursor_frame.
Qed.

Lemma cursor_TsA_build b : preserves cursor (TsA._buildQueryParameters b).
Proof. unfold TsA._buildQueryParameters. cursor_frame. Qed.

Lemma cursor_TsA_fetchData ps st : preserves cursor (TsA._fetchData ps st).
Proof. unfold TsA._fetchData. cursor_frame. Qed.

Lemma cursor_TsA_lookup : preserves cursor TsA.lookup.
Proof.
  pose proof cursor_TsA_build. pose proof cursor_TsA_fetchData.
  unfold TsA.lookup, TsA.lookup_catch. cursor_frame.
Qed.

Lemma append_items xs : forall s l,
  _suggestionsEl s = Some l ->
  for_each (fun item => TsA.set_items (fun l => l ++ [item])%list) xs s =
    (set_suggestionsEl (Some (mkList (visible l) (items l ++ xs))) s, Normal tt).
Proof.
  induction xs as [|x xs IH]; intros s l Hl.
  - destruct s, l; simpl in *. subst. rewrite app_nil_r. reflexivity.
  - cbn [for_each]. unfold mbind, M_bind, TsA.set_items at 1, modify.
    rewrite Hl.
    rewrite (IH _ (mkList (visible l) (items l ++ [x]))).
    + destruct s; simpl. rewrite <- app_assoc. reflexivity.
    + destruct s; reflexivity.
Qed.

(** What a re-render does: nothing without a list element; otherwise the
    list holds exactly the new suggestions, shown unless there are none, and
    the cursor is back at [-1]. *)
Lemma TsA_render_spec suggestions s :
  TsA._renderSuggestions suggestions s =
    match _suggestionsEl s with
    | Some _ =>
        (set_highlightedIndex (-1)
           (set_suggestionsEl
              (Some (mkList (negb (length suggestions =? 0)%nat) suggestions)) s),
         Normal tt)
    | None => (s, Normal tt)
    end.
Proof.
  unfold TsA._renderSuggestions, mbind, M_bind, gets.
  destruct (_suggestionsEl s) as [l|] eqn:Hl; [|reflexivity].
  unfold TsA.set_items at 1, modify. rewrite Hl.
  destruct (length suggestions =? 0)%nat eqn:Hn.
  - apply Nat.eqb_eq in Hn. destruct suggestions; [|discriminate].
    destruct s; reflexivity.
  - rewrite (append_items suggestions _ (mkList (visible l) []))
      by (destruct s; reflexivity).
    destruct s; reflexivity.
Qed.

Lemma in_range_cursor s s' : cursor s' = cursor s -> in_range s -> in_range s'.
Proof.
  unfold in_range, count, cursor. intros H. injection H as -> ->. tauto.
Qed.

Lemma keeps_in_range_frame {A} (m : M A) : preserves cursor m -> keeps in_range m.
Proof. apply preserves_keeps. apply in_range_cursor. Qed.

Lemma TsA_render_in_range suggestions : keeps in_range (TsA._renderSuggestions suggestions).
Proof.
  intros s Hs. rewrite TsA_render_spec.
  destruct (_suggestionsEl s); [|exact Hs].
  unfold in_range, count, rendered. simpl. lia.
Qed.

Lemma rem_up_in_range h n :
  0 < n -> -1 <= h <= n - 1 -> 0 <= Z.rem (h - 1 + n) n <= n - 1.
Proof.
  intros Hn Hh. destruct (Z.eq_dec n 1) as [->|Hn1].
  - rewrite Z.rem_1_r. lia.
  - rewrite Z.rem_mod_nonneg by lia.
    pose proof (Z.mod_pos_bound (h - 1 + n) n Hn). lia.
Qed.

Lemma rem_down_in_range h n :
  0 < n -> -1 <= h <= n - 1 -> 0 <= Z.rem (h + 1) n <= n - 1.
Proof.
  intros Hn Hh. rewrite Z.rem_mod_nonneg by lia.
  pose proof (Z.mod_pos_bound (h + 1) n Hn). lia.
Qed.

(** The cursor after a key press. *)
Lemma TsA_keydown_cursor key s :
  cursor (fst (TsA._handleKeydown key s)) =
    if list_visible s && negb (length (rendered s) =? 0)%nat then
      if String.eqb key "ArrowDown"
      then (Z.rem (_highlightedIndex s + 1) (count s), rendered s)
      else if String.eqb key "ArrowUp"
      then (Z.rem (_highlightedIndex s - 1 + count s) (count s), rendered s)
      else cursor s
    else cursor s.
Proof.
  unfold TsA._handleKeydown. rewrite run_gets_bind.
  destruct (list_visible s); [|reflexivity]. cbn [negb andb].
  rewrite run_gets_bind.
  destruct (length (rendered s) =? 0)%nat; [reflexivity|]. cbn [negb].
  destruct (String.eqb key "ArrowDown"); [reflexivity|].
  destruct (String.eqb key "ArrowUp"); [reflexivity|].
  destruct (String.eqb key "Enter").
  - rewrite run_gets_bind.
    destruct (-1 <? _highlightedIndex s); [|reflexivity].
    rewrite run_gets_bind. apply (cursor_TsA_select _ s).
  - destruct (String.eqb key "Escape"); [|reflexivity].
    apply cursor_hide.
Qed.

Lemma TsA_keydown_in_range key : keeps in_range (TsA._handleKeydown key).
Proof.
  intros s Hs. pose proof (TsA_keydown_cursor key s) as Hc.
  destruct (list_visible s && negb (length (rendered s) =? 0)%nat) eqn:Hopen;
    [|exact (in_range_cursor _ _ Hc Hs)].
  apply andb_true_iff in Hopen as [_ Hn].
  apply negb_true_iff, Nat.eqb_neq in Hn.
  assert (0 < count s) by (unfold count; lia).
  unfold in_range in *. unfold cursor in Hc.
  destruct (String.eqb key "ArrowDown");
    [|destruct (String.eqb key "ArrowUp")];
    injection Hc as Hh Hr; unfold count in *; rewrite Hh, Hr.
  - pose proof (rem_down_in_range _ _ H Hs). lia.
  - pose proof (rem_up_in_range _ _ H Hs). lia.
  - exact Hs.
Qed.

Lemma settle_keeps (P : State -> Prop) resume rid o :
  (forall s l, P s -> P (set_pending l s)) ->
  (forall rq o', keeps P (resume rq o')) ->
  keeps P (settle resume rid o).
Proof.
  intros Hp Hr s Hs. unfold settle.
  destruct (find_request rid (pending s)); [|exact Hs].
  apply Hr, Hp, Hs.
Qed.

Lemma settle_detail_keeps (P : State -> Prop) resume rid o :
  (forall s l, P s -> P (set_pending_detail l s)) ->
  (forall rq o', keeps P (resume rq o')) ->
  keeps P (settle_detail resume rid o).
Proof.
  intros Hp Hr s Hs. unfold settle_detail.
  destruct (find_detail rid (pending_detail s)); [|exact Hs].
  apply Hr, Hp, Hs.
Qed.

Ltac in_range_keep :=
  repeat first
    [ apply TsA_render_in_range
    | solve [apply keeps_in_range_frame; cursor_frame]
    | keep_step ].

Lemma TsA_lookup_resume_in_range rq o : keeps in_range (TsA.lookup_resume rq o).
Proof.
  pose proof cursor_TsA_build. pose proof cursor_TsA_fetchData.
  unfold TsA.lookup_resume, TsA.lookup_catch. in_range_keep.
Qed.

Lemma TsA_step_in_range ev s : in_range s -> in_range (TsA.step ev s).
Proof.
  intros Hs. destruct ev as [h text| |rid o|key|i| |item|rid o]; cbn [TsA.step].
  - exact (keeps_in_range_frame _ (cursor_edit h text) s Hs).
  - exact (keeps_in_range_frame _ cursor_TsA_lookup s Hs).
  - exact (settle_keeps in_range _ rid o (fun s0 l H0 => H0)
             TsA_lookup_resume_in_range s Hs).
  - exact (TsA_keydown_in_range key s Hs).
  - unfold TsA.step. destruct (rendered s !! i); [|exact Hs].
    exact (keeps_in_range_frame _ (cursor_TsA_select _) s Hs).
  - refine (keeps_in_range_frame TsA._handleClickOutside _ s Hs).
    unfold TsA._handleClickOutside. cursor_frame.
  - exact (keeps_in_range_frame _ (cursor_TsA_select _) s Hs).
  - exact Hs.
Qed.

Lemma TsA_config_in_range newConfig cfg d :
  in_range (fst (TsA.config newConfig (constructed cfg d))).
Proof.
  assert (Hk : keeps (fun s => cursor s = (-1, [])) (TsA.config newConfig)).
  { unfold TsA.config, TsA._initialize, TsA._createSuggestionsUI.
    repeat first
      [ solve [apply (preserves_keeps _ cursor);
               [intros ? ? -> ?; assumption|cursor_frame]]
      | keep_step ].
    all: intros s Hs; unfold cursor, rendered in *; simpl in *; congruence. }
  specialize (Hk (constructed cfg d) eq_refl).
  unfold in_range, count. unfold cursor in Hk. injection Hk as -> ->.
  simpl. lia.
Qed.

(** The cursor stays in range in every state the documented class reaches. *)
Lemma TsA_reachable_in_range s :
  reachable TsA.config TsA.step s -> in_range s.
Proof.
  induction 1 as [cfg d newConfig|s ev _ IH].
  - apply TsA_config_in_range.
  - now apply TsA_step_in_range.
Qed.

Lemma reachable_run config step evs : forall s,
  reachable config step s -> reachable config step (run step evs s).
Proof.
  induction evs as [|ev evs IH]; intros s Hs; simpl; [exact Hs|].
  apply IH. now constructor.
Qed.

(** X29: in every state that the documented class reaches from one
    assignment of its configuration the cursor lies in [-1, count-1]; every
    re-render puts it back to -1; while the list is open and non-empty the
    arrow keys leave the suggestions alone and move the cursor inside
    [0, count-1], one step forward or backward with wrap-around at both ends
    (with three suggestions: down from 2 gives 0, up from 0 gives 2). *)
Theorem highlight_cursor (s : State) :
  reachable TsA.config TsA.step s ->
  in_range s /\
  (forall suggestions,
      _highlightedIndex (fst (TsA._renderSuggestions suggestions s)) = -1) /\
  (list_visible s = true -> rendered s <> [] ->
   let down := TsA.step (EvKeydown "ArrowDown") s in
   let up := TsA.step (EvKeydown "ArrowUp") s in
   rendered down = rendered s /\ rendered up = rendered s /\
   0 <= _highlightedIndex down <= count s - 1 /\
   0 <= _highlightedIndex up <= count s - 1 /\
   (0 <= _highlightedIndex s ->
    _highlightedIndex down =
      (if _highlightedIndex s =? count s - 1 then 0 else _highlightedIndex s + 1) /\
    _highlightedIndex up =
      (if _highlightedIndex s =? 0 then count s - 1 else _highlightedIndex s - 1)) /\
   (count s = 3 -> _highlightedIndex s = 2 -> _highlightedIndex down = 0) /\
   (count s = 3 -> _highlightedIndex s = 0 -> _highlightedIndex up = 2)).
Proof.
  intros Hreach. pose proof (TsA_reachable_in_range s Hreach) as Hr.
  split; [exact Hr|]. split.
  - intros suggestions. rewrite TsA_render_spec.
    destruct (_suggestionsEl s) eqn:Hl; [reflexivity|].
    unfold in_range, count, rendered in Hr. rewrite Hl in Hr. simpl in *. lia.
  - intros Hv Hne down up.
    assert (Hn : (length (rendered s) =? 0)%nat = false).
    { apply Nat.eqb_neq. destruct (rendered s); [congruence|discriminate]. }
    assert (Hpos : 0 < count s).
    { apply Nat.eqb_neq in Hn. unfold count. lia. }
    pose proof (TsA_keydown_cursor "ArrowDown" s) as Hd.
    pose proof (TsA_keydown_cursor "ArrowUp" s) as Hu.
    rewrite Hv, Hn in Hd, Hu. simpl in Hd, Hu. unfold cursor in Hd, Hu.
    injection Hd as Hd Hdr. injection Hu as Hu Hur.
    fold (TsA.step (EvKeydown "ArrowDown") s) in Hd, Hdr.
    fold (TsA.step (EvKeydown "ArrowUp") s) in Hu, Hur.
    fold down in Hd, Hdr. fold up in Hu, Hur.
    unfold in_range in Hr.
    pose proof (rem_down_in_range _ _ Hpos Hr) as Bd.
    pose proof (rem_up_in_range _ _ Hpos Hr) as Bu.
    assert (Hgen : 0 <= _highlightedIndex s ->
      _highlightedIndex down =
        (if _highlightedIndex s =? count s - 1 then 0 else _highlightedIndex s + 1) /\
      _highlightedIndex up =
        (if _highlightedIndex s =? 0 then count s - 1 else _highlightedIndex s - 1)).
    { intros H0. rewrite Hd, Hu. split.
      - destruct (Z.eqb_spec (_highlightedIndex s) (count s - 1)) as [E|E].
        + rewrite E. replace (count s - 1 + 1) with (count s) by lia.
          apply Z.rem_same. lia.
        + apply Z.rem_small. lia.
      - destruct (Z.eqb_spec (_highlightedIndex s) 0) as [E|E].
        + rewrite E. replace (0 - 1 + count s) with (count s - 1) by lia.
          apply Z.rem_small. lia.
        + replace (_highlightedIndex s - 1 + count s)
            with (_highlightedIndex s - 1 + 1 * count s) by lia.
          rewrite Z.rem_add by nia. apply Z.rem_small. lia. }
    refine (conj Hdr (conj Hur (conj _ (conj _ (conj Hgen (conj _ _)))))).
    + rewrite Hd. exact Bd.
    + rewrite Hu. exact Bu.
    + intros H3 H2. destruct Hgen as [Hg _]; [lia|].
      rewrite Hg, H2, H3. reflexivity.
    + intros H3 H0. destruct Hgen as [_ Hg]; [lia|].
      rewrite Hg, H0, H3. reflexivity.
Qed.

Lemma highlight_cursor_witness :
  _highlightedIndex TsA_three_down = 2 /\
  _highlightedIndex (TsA.step (EvKeydown "ArrowDown") TsA_three_down) = 0.
Proof.
  split; [vm_compute; reflexivity|].
  assert (Hreach : reachable TsA.config TsA.step TsA_three_down).
  { apply reachable_run. constructor. }
  destruct (highlight_cursor TsA_three_down Hreach) as [_ [_ Harrows]].
  destruct Harrows as [_ [_ [_ [_ [_ [Hdown _]]]]]].
  - vm_compute. reflexivity.
  - vm_compute. discriminate.
  - apply Hdown; vm_compute; reflexivity.
Defined.


(** ** Population of the mapped fields *)

Lemma for_each_normal {A} (body : A -> M unit) l :
  (forall x s, snd (body x s) = Normal tt) ->
  forall s, snd (for_each body l s) = Normal tt.
Proof.
  intros Hb. induction l as [|x l IH]; intros s; [reflexivity|].
  cbn [for_each]. rewrite run_bind.
  specialize (Hb x s). destruct (body x s) as [s' [[]|e]]; simpl in Hb.
  - apply IH.
  - discriminate.
Qed.

Lemma for_each_completes {A} (I : State -> Prop) (body : A -> M unit) l :
  (forall x, keeps I (body x)) ->
  (forall x s, In x l -> I s -> snd (body x s) = Normal tt) ->
  forall s, I s -> snd (for_each body l s) = Normal tt.
Proof.
  intros Hk Hb. induction l as [|x l IH]; intros s Hs; [reflexivity|].
  cbn [for_each]. rewrite run_bind.
  pose proof (Hk x s Hs) as Hs'.
  pose proof (Hb x s (or_introl eq_refl) Hs) as Hx.
  destruct (body x s) as [s' [[]|e]]; simpl in *; [|discriminate].
  apply IH; [intros y st Hy; apply Hb; now right|exact Hs'].
Qed.

Lemma keeps_same_platform {A} q inherited (m : M A) :
  preserves (fun st => qs (document st)) m ->
  preserves (fun st => realm (document st)) m ->
  keeps (same_platform q inherited) m.
Proof.
  intros Hq Hi s [H1 H2]. split.
  - rewrite <- H1. apply Hq.
  - rewrite <- H2. apply Hi.
Qed.

(** [_populate] of the JavaScript class completes - a failing mapper is
    caught inside the loop - whenever the selector engine accepts the
    selectors of the mappings and their paths resolve without an inherited
    accessor throwing. *)
Lemma Js_populate_completes data s :
  (forall path m,
      In (path, Some m) (default [] (cfg_ui (_config s))) ->
      exists found, qs (document s) (selector_of m) = Normal found) ->
  (forall path m,
      In (path, Some m) (default [] (cfg_ui (_config s))) ->
      exists raw, rawValue (realm (document s)) data path = Normal raw) ->
  snd (Js._populate data s) = Normal tt.
Proof.
  intros Hsel Hraw. unfold Js._populate. rewrite run_gets_bind.
  apply (for_each_completes
           (same_platform (qs (document s)) (realm (document s))));
    [| |split; reflexivity].
  - intros [jsonPath uiMapping]. apply keeps_same_platform; frame.
  - intros [jsonPath uiMapping] st Hin [Hq Hi]. cbn [fst snd].
    destruct (String.eqb jsonPath "address"); [reflexivity|].
    destruct uiMapping as [m|]; [|reflexivity].
    destruct (Hsel _ _ Hin) as [found Hfound].
    destruct (Hraw _ _ Hin) as [raw Hr].
    destruct m as [sel|sel mapper]; cbn [selector_of] in Hfound.
    + rewrite run_querySelector_bind, Hq, Hfound.
      destruct found as [h|]; [|reflexivity].
      rewrite run_in_realm_bind, Hi, Hr.
      unfold read_element. rewrite run_gets_bind.
      destruct (has_value _); reflexivity.
    + destruct (String.eqb sel ""); [reflexivity|].
      rewrite run_querySelector_bind, Hq, Hfound.
      destruct found as [h|]; [|reflexivity].
      rewrite run_in_realm_bind, Hi, Hr.
      destruct mapper as [f|].
      * destruct (f raw data); [|reflexivity].
        unfold read_element. rewrite run_gets_bind.
        destruct (has_value _); reflexivity.
      * unfold read_element. rewrite run_gets_bind.
        destruct (has_value _); reflexivity.
Qed.

(** C5 at its failing input: with a mapper that throws on the [etage]
    mapping, [_populate] of both TypeScript classes stops with the mapper's
    error: nothing is logged and the later mapping to [#postnr] (element 1)
    is not populated.  On the same input the JavaScript class logs the
    failure, skips [#etage] only and fills [#postnr]. *)
Theorem populate_with_throwing_mapper :
  let sA := started TsA.config throwing_config "Gren" in
  let sB := started TsB.config throwing_config "Gren" in
  let sJ := started Js.config throwing_config "Gren" in
  (snd (TsB._populate sample_address sB) = Throw (Error "bad date") /\
   console (fst (TsB._populate sample_address sB)) = [] /\
   element_of (document (fst (TsB._populate sample_address sB))) 1 = FormControl "") /\
  (snd (TsA._populate sample_address sA) = Throw (Error "bad date") /\
   console (fst (TsA._populate sample_address sA)) = [] /\
   element_of (document (fst (TsA._populate sample_address sA))) 1 = FormControl "") /\
  (snd (Js._populate sample_address sJ) = Normal tt /\
   List.map log_error (console (fst (Js._populate sample_address sJ)))
     = [Some (Error "bad date")] /\
   element_of (document (fst (Js._populate sample_address sJ))) 2 = FormControl "" /\
   element_of (document (fst (Js._populate sample_address sJ))) 1 = FormControl "8541").
Proof. vm_compute. repeat split; reflexivity. Qed.

(** ** The query text *)

(** C6 at its failing input: in the documented class, a search field
    holding two spaces passes the [length < 2] test, and a request goes out
    whose [q] is the untrimmed text; likewise [" ab"] is sent with its
    leading space.  On the same inputs the other two classes issue no
    request for the blank text and send the trimmed text otherwise. *)
Theorem lookup_whitespace_query :
  (trim "  " = "" /\
   List.map rq_params (pending (fst (TsA.lookup (started TsA.config no_config "  "))))
     = [[("q", "  "); ("type", "adresse"); ("per_side", "10")]]) /\
  (trim " ab" = "ab" /\
   List.map (fun rq => params_get "q" (rq_params rq))
     (pending (fst (TsA.lookup (started TsA.config no_config " ab"))))
     = [Some " ab"]) /\
  (pending (fst (TsB.lookup (started TsB.config no_config "  "))) = [] /\
   pending (fst (Js.lookup (started Js.config no_config "  "))) = []) /\
  (List.map (fun rq => params_get "q" (rq_params rq))
     (pending (fst (TsB.lookup (started TsB.config no_config " ab"))))
     = [Some "ab"] /\
   List.map (fun rq => params_get "q" (rq_params rq))
     (pending (fst (Js.lookup (started Js.config no_config " ab"))))
     = [Some "ab"]).
Proof. vm_compute. repeat split; reflexivity. Qed.

(** ** Selection *)

Lemma TsB_select_spec item s :
  TsB.select (Some item) s =
    if negb (truthy (adresse item)) then (s, Normal tt)
    else if TsB_partial (adresse item)
    then fetch_detail (own_prop (adresse item) "href") item s
    else TsB.select_finish (adresse item) s.
Proof.
  unfold TsB.select, TsB_partial.
  destruct (truthy (adresse item)) eqn:Ht; [|reflexivity]. cbn [negb andb].
  unfold getProp. rewrite (truthy_not_nullish _ Ht).
  rewrite run_lift_bind.
  destruct (nullish (own_prop (adresse item) "adgangsadresse")) eqn:Hn.
  - rewrite run_ret_bind, run_lift_bind.
    destruct (negb _ && _); reflexivity.
  - rewrite run_lift_bind, run_lift_bind.
    destruct (negb _ && _); reflexivity.
Qed.

Lemma Js_select_spec item s :
  Js.select (Some item) s =
    if negb (truthy (adresse item)) then (s, Normal tt)
    else if Js_partial (adresse item)
    then fetch_detail (own_prop (adresse item) "href") item s
    else Js.select_finish item (adresse item) s.
Proof.
  unfold Js.select, Js_partial.
  destruct (truthy (adresse item)) eqn:Ht; [|reflexivity]. cbn [negb andb].
  unfold getProp. rewrite (truthy_not_nullish _ Ht).
  rewrite run_lift_bind, run_lift_bind.
  destruct (negb _ && _); reflexivity.
Qed.

Lemma dispatched_TsB_populate data : preserves dispatched (TsB._populate data).
Proof. unfold TsB._populate. frame. Qed.

Lemma dispatched_Js_populate data : preserves dispatched (Js._populate data).
Proof. unfold Js._populate. frame. Qed.

(** [select] of the bundled class, once the record is resolved: one event
    if it completes, none if a mapper throws on the way. *)
Lemma TsB_select_finish_dispatched data s :
  dispatched (fst (TsB.select_finish data s)) =
    match snd (TsB.select_finish data s) with
    | Normal _ => (dispatched s ++ [select_event (JObj [("address", data)])])%list
    | Throw _ => dispatched s
    end.
Proof.
  unfold TsB.select_finish. rewrite run_bind.
  pose proof (dispatched_TsB_populate data s) as Hp.
  destruct (TsB._populate data s) as [s1 [[]|e]]; simpl in Hp; [|exact Hp].
  rewrite run_bind.
  assert (Hh : dispatched (fst (TsB._hideSuggestions s1)) = dispatched s1)
    by (revert s1 Hp; frame_leaf).
  destruct (TsB._hideSuggestions s1) as [s2 [[]|e]]; simpl in Hh.
  - simpl. congruence.
  - simpl. congruence.
Qed.

Lemma Js_select_finish_dispatched item data s :
  dispatched (fst (Js.select_finish item data s)) =
    match snd (Js.select_finish item data s) with
    | Normal _ => (dispatched s ++ [select_event data])%list
    | Throw _ => dispatched s
    end.
Proof.
  unfold Js.select_finish. rewrite run_bind.
  assert (Hh : dispatched (fst (Js._hideSuggestions s)) = dispatched s)
    by (revert s; frame_leaf).
  destruct (Js._hideSuggestions s) as [s1 [[]|e]]; simpl in Hh; [|exact Hh].
  rewrite run_gets_bind, run_bind.
  assert (Hw : forall m : M unit,
             m = match _inputEl s1 with
                 | Some h => update_element h (set_value (tekst item))
                 | None => mret tt
                 end ->
             dispatched (fst (m s1)) = dispatched s1 /\ snd (m s1) = Normal tt).
  { intros m ->. destruct (_inputEl s1); split; reflexivity. }
  destruct (Hw _ eq_refl) as [Hw1 Hw2].
  destruct (match _inputEl s1 with
            | Some h => update_element h (set_value (tekst item))
            | None => mret tt
            end s1) as [s2 c2]. simpl in Hw1, Hw2. subst c2.
  rewrite run_bind.
  pose proof (dispatched_Js_populate data s2) as Hp.
  destruct (Js._populate data s2) as [s3 [[]|e]]; simpl in Hp |- *; congruence.
Qed.

Lemma completed {A} (x : State * Completion A) a :
  snd x = Normal a -> x = (fst x, Normal a).
Proof. destruct x; simpl; congruence. Qed.

(** C4, as stated, fails on the bundled TypeScript class: the event of a
    completed selection does not have the record as its [detail] but an
    object holding the record under the key [address]. *)
Lemma TsB_select_detail_wraps_record :
  dispatched (fst (TsB.select (Some sample_suggestion)
                     (started TsB.config no_config "Gren")))
    = [select_event (JObj [("address", sample_address)])] /\
  ~ fires_record_as_detail TsB.select.
Proof.
  split; [vm_compute; reflexivity|].
  intros H.
  assert (Hrun : snd (TsB.select (Some sample_suggestion)
                        (started TsB.config no_config "Gren")) = Normal tt)
    by (vm_compute; reflexivity).
  specialize (H _ _ _ (completed _ tt Hrun)).
  vm_compute in H. specialize (H ltac:(discriminate)). discriminate H.
Qed.

(** C4, amended: a suggestion with a partial record and a link makes
    [select] request the detail and do nothing else; if that request fails
    the failure is logged and that is all: no field is populated, the list
    is left alone and no event is dispatched; a selection that completes
    dispatches exactly one bubbling, composed [netsi-address:select] event,
    whose [detail] is the resolved record in the JavaScript class and an
    object holding that record under [address] in the bundled TypeScript
    class. *)
Theorem select_aborts_or_fires_once (s : State) (item : Suggestion) :
  (TsB_partial (adresse item) = true ->
   untouched s (fst (TsB.select (Some item) s)) /\
   console (fst (TsB.select (Some item) s)) = console s /\
   pending_detail (fst (TsB.select (Some item) s)) =
     (pending_detail s
      ++ [mkDetail (next_id s) (own_prop (adresse item) "href") item])%list) /\
  (Js_partial (adresse item) = true ->
   untouched s (fst (Js.select (Some item) s)) /\
   console (fst (Js.select (Some item) s)) = console s /\
   pending_detail (fst (Js.select (Some item) s)) =
     (pending_detail s
      ++ [mkDetail (next_id s) (own_prop (adresse item) "href") item])%list) /\
  (forall rq o e,
      received (fun _ => Error "Failed to fetch full address details.") o = Throw e ->
      untouched s (fst (TsB.select_resume rq o s)) /\
      console (fst (TsB.select_resume rq o s)) =
        (console s ++ [mkLog "NetsiAddress select failed:" (Some e)])%list) /\
  (forall rq o e,
      received (fun _ => Error "Could not fetch full address data") o = Throw e ->
      untouched s (fst (Js.select_resume rq o s)) /\
      console (fst (Js.select_resume rq o s)) =
        (console s ++ [mkLog "Failed to select address:" (Some e)])%list) /\
  (forall rq statusText data s',
      TsB.select_resume rq (Response true statusText (Normal data)) s = (s', Normal tt) ->
      dispatched s' = (dispatched s ++ [select_event (JObj [("address", data)])])%list) /\
  (forall rq statusText data s',
      Js.select_resume rq (Response true statusText (Normal data)) s = (s', Normal tt) ->
      dispatched s' = (dispatched s ++ [select_event data])%list) /\
  (truthy (adresse item) = true -> TsB_partial (adresse item) = false ->
   forall s', TsB.select (Some item) s = (s', Normal tt) ->
   dispatched s' =
     (dispatched s ++ [select_event (JObj [("address", adresse item)])])%list) /\
  (truthy (adresse item) = true -> Js_partial (adresse item) = false ->
   forall s', Js.select (Some item) s = (s', Normal tt) ->
   dispatched s' = (dispatched s ++ [select_event (adresse item)])%list) /\
  ev_type (select_event (adresse item)) = "netsi-address:select" /\
  ev_bubbles (select_event (adresse item)) = true /\
  ev_composed (select_event (adresse item)) = true.
Proof.
  split; [|split; [|split; [|split; [|split; [|split; [|split; [|split]]]]]]].
  - intros Hp. rewrite TsB_select_spec.
    pose proof Hp as Hp'.
    unfold TsB_partial in Hp. apply andb_true_iff in Hp as [Hp _].
    apply andb_true_iff in Hp as [Ht _]. rewrite Ht, Hp'. cbn [negb].
    repeat split; reflexivity.
  - intros Hp. rewrite Js_select_spec.
    pose proof Hp as Hp'.
    unfold Js_partial in Hp. apply andb_true_iff in Hp as [Hp _].
    apply andb_true_iff in Hp as [Ht _]. rewrite Ht, Hp'. cbn [negb].
    repeat split; reflexivity.
  - intros rq o e He. unfold TsB.select_resume. rewrite He.
    repeat split; reflexivity.
  - intros rq o e He. unfold Js.select_resume. rewrite He.
    repeat split; reflexivity.
  - intros rq statusText data s' Hs. unfold TsB.select_resume in Hs.
    cbn [received] in Hs.
    pose proof (TsB_select_finish_dispatched data s) as Hd.
    rewrite Hs in Hd. exact Hd.
  - intros rq statusText data s' Hs. unfold Js.select_resume in Hs.
    cbn [received] in Hs.
    pose proof (Js_select_finish_dispatched (dr_item rq) data s) as Hd.
    rewrite Hs in Hd. exact Hd.
  - intros Ht Hp s' Hs. rewrite TsB_select_spec, Ht, Hp in Hs. cbn [negb] in Hs.
    pose proof (TsB_select_finish_dispatched (adresse item) s) as Hd.
    rewrite Hs in Hd. exact Hd.
  - intros Ht Hp s' Hs. rewrite Js_select_spec, Ht, Hp in Hs. cbn [negb] in Hs.
    pose proof (Js_select_finish_dispatched item (adresse item) s) as Hd.
    rewrite Hs in Hd. exact Hd.
  - repeat split.
Qed.

Lemma select_aborts_or_fires_once_witness :
  dispatched (fst (Js.select (Some sample_suggestion)
                     (started Js.config no_config "Gren")))
    = [select_event sample_address] /\
  dispatched (fst (TsB.select (Some sample_suggestion)
                     (started TsB.config no_config "Gren")))
    = [select_event (JObj [("address", sample_address)])] /\
  console (fst (Js.select_resume (mkDetail 0 (JStr "https://host/adresser/1") sample_suggestion)
                  (Rejected (TypeError "Failed to fetch"))
                  (started Js.config no_config "Gren")))
    = [mkLog "Failed to select address:" (Some (TypeError "Failed to fetch"))].
Proof.
  pose proof (select_aborts_or_fires_once
                (started Js.config no_config "Gren") sample_suggestion)
    as [_ [_ [_ [Hfail [_ [_ [_ [Hjs _]]]]]]]].
  pose proof (select_aborts_or_fires_once
                (started TsB.config no_config "Gren") sample_suggestion)
    as [_ [_ [_ [_ [_ [_ [Hts _]]]]]]].
  split; [|split].
  - apply (Hjs eq_refl eq_refl). apply completed. vm_compute. reflexivity.
  - apply (Hts eq_refl eq_refl). apply completed. vm_compute. reflexivity.
  - exact (proj2 (Hfail (mkDetail 0 (JStr "https://host/adresser/1") sample_suggestion)
                    (Rejected (TypeError "Failed to fetch"))
                    (TypeError "Failed to fetch") eq_refl)).
Defined.

(** ** The search field after a selection *)

Lemma for_each_keeps_in {A} (P : State -> Prop) (body : A -> M unit) l :
  (forall x, In x l -> keeps P (body x)) -> keeps P (for_each body l).
Proof.
  induction l as [|x l IH]; intros Hb; cbn [for_each].
  - apply keeps_ret.
  - apply keeps_bind.
    + apply Hb. now left.
    + intros _. apply IH. intros y Hy. apply Hb. now right.
Qed.

Lemma same_page_update q h e h' f s :
  h' <> h -> same_page q h e s -> same_page q h e (fst (update_element h' f s)).
Proof.
  intros Hne [Hq He]. split; [exact Hq|].
  unfold element_of in *. simpl. rewrite lookup_insert_ne by exact Hne.
  exact He.
Qed.

Lemma same_page_console q h e msg err s :
  same_page q h e s -> same_page q h e (fst (console_error msg err s)).
Proof. intros H. exact H. Qed.

Lemma Js_populate_same_page data q h e ui :
  (forall path m, In (path, Some m) ui -> path <> "address" ->
                  q (selector_of m) <> Normal (Some h)) ->
  keeps (same_page q h e)
    (for_each (fun entry =>
       let jsonPath := fst entry in
       let uiMapping := snd entry in
       if String.eqb jsonPath "address" then mret tt
       else
         match (match uiMapping with
                | Some (MapSelector sel) => Some (sel, None)
                | Some (MapObject sel m) =>
                    if String.eqb sel "" then None else Some (sel, m)
                | None => None
                end) with
         | None => mret tt
         | Some (selector, mapper) =>
             element ← querySelector selector;
             match element with
             | None => mret tt
             | Some h =>
                 rawValue ← in_realm (fun realm => rawValue realm data jsonPath);
                 match (match mapper with
                        | Some f => f rawValue data
                        | None => Normal rawValue
                        end) with
                 | Throw e =>
                     console_error
                       ("Mapper function for path " +:+ Js.dquote +:+ jsonPath
                        +:+ Js.dquote +:+ " failed:") (Some e)
                 | Normal displayValue =>
                     e ← read_element h;
                     if has_value e then update_element h (set_value displayValue)
                     else update_element h (set_textContent displayValue)
                 end
             end
         end) ui).
Proof.
  intros Hun. apply for_each_keeps_in. intros [path mapping] Hin s Hs.
  cbn [fst snd].
  destruct (String.eqb_spec path "address") as [->|Hne]; [exact Hs|].
  assert (Hsel : forall sel mapper,
             mapping = Some (MapSelector sel) \/ mapping = Some (MapObject sel mapper) ->
             forall h', qs (document s) sel = Normal (Some h') -> h' <> h).
  { intros sel mapper Hm h' Hq ->. destruct Hs as [Hqs _]. rewrite Hqs in Hq.
    destruct Hm as [->| ->]; exact (Hun _ _ Hin Hne Hq). }
  assert (Hgo : forall sel mapper,
             mapping = Some (MapSelector sel) \/ mapping = Some (MapObject sel mapper) ->
             forall mp,
             same_page q h e
               (fst ((element ← querySelector sel;
                      match element with
                      | None => mret tt
                      | Some h =>
                          rawValue ← in_realm (fun realm => rawValue realm data path);
                          match (match mp with
                                 | Some f => f rawValue data
                                 | None => Normal rawValue
                                 end) with
                          | Throw e =>
                              console_error
                                ("Mapper function for path " +:+ Js.dquote +:+ path
                                 +:+ Js.dquote +:+ " failed:") (Some e)
                          | Normal displayValue =>
                              e ← read_element h;
                              if has_value e
                              then update_element h (set_value displayValue)
                              else update_element h (set_textContent displayValue)
                          end
                      end) s))).
  { intros sel mapper Hm mp. rewrite run_querySelector_bind.
    destruct (qs (document s) sel) as [[h'|]|err] eqn:Hq; [|exact Hs..].
    pose proof (Hsel _ _ Hm _ Hq) as Hh.
    rewrite run_in_realm_bind.
    destruct (rawValue _ data path) as [r|err]; [|exact Hs].
    destruct (match mp with Some f => f r data | None => Normal r end);
      [|exact Hs].
    unfold read_element. rewrite run_gets_bind.
    destruct (has_value _); now apply same_page_update. }
  destruct mapping as [[sel|sel mapper]|]; [| |exact Hs].
  - exact (Hgo sel None (or_introl eq_refl) None).
  - destruct (String.eqb sel ""); [exact Hs|].
    exact (Hgo sel mapper (or_intror eq_refl) mapper).
Qed.

Lemma TsB_populate_loop_same_page data q h e ui :
  (forall path m, In (path, Some m) ui -> path <> "address" ->
                  q (selector_of m) <> Normal (Some h)) ->
  keeps (same_page q h e)
    (for_each (fun entry =>
       let key := fst entry in
       let mapping := snd entry in
       if mapping_falsy mapping || String.eqb key "address" then mret tt
       else
         let '(selector, mapper) :=
           match mapping with
           | Some (MapObject sel m) => (sel, m)
           | Some (MapSelector sel) => (sel, None)
           | None => ("", None)
           end in
         targetEl ← querySelector selector;
         match targetEl with
         | Some h =>
             rawValue ← in_realm (fun realm => _getValue realm data key);
             shown ← match mapper with
                     | Some f => lift (f rawValue data)
                     | None => mret rawValue
                     end;
             update_element h (set_value shown)
         | None => mret tt
         end) ui).
Proof.
  intros Hun. apply for_each_keeps_in. intros [path mapping] Hin s Hs.
  cbn [fst snd].
  destruct (mapping_falsy mapping) eqn:Hf; [exact Hs|]. cbn [orb].
  destruct (String.eqb_spec path "address") as [->|Hne]; [exact Hs|].
  destruct mapping as [m|]; [|discriminate].
  assert (Hsel : forall h',
             qs (document s) (selector_of m) = Normal (Some h') -> h' <> h).
  { intros h' Hq ->. destruct Hs as [Hqs _]. rewrite Hqs in Hq.
    exact (Hun _ _ Hin Hne Hq). }
  assert (Hgo : forall mp,
             same_page q h e
               (fst ((targetEl ← querySelector (selector_of m);
                      match targetEl with
                      | Some h =>
                          rawValue ← in_realm (fun realm => _getValue realm data path);
                          shown ← match mp with
                                  | Some f => lift (f rawValue data)
                                  | None => mret rawValue
                                  end;
                          update_element h (set_value shown)
                      | None => mret tt
                      end) s))).
  { intros mp. rewrite run_querySelector_bind.
    destruct (qs (document s) (selector_of m)) as [[h'|]|err] eqn:Hq;
      [|exact Hs..].
    pose proof (Hsel _ eq_refl) as Hh.
    rewrite run_in_realm_bind.
    destruct (_getValue _ data path) as [r|err]; [|exact Hs].
    destruct mp as [f|].
    - rewrite run_lift_bind. destruct (f r data); [|exact Hs].
      now apply same_page_update.
    - rewrite run_ret_bind. now apply same_page_update. }
  destruct m as [sel|sel mapper]; [exact (Hgo None)|exact (Hgo mapper)].
Qed.

Lemma Js_select_finish_field item data s h s' :
  _inputEl s = Some h -> unmapped s h ->
  Js.select_finish item data s = (s', Normal tt) ->
  element_of (document s') h = set_value (tekst item) (element_of (document s) h).
Proof.
  intros Hh Hun Hrun. unfold Js.select_finish in Hrun.
  rewrite run_bind in Hrun. unfold Js._hideSuggestions in Hrun at 1.
  rewrite run_gets_bind in Hrun.
  destruct (_suggestionsEl s) as [l|]; [|discriminate].
  cbn [modify] in Hrun. rewrite run_gets_bind in Hrun.
  cbn [_inputEl set_suggestionsEl] in Hrun. rewrite Hh in Hrun.
  rewrite run_bind in Hrun. cbn [update_element modify] in Hrun.
  rewrite run_bind in Hrun.
  match type of Hrun with
  | context [Js._populate data ?s2] =>
      assert (Hp : same_page (qs (document s)) h
                     (set_value (tekst item) (element_of (document s) h))
                     (fst (Js._populate data s2)))
  end.
  { unfold Js._populate. rewrite run_gets_bind.
    apply Js_populate_same_page.
    - exact Hun.
    - split; [reflexivity|]. unfold element_of. simpl.
      rewrite lookup_insert_eq. reflexivity. }
  match type of Hrun with
  | context [Js._populate data ?s2] =>
      destruct (Js._populate data s2) as [s3 [[]|e]]; [|discriminate]
  end.
  cbn in Hrun. injection Hrun as <-. destruct Hp as [_ Hp]. exact Hp.
Qed.

Lemma TsB_select_finish_field data s h s' :
  _inputEl s = Some h -> unmapped s h -> is_Some (cfg_ui (_config s)) ->
  TsB.select_finish data s = (s', Normal tt) ->
  element_of (document s') h =
    set_value (own_prop data "adressebetegnelse") (element_of (document s) h).
Proof.
  intros Hh Hun [ui Hui] Hrun. unfold TsB.select_finish in Hrun.
  rewrite run_bind in Hrun.
  assert (Hp : forall s1 c, TsB._populate data s = (s1, c) -> c = Normal tt ->
                 same_page (qs (document s)) h
                   (set_value (own_prop data "adressebetegnelse")
                      (element_of (document s) h)) s1).
  { intros s1 c Hpop ->. unfold TsB._populate in Hpop.
    rewrite run_gets_bind, Hui, run_gets_bind, Hh in Hpop.
    rewrite run_bind, run_lift_bind in Hpop. unfold getProp in Hpop.
    destruct (nullish data); [discriminate|].
    cbn [update_element modify] in Hpop.
    change s1 with (fst (s1, @Normal unit tt)). rewrite <- Hpop.
    apply (TsB_populate_loop_same_page data (qs (document s)) h
             (set_value (own_prop data "adressebetegnelse")
                (element_of (document s) h)) ui).
    - unfold unmapped in Hun. rewrite Hui in Hun. exact Hun.
    - split; [reflexivity|].
      unfold element_of. simpl. rewrite lookup_insert_eq. reflexivity. }
  destruct (TsB._populate data s) as [s1 [[]|e]]; [|discriminate].
  specialize (Hp s1 _ eq_refl eq_refl).
  rewrite run_bind in Hrun.
  unfold TsB._hideSuggestions, TsA._hideSuggestions, modify in Hrun.
  destruct Hp as [_ Hp].
  destruct (_suggestionsEl s1); cbn in Hrun; injection Hrun as <-; exact Hp.
Qed.

Lemma sample_unmapped_TsB : unmapped (started TsB.config no_config "Gren") 0.
Proof.
  intros path m Hin Hne. vm_compute in Hin.
  repeat (destruct Hin as [Hin|Hin];
          [injection Hin as <- <-; try congruence; vm_compute; discriminate|]).
  destruct Hin.
Qed.

Lemma sample_unmapped_Js : unmapped (started Js.config no_config "Gren") 0.
Proof.
  intros path m Hin Hne. vm_compute in Hin.
  repeat (destruct Hin as [Hin|Hin];
          [injection Hin as <- <-; try congruence; vm_compute; discriminate|]).
  destruct Hin.
Qed.

(** The documented class assigns the display text and then lets the
    [address] entry of the mapping assign the record's [address] property
    to the same field: on the sample page the field ends up empty. *)
Example TsA_select_overwrites_display_text :
  let s := started TsA.config no_config "Gren" in
  element_of (document (fst (TsA.select (Some sample_suggestion) s))) 0
    = FormControl "" /\
  dispatched (fst (TsA.select (Some sample_suggestion) s))
    = [select_event (JObj [("address", sample_address)])].
Proof. vm_compute. split; reflexivity. Qed.

(** C7, as stated, fails on the bundled TypeScript class: after a completed
    selection the search field holds the record's [adressebetegnelse], not
    the suggestion's display text. *)
Lemma TsB_select_shows_adressebetegnelse :
  tekst sample_suggestion = JStr "Grenaavej 793C" /\
  element_of (document (fst (TsB.select (Some sample_suggestion)
                               (started TsB.config no_config "Gren")))) 0
    = FormControl "Grenaavej 793C, 8541 Skodstrup" /\
  ~ shows_display_text TsB.select.
Proof.
  split; [reflexivity|]. split; [vm_compute; reflexivity|].
  intros H.
  assert (Hrun : snd (TsB.select (Some sample_suggestion)
                        (started TsB.config no_config "Gren")) = Normal tt)
    by (vm_compute; reflexivity).
  specialize (H (started TsB.config no_config "Gren") sample_suggestion 0%nat _
                eq_refl sample_unmapped_TsB (completed _ tt Hrun)).
  vm_compute in H. specialize (H ltac:(discriminate)). discriminate H.
Qed.

(** C7, amended: when no field mapping points at the search field itself, a
    selection that completes leaves in the search field the suggestion's
    display text in the JavaScript class, and the [adressebetegnelse] of the
    resolved record in the bundled TypeScript class. *)
Theorem select_fills_search_field :
  shows_display_text Js.select /\
  (forall s rq o h s',
      _inputEl s = Some h -> unmapped s h ->
      Js.select_resume rq o s = (s', Normal tt) -> dispatched s' <> dispatched s ->
      element_of (document s') h =
        set_value (tekst (dr_item rq)) (element_of (document s) h)) /\
  (forall s item h s',
      _inputEl s = Some h -> unmapped s h -> is_Some (cfg_ui (_config s)) ->
      TsB.select (Some item) s = (s', Normal tt) -> dispatched s' <> dispatched s ->
      element_of (document s') h =
        set_value (own_prop (adresse item) "adressebetegnelse")
          (element_of (document s) h)) /\
  (forall s rq statusText data h s',
      _inputEl s = Some h -> unmapped s h -> is_Some (cfg_ui (_config s)) ->
      TsB.select_resume rq (Response true statusText (Normal data)) s = (s', Normal tt) ->
      element_of (document s') h =
        set_value (own_prop data "adressebetegnelse") (element_of (document s) h)).
Proof.
  split; [|split; [|split]].
  - intros s item h s' Hh Hun Hrun Hd. rewrite Js_select_spec in Hrun.
    destruct (truthy (adresse item)); cbn [negb] in Hrun.
    + destruct (Js_partial (adresse item)).
      * injection Hrun as <-. now destruct Hd.
      * now apply (Js_select_finish_field item (adresse item) s).
    + injection Hrun as <-. now destruct Hd.
  - intros s rq o h s' Hh Hun Hrun Hd. unfold Js.select_resume in Hrun.
    destruct (received _ o) as [data|e].
    + now apply (Js_select_finish_field (dr_item rq) data s).
    + injection Hrun as <-. now destruct Hd.
  - intros s item h s' Hh Hun Hui Hrun Hd. rewrite TsB_select_spec in Hrun.
    destruct (truthy (adresse item)); cbn [negb] in Hrun.
    + destruct (TsB_partial (adresse item)).
      * injection Hrun as <-. now destruct Hd.
      * now apply (TsB_select_finish_field (adresse item) s).
    + injection Hrun as <-. now destruct Hd.
  - intros s rq statusText data h s' Hh Hun Hui Hrun.
    unfold TsB.select_resume in Hrun. cbn [received] in Hrun.
    now apply (TsB_select_finish_field data s).
Qed.

Lemma select_fills_search_field_witness :
  element_of (document (fst (Js.select (Some sample_suggestion)
                               (started Js.config no_config "Gren")))) 0
    = FormControl "Grenaavej 793C" /\
  element_of (document (fst (TsB.select (Some sample_suggestion)
                               (started TsB.config no_config "Gren")))) 0
    = FormControl "Grenaavej 793C, 8541 Skodstrup".
Proof.
  destruct select_fills_search_field as [Hjs [_ [Hts _]]].
  split.
  - apply (Hjs (started Js.config no_config "Gren") sample_suggestion 0%nat).
    + reflexivity.
    + exact sample_unmapped_Js.
    + apply completed. vm_compute. reflexivity.
    + vm_compute. discriminate.
  - apply (Hts (started TsB.config no_config "Gren") sample_suggestion 0%nat).
    + reflexivity.
    + exact sample_unmapped_TsB.
    + vm_compute. eauto.
    + apply completed. vm_compute. reflexivity.
    + vm_compute. discriminate.
Defined.

(** ** Steps that stay away from the network *)

Section Respect.
Context (R : State -> State -> Prop).
Hypothesis R_refl : forall s, R s s.
Hypothesis R_trans : forall s1 s2 s3, R s1 s2 -> R s2 s3 -> R s1 s3.

Lemma respects_ret {A} (a : A) : respects R (mret a).
Proof. intros s. apply R_refl. Qed.

Lemma respects_throw {A} e : respects R (throw (A:=A) e).
Proof. intros s. apply R_refl. Qed.

Lemma respects_lift {A} (c : Completion A) : respects R (lift c).
Proof. intros s. apply R_refl. Qed.

Lemma respects_gets {A} (f : State -> A) : respects R (gets f).
Proof. intros s. apply R_refl. Qed.

Lemma respects_querySelector sel : respects R (querySelector sel).
Proof. intros s. apply R_refl. Qed.

Lemma respects_in_realm {A} (f : Realm -> Completion A) : respects R (in_realm f).
Proof. intros s. apply R_refl. Qed.

Lemma respects_bind {A C} (m : M A) (k : A -> M C) :
  respects R m -> (forall a, respects R (k a)) -> respects R (m ≫= k).
Proof.
  intros Hm Hk s. rewrite run_bind.
  specialize (Hm s). destruct (m s) as [s' [a|e]]; simpl in *.
  - eapply R_trans; [exact Hm|apply Hk].
  - exact Hm.
Qed.

Lemma respects_try_catch {A} (m : M A) handler :
  respects R m -> (forall e, respects R (handler e)) ->
  respects R (try_catch m handler).
Proof.
  intros Hm Hh s. unfold try_catch.
  specialize (Hm s). destruct (m s) as [s' [a|e]]; simpl in *.
  - exact Hm.
  - eapply R_trans; [exact Hm|apply Hh].
Qed.

Lemma respects_for_each {A} (body : A -> M unit) l :
  (forall x, respects R (body x)) -> respects R (for_each body l).
Proof.
  intros Hb. induction l as [|x l IH]; cbn [for_each].
  - apply respects_ret.
  - apply respects_bind; [apply Hb|intros _; exact IH].
Qed.

Lemma respects_detached {A} (m : M A) : respects R m -> respects R (detached m).
Proof. intros Hm s. apply Hm. Qed.
End Respect.

Lemma quiet_refl s : quiet s s.
Proof. constructor; auto. Qed.

Lemma quiet_trans s1 s2 s3 : quiet s1 s2 -> quiet s2 s3 -> quiet s1 s3.
Proof.
  intros [] []. constructor; try congruence; try lia; auto.
Qed.

Ltac quiet_step :=
  lazymatch goal with
  | |- respects quiet (mret _) => apply (respects_ret quiet quiet_refl)
  | |- respects quiet (throw _) => apply (respects_throw quiet quiet_refl)
  | |- respects quiet (lift _) => apply (respects_lift quiet quiet_refl)
  | |- respects quiet (gets _) => apply (respects_gets quiet quiet_refl)
  | |- respects quiet (querySelector _) =>
      apply (respects_querySelector quiet quiet_refl)
  | |- respects quiet (in_realm _) => apply (respects_in_realm quiet quiet_refl)
  | |- respects quiet (read_element _) => apply (respects_gets quiet quiet_refl)
  | |- respects quiet (mbind _ _) =>
      apply (respects_bind quiet quiet_trans); [|intros ?]
  | |- respects quiet (try_catch _ _) =>
      apply (respects_try_catch quiet quiet_trans); [|intros ?]
  | |- respects quiet (for_each _ _) =>
      apply (respects_for_each quiet quiet_refl quiet_trans); intros ?
  | |- respects quiet (detached _) => apply respects_detached
  | |- respects quiet ?m =>
      match m with
      | context [match ?x with _ => _ end] => destruct x
      end
  end.

Lemma has_value_set_value v e : has_value (set_value v e) = has_value e.
Proof. destruct e; reflexivity. Qed.

Lemma has_value_set_textContent v e : has_value (set_textContent v e) = has_value e.
Proof. destruct e; reflexivity. Qed.

Lemma quiet_update_element h f :
  (forall e, has_value (f e) = has_value e) ->
  respects quiet (update_element h f).
Proof.
  intros Hf s. constructor; try reflexivity; auto.
  intros h'. unfold element_of at 1. simpl.
  destruct (decide (h = h')) as [->|Hne].
  - rewrite lookup_insert_eq. simpl. apply Hf.
  - rewrite lookup_insert_ne by exact Hne. reflexivity.
Qed.

Lemma quiet_modify f :
  (forall s, quiet s (f s)) -> respects quiet (modify f).
Proof. intros H s. apply H. Qed.

Lemma quiet_console_error msg e : respects quiet (console_error msg e).
Proof. intros s. constructor; try reflexivity; auto. Qed.

Lemma quiet_dispatchEvent ev : respects quiet (dispatchEvent ev).
Proof. intros s. constructor; try reflexivity; auto. Qed.

Lemma quiet_fetch_detail href item : respects quiet (fetch_detail href item).
Proof. intros s. constructor; try reflexivity; simpl; try lia; auto. Qed.

Lemma quiet_hide : respects quiet TsA._hideSuggestions.
Proof.
  intros s. unfold TsA._hideSuggestions, modify. simpl.
  destruct (_suggestionsEl s) eqn:E; constructor; try reflexivity; simpl; eauto.
Qed.

Lemma quiet_show : respects quiet TsA._showSuggestions.
Proof.
  intros s. unfold TsA._showSuggestions, modify. simpl.
  destruct (_suggestionsEl s) eqn:E; constructor; try reflexivity; simpl; eauto.
Qed.

Lemma quiet_set_items f : respects quiet (TsA.set_items f).
Proof.
  intros s. unfold TsA.set_items, modify. simpl.
  destruct (_suggestionsEl s) eqn:E; constructor; try reflexivity; simpl; eauto.
Qed.

Lemma quiet_set_highlightedIndex f :
  respects quiet (modify (fun s => set_highlightedIndex (f s) s)).
Proof. intros s. constructor; try reflexivity; auto. Qed.

Lemma quiet_Js_hide : respects quiet Js._hideSuggestions.
Proof.
  intros s. unfold Js._hideSuggestions. rewrite run_gets_bind.
  destruct (_suggestionsEl s) eqn:E; constructor; try reflexivity; simpl; eauto.
Qed.

Lemma quiet_Js_show : respects quiet Js._showSuggestions.
Proof.
  intros s. unfold Js._showSuggestions. rewrite run_gets_bind.
  destruct (_suggestionsEl s) eqn:E; constructor; try reflexivity; simpl; eauto.
Qed.

Create HintDb quiet discriminated.

#[global] Hint Resolve quiet_console_error quiet_dispatchEvent
  quiet_fetch_detail quiet_hide quiet_show quiet_set_items
  quiet_set_highlightedIndex quiet_Js_hide quiet_Js_show
  has_value_set_value has_value_set_textContent : quiet.

Ltac quiet :=
  repeat first
    [ solve [auto with quiet]
    | solve [apply quiet_update_element; intros []; reflexivity]
    | solve [apply quiet_update_element; auto with quiet]
    | quiet_step ].

Lemma quiet_edit h text : respects quiet (edit h text).
Proof. unfold edit. quiet. Qed.

Lemma quiet_TsA_render suggestions : respects quiet (TsA._renderSuggestions suggestions).
Proof.
  unfold TsA._renderSuggestions. quiet.
Qed.

Lemma quiet_Js_render suggestions : respects quiet (Js._renderSuggestions suggestions).
Proof.
  unfold Js._renderSuggestions, Js.null_list. quiet.
Qed.

Lemma quiet_TsA_populate data : respects quiet (TsA._populate data).
Proof. unfold TsA._populate. quiet. Qed.

Lemma quiet_TsB_populate data : respects quiet (TsB._populate data).
Proof. unfold TsB._populate. quiet. Qed.

Lemma quiet_Js_populate data : respects quiet (Js._populate data).
Proof. unfold Js._populate. quiet. Qed.

#[global] Hint Resolve quiet_edit quiet_TsA_render quiet_Js_render
  quiet_TsA_populate quiet_TsB_populate quiet_Js_populate : quiet.

Lemma quiet_TsA_select item : respects quiet (TsA.select item).
Proof. unfold TsA.select. quiet. Qed.

Lemma quiet_TsB_select item : respects quiet (TsB.select item).
Proof.
  unfold TsB.select, TsB.select_finish, TsB._hideSuggestions. quiet.
Qed.

Lemma quiet_Js_select item : respects quiet (Js.select item).
Proof. unfold Js.select, Js.select_finish. quiet. Qed.

Lemma quiet_TsB_select_resume rq o : respects quiet (TsB.select_resume rq o).
Proof.
  unfold TsB.select_resume, TsB.select_finish, TsB._hideSuggestions. quiet.
Qed.

Lemma quiet_Js_select_resume rq o : respects quiet (Js.select_resume rq o).
Proof. unfold Js.select_resume, Js.select_finish. quiet. Qed.

#[global] Hint Resolve quiet_TsA_select quiet_TsB_select quiet_Js_select
  quiet_TsB_select_resume quiet_Js_select_resume : quiet.

Lemma quiet_TsA_keydown key : respects quiet (TsA._handleKeydown key).
Proof.
  unfold TsA._handleKeydown, TsA._updateHighlight. quiet.
Qed.

Lemma quiet_TsB_keydown key : respects quiet (TsB._handleKeydown key).
Proof.
  unfold TsB._handleKeydown, TsB._updateHighlight, TsB._hideSuggestions,
    TsA._updateHighlight. quiet.
Qed.

Lemma quiet_Js_keydown key : respects quiet (Js._handleKeydown key).
Proof.
  unfold Js._handleKeydown, Js._updateHighlight, Js.null_list. quiet.
Qed.

Lemma quiet_TsA_click : respects quiet TsA._handleClickOutside.
Proof. unfold TsA._handleClickOutside. quiet. Qed.

Lemma quiet_TsB_click : respects quiet TsB._handleClickOutside.
Proof. unfold TsB._handleClickOutside, TsB._hideSuggestions. quiet. Qed.

Lemma quiet_Js_click : respects quiet Js._handleClickOutside.
Proof. unfold Js._handleClickOutside, Js.null_list. quiet. Qed.

Lemma quiet_settle_detail resume rid o :
  (forall rq o', respects quiet (resume rq o')) ->
  respects quiet (settle_detail resume rid o).
Proof.
  intros Hr s. unfold settle_detail.
  destruct (find_detail rid (pending_detail s)); [|apply quiet_refl].
  eapply quiet_trans; [|apply Hr].
  constructor; try reflexivity; auto.
Qed.


(** ** The network side *)

Lemma attached_quiet s s' : quiet s s' -> (attached s <-> attached s').
Proof.
  intros Hq. unfold attached. rewrite (q_input _ _ Hq).
  split; intros [h [v [Hh Hv]]]; exists h.
  - pose proof (q_kind _ _ Hq h) as Hk. rewrite Hv in Hk.
    destruct (element_of (document s') h) as [v'|t]; [eauto|discriminate].
  - pose proof (q_kind _ _ Hq h) as Hk. rewrite Hv in Hk.
    destruct (element_of (document s) h) as [v'|t]; [eauto|discriminate].
Qed.

Lemma cancelled_quiet s s' rq : quiet s s' -> cancelled s' rq = cancelled s rq.
Proof. intros Hq. unfold cancelled. now rewrite (q_aborted _ _ Hq). Qed.

Lemma well_formed_quiet s s' : quiet s s' -> well_formed s -> well_formed s'.
Proof.
  intros Hq Hwf. pose proof Hq as [Ha Hc Hp Ht Hn Hi Hk Hl Hcfg].
  destruct Hwf as [W1 W2 W3 W4 W5 W6 W7 W8 W9].
  constructor; rewrite ?Hp, ?Ha, ?Hc.
  - exact W1.
  - intros c Hin. specialize (W2 c Hin). lia.
  - intros c Hin. specialize (W3 c Hin). lia.
  - intros rq Hin. specialize (W4 rq Hin). lia.
  - exact W5.
  - intros rq1 rq2 H1 H2. rewrite !(cancelled_quiet _ _ _ Hq). now apply W6.
  - intros Hne. destruct (W7 Hne) as [Hat Hsome].
    split; [now apply (attached_quiet _ _ Hq)|exact Hsome].
  - intros Hat. apply Hl, W8. now apply (attached_quiet _ _ Hq).
  - exact W9.
Qed.

Lemma all_cancelled_quiet s s' : quiet s s' -> all_cancelled s -> all_cancelled s'.
Proof.
  intros Hq Hall rq Hin. rewrite (cancelled_quiet _ _ _ Hq).
  apply Hall. now rewrite <- (q_pending _ _ Hq).
Qed.

(** Aborting the current controller cancels everything outstanding; the
    new controller is fresh. *)
Lemma restart_well_formed s :
  well_formed s ->
  well_formed (restart s) /\ all_cancelled (restart s) /\
  _abortController (restart s) = Some (next_id s) /\
  (next_id s ∉ aborted (restart s)) /\
  (attached s <-> attached (restart s)).
Proof.
  intros [W1 W2 W3 W4 W5 W6 W7 W8 W9].
  assert (Hall : all_cancelled (restart s)).
  { intros rq Hin. unfold restart, abort_current, new_controller, modify in *.
    simpl in *.
    assert (Hin' : In rq (pending s)) by (destruct (_abortController s); exact Hin).
    destruct (W1 rq Hin') as [c [Hs Hc]]. unfold cancelled. rewrite Hs.
    apply bool_decide_eq_true.
    destruct (_abortController s) as [c0|] eqn:Hc0; simpl.
    - destruct Hc as [Hc|Hc]; [apply elem_of_union; now right|].
      injection Hc as ->. apply elem_of_union. left. now apply elem_of_singleton.
    - destruct Hc as [Hc|Hc]; [exact Hc|discriminate]. }
  assert (Hfresh : next_id s ∉ aborted (restart s)).
  { unfold restart, abort_current, new_controller, modify. simpl.
    destruct (_abortController s) as [c0|] eqn:Hc0; simpl.
    - intros Hin. apply elem_of_union in Hin as [Hin|Hin].
      + apply elem_of_singleton in Hin. specialize (W3 _ eq_refl). lia.
      + specialize (W2 _ Hin). lia.
    - intros Hin. specialize (W2 _ Hin). lia. }
  assert (Hfacts : pending (restart s) = pending s /\
                   next_id (restart s) = S (next_id s) /\
                   _abortController (restart s) = Some (next_id s) /\
                   _inputEl (restart s) = _inputEl s /\
                   document (restart s) = document s /\
                   _suggestionsEl (restart s) = _suggestionsEl s /\
                   (forall c, c ∈ aborted (restart s) -> (c < next_id s)%nat)).
  { unfold restart, abort_current, new_controller, modify. simpl.
    destruct (_abortController s) as [c0|] eqn:Hc0; simpl;
      repeat split; try reflexivity.
    - intros c Hin. apply elem_of_union in Hin as [Hin|Hin].
      + apply elem_of_singleton in Hin. subst. now apply W3.
      + now apply W2.
    - exact W2. }
  destruct Hfacts as [Hp [Hn [Hc [Hi [Hd [Hl Hab]]]]]].
  assert (Hatt : attached s <-> attached (restart s)).
  { unfold attached. rewrite Hi, Hd. reflexivity. }
  split; [|repeat split; try assumption; apply Hatt].
  constructor; rewrite ?Hp, ?Hn, ?Hc.
  - intros rq Hin. destruct (W1 rq Hin) as [c [Hs _]].
    exists c. split; [exact Hs|]. left.
    specialize (Hall rq). rewrite Hp in Hall. specialize (Hall Hin).
    unfold cancelled in Hall. rewrite Hs in Hall.
    now apply bool_decide_eq_true in Hall.
  - intros c Hin. specialize (Hab c Hin). lia.
  - intros c [= <-]. lia.
  - intros rq Hin. specialize (W4 rq Hin). lia.
  - exact W5.
  - intros rq1 rq2 H1 H2 Hl1. rewrite <- Hp in H1.
    rewrite (Hall rq1 H1) in Hl1. discriminate.
  - intros Hne. split; [apply Hatt, W7, Hne|eauto].
  - intros Hat. rewrite Hl. apply W8, Hatt, Hat.
  - exact W9.
Qed.

(** Issuing a request on the current controller when nothing else is
    live. *)
Lemma fetch_well_formed s c ps stage :
  well_formed s -> _abortController s = Some c -> all_cancelled s ->
  attached s -> (stage = Fuzzy -> params_has "fuzzy" ps = true) ->
  well_formed (fst (fetch (Some c) ps stage s)).
Proof.
  intros [W1 W2 W3 W4 W5 W6 W7 W8 W9] Hc Hall Hat Hfz.
  unfold fetch, modify. constructor; simpl.
  - intros rq Hin. apply in_app_or in Hin as [Hin|[<-|[]]]; [now apply W1|].
    exists c. split; [reflexivity|now right].
  - intros c' Hin. specialize (W2 c' Hin). lia.
  - intros c' Hin. specialize (W3 c' Hin). lia.
  - intros rq Hin. apply in_app_or in Hin as [Hin|[<-|[]]].
    + specialize (W4 rq Hin). lia.
    + simpl. lia.
  - rewrite map_app. simpl. apply NoDup_ListNoDup.
    apply NoDup_app. split; [now apply NoDup_ListNoDup|]. split.
    + intros x Hx Hx'. apply list_elem_of_singleton in Hx'. subst x.
      apply list_elem_of_In, in_map_iff in Hx as [rq [Hid Hin]].
      specialize (W4 rq Hin). lia.
    + apply NoDup_singleton.
  - intros rq1 rq2 H1 H2 L1 L2.
    assert (Hold : forall rq, In rq (pending s) ->
               cancelled (set_next_id (S (next_id s))
                 (set_net_trace (net_trace s ++ [NetFetch (next_id s)])
                    (set_pending (pending s ++ [mkRequest (next_id s) (Some c) ps stage]) s)))
                 rq = true) by (intros rq Hin; exact (Hall rq Hin)).
    apply in_app_or in H1 as [H1|[<-|[]]];
      [rewrite (Hold _ H1) in L1; discriminate|].
    apply in_app_or in H2 as [H2|[<-|[]]];
      [rewrite (Hold _ H2) in L2; discriminate|reflexivity].
  - intros _. split; [exact Hat|eauto].
  - intros _. now apply W8.
  - intros rq Hin Hst. apply in_app_or in Hin as [Hin|[<-|[]]];
      [now apply W9|now apply Hfz].
Qed.

Lemma TsB_input_query_spec s : TsB.input_query s = (s, query_of s).
Proof.
  unfold TsB.input_query, query_of. rewrite run_gets_bind.
  destruct (_inputEl s) as [h|]; [|reflexivity].
  unfold read_element. rewrite run_gets_bind.
  destruct (get_value _); reflexivity.
Qed.

Lemma TsB_build_spec b s :
  TsB._buildQueryParameters b s = (s, trimmed_params b s).
Proof.
  unfold TsB._buildQueryParameters, trimmed_params.
  rewrite run_bind, TsB_input_query_spec.
  destruct (query_of s); reflexivity.
Qed.

Lemma Js_build_spec b s :
  Js._buildQueryParameters b s = (s, trimmed_params b s).
Proof.
  unfold Js._buildQueryParameters, trimmed_params.
  rewrite run_bind, TsB_input_query_spec.
  destruct (query_of s); reflexivity.
Qed.

Lemma TsA_build_spec b s :
  TsA._buildQueryParameters b s = (s, raw_params b s).
Proof.
  unfold TsA._buildQueryParameters, raw_params. rewrite run_gets_bind.
  destruct (_inputEl s) as [h|]; reflexivity.
Qed.

Lemma query_attached s q :
  query_of s = Normal q -> TsB.no_query q = false -> attached s.
Proof.
  unfold query_of, attached. intros Hq Hn.
  destruct (_inputEl s) as [h|]; [|injection Hq as <-; discriminate].
  exists h. destruct (element_of (document s) h) as [v|t]; [eauto|discriminate].
Qed.

Lemma restart_run {B} (k : M B) s :
  (abort_current ≫= (fun _ => new_controller ≫= (fun _ => k))) s = k (restart s).
Proof. reflexivity. Qed.

(** [lookup] of the bundled class, statement by statement. *)
Lemma TsB_lookup_spec s :
  TsB.lookup s =
    match query_of (restart s) with
    | Throw e => (restart s, Throw e)
    | Normal q =>
        if TsB.no_query q then TsA._renderSuggestions [] (restart s)
        else match trimmed_params false (restart s) with
             | Normal ps =>
                 fetch (_abortController (restart s)) ps Primary (restart s)
             | Throw e => TsB.lookup_catch e (restart s)
             end
    end.
Proof.
  unfold TsB.lookup. rewrite restart_run. generalize (restart s). clear s.
  intros s. rewrite run_bind, TsB_input_query_spec.
  destruct (query_of s) as [q|e]; [|reflexivity].
  destruct (TsB.no_query q); [reflexivity|].
  unfold try_catch. rewrite run_bind, TsB_build_spec.
  destruct (trimmed_params false s); reflexivity.
Qed.

Lemma Js_lookup_spec s :
  Js.lookup s =
    match query_of (restart s) with
    | Throw e => (restart s, Throw e)
    | Normal q =>
        if TsB.no_query q then Js._renderSuggestions [] (restart s)
        else match trimmed_params false (restart s) with
             | Normal ps =>
                 fetch (_abortController (restart s)) ps Primary (restart s)
             | Throw e => Js.lookup_catch e (restart s)
             end
    end.
Proof.
  unfold Js.lookup. rewrite restart_run.
  assert (Hc : is_Some (_abortController (restart s))) by (simpl; eauto).
  revert Hc. generalize (restart s). clear s.
  intros s [c Hc]. rewrite run_bind, TsB_input_query_spec.
  destruct (query_of s) as [q|e]; [|reflexivity].
  destruct (TsB.no_query q); [reflexivity|].
  unfold try_catch. rewrite run_bind, Js_build_spec.
  destruct (trimmed_params false s); [|reflexivity].
  unfold Js._fetchData. rewrite run_gets_bind, Hc. reflexivity.
Qed.

Lemma TsA_fetchData_spec ps stage s :
  TsA._fetchData ps stage s =
    fetch (_abortController (restart s)) ps stage (restart s).
Proof. reflexivity. Qed.

(** [lookup] of the documented class, statement by statement. *)
Lemma TsA_lookup_spec s :
  TsA.lookup s =
    match _inputEl s with
    | None => TsA._hideSuggestions s
    | Some h =>
        match get_value (element_of (document s) h) with
        | JStr v =>
            if (String.length v <? 2)%nat then TsA._hideSuggestions s
            else match raw_params false s with
                 | Normal ps => TsA._fetchData ps Primary s
                 | Throw e => TsA.lookup_catch e s
                 end
        | _ => (s, Throw (TypeError "Cannot read properties of undefined (reading 'length')"))
        end
    end.
Proof.
  unfold TsA.lookup. rewrite run_gets_bind.
  destruct (_inputEl s) as [h|] eqn:Hh.
  - rewrite run_bind. unfold read_element. rewrite run_gets_bind.
    destruct (get_value (element_of (document s) h)); try reflexivity.
    unfold mret at 1, M_ret at 1.
    destruct (String.length s0 <? 2)%nat; [reflexivity|].
    unfold try_catch. rewrite run_bind, TsA_build_spec.
    destruct (raw_params false s); reflexivity.
  - rewrite run_ret_bind. reflexivity.
Qed.

Lemma TsA_render_normal l s : snd (TsA._renderSuggestions l s) = Normal tt.
Proof. rewrite TsA_render_spec. destruct (_suggestionsEl s); reflexivity. Qed.

(** [lookup] from the settlement on, statement by statement. *)
Lemma TsA_lookup_resume_spec rq o s :
  TsA.lookup_resume rq o s =
    match TsA._fetchData_result rq o with
    | Throw e => TsA.lookup_catch e s
    | Normal suggestions =>
        match rq_stage rq with
        | Primary =>
            if (length suggestions =? 0)%nat && truthy (useFuzzyFallback (_config s))
            then match raw_params true s with
                 | Normal ps => TsA._fetchData ps Fuzzy s
                 | Throw e => TsA.lookup_catch e s
                 end
            else TsA._renderSuggestions suggestions s
        | Fuzzy => TsA._renderSuggestions suggestions s
        end
    end.
Proof.
  unfold TsA.lookup_resume, try_catch. rewrite run_lift_bind.
  destruct (TsA._fetchData_result rq o) as [suggestions|e]; [|reflexivity].
  destruct (rq_stage rq).
  - rewrite run_gets_bind.
    destruct ((length suggestions =? 0)%nat && truthy (useFuzzyFallback (_config s))).
    + rewrite run_bind, TsA_build_spec.
      destruct (raw_params true s); reflexivity.
    + pose proof (TsA_render_normal suggestions s) as Hn.
      destruct (TsA._renderSuggestions suggestions s) as [s' c].
      simpl in Hn. now subst c.
  - pose proof (TsA_render_normal suggestions s) as Hn.
    destruct (TsA._renderSuggestions suggestions s) as [s' c].
    simpl in Hn. now subst c.
Qed.

Lemma TsB_lookup_resume_spec rq o s :
  TsB.lookup_resume rq o s =
    match TsB._fetchData_result o with
    | Throw e => TsB.lookup_catch e s
    | Normal data =>
        match rq_stage rq with
        | Primary =>
            if (length data =? 0)%nat && truthy (useFuzzyFallback (_config s))
            then match trimmed_params true s with
                 | Normal ps => fetch (_abortController s) ps Fuzzy s
                 | Throw e => TsB.lookup_catch e s
                 end
            else TsA._renderSuggestions data s
        | Fuzzy =>
            TsA._renderSuggestions
              (if (0 <? length data)%nat then List.map TsB.tag_fuzzy data else data) s
        end
    end.
Proof.
  unfold TsB.lookup_resume, try_catch. rewrite run_lift_bind.
  destruct (TsB._fetchData_result o) as [data|e]; [|reflexivity].
  destruct (rq_stage rq).
  - rewrite run_gets_bind.
    destruct ((length data =? 0)%nat && truthy (useFuzzyFallback (_config s))).
    + rewrite run_bind, TsB_build_spec.
      destruct (trimmed_params true s); reflexivity.
    + pose proof (TsA_render_normal data s) as Hn.
      unfold TsB._renderSuggestions.
      destruct (TsA._renderSuggestions data s) as [s' c].
      simpl in Hn. now subst c.
  - unfold TsB._renderSuggestions.
    match goal with
    | |- context [TsA._renderSuggestions ?l s] =>
        pose proof (TsA_render_normal l s) as Hn;
        destruct (TsA._renderSuggestions l s) as [s' c]
    end.
    simpl in Hn. now subst c.
Qed.

Lemma Js_lookup_resume_spec rq o s :
  is_Some (_abortController s) ->
  Js.lookup_resume rq o s =
    match Js._fetchData_result o with
    | Throw e => Js.lookup_catch e s
    | Normal data =>
        match rq_stage rq with
        | Primary =>
            if (length data =? 0)%nat && truthy (useFuzzyFallback (_config s))
            then match trimmed_params true s with
                 | Normal ps => fetch (_abortController s) ps Fuzzy s
                 | Throw e => Js.lookup_catch e s
                 end
            else try_catch (Js._renderSuggestions data) Js.lookup_catch s
        | Fuzzy =>
            try_catch
              (Js._renderSuggestions
                 (if (0 <? length data)%nat then List.map TsB.tag_fuzzy data else data))
              Js.lookup_catch s
        end
    end.
Proof.
  intros [c Hc]. unfold Js.lookup_resume, try_catch. rewrite run_lift_bind.
  destruct (Js._fetchData_result o) as [data|e]; [|reflexivity].
  destruct (rq_stage rq); [|reflexivity].
  rewrite run_gets_bind.
  destruct ((length data =? 0)%nat && truthy (useFuzzyFallback (_config s)));
    [|reflexivity].
  rewrite run_bind, Js_build_spec.
  destruct (trimmed_params true s); [|reflexivity].
  unfold Js._fetchData. rewrite run_gets_bind, Hc. reflexivity.
Qed.

Lemma params_has_set k v ps : params_has k (params_set k v ps) = true.
Proof.
  unfold params_has. apply bool_decide_eq_true.
  induction ps as [|[k' v'] ps IH]; simpl.
  - rewrite String.eqb_refl. eauto.
  - destruct (String.eqb_spec k' k) as [->|Hne]; simpl.
    + rewrite String.eqb_refl. eauto.
    + destruct (String.eqb_spec k k'); [congruence|exact IH].
Qed.

Lemma assoc_app_some {A} k (l l' : list (string * A)) :
  is_Some (assoc k l) -> is_Some (assoc k (l ++ l')).
Proof.
  induction l as [|[k' v'] l IH]; simpl; intros H.
  - destruct H; discriminate.
  - destruct (String.eqb k k'); [eauto|now apply IH].
Qed.

Lemma trimmed_params_fuzzy s ps :
  trimmed_params true s = Normal ps -> params_has "fuzzy" ps = true.
Proof.
  unfold trimmed_params. destruct (query_of s); [|discriminate].
  cbn [cbind]. intros [= <-]. apply params_has_set.
Qed.

Lemma raw_params_fuzzy s ps :
  raw_params true s = Normal ps -> params_has "fuzzy" ps = true.
Proof.
  unfold raw_params. destruct (_inputEl s); [|discriminate].
  intros [= <-]. unfold params_has. apply bool_decide_eq_true.
  generalize (request_keys (_config s)).
  match goal with
  | |- forall l, is_Some (assoc _ (fold_left _ l ?init)) =>
      assert (Hinit : is_Some (assoc "fuzzy" init)) by (simpl; eauto);
      generalize dependent init
  end.
  intros init Hinit l. revert init Hinit.
  induction l as [|kv l IH]; intros init Hinit; [exact Hinit|].
  cbn [fold_left]. apply IH. unfold params_append. now apply assoc_app_some.
Qed.

Lemma quiet_TsA_catch e : respects quiet (TsA.lookup_catch e).
Proof. unfold TsA.lookup_catch. quiet. Qed.

Lemma quiet_TsB_catch e : respects quiet (TsB.lookup_catch e).
Proof. unfold TsB.lookup_catch. quiet. Qed.

Lemma quiet_Js_catch e : respects quiet (Js.lookup_catch e).
Proof. unfold Js.lookup_catch. quiet. Qed.

#[global] Hint Resolve quiet_TsA_catch quiet_TsB_catch quiet_Js_catch : quiet.

Lemma TsA_fetchData_well_formed ps stage s :
  well_formed s -> attached s ->
  (stage = Fuzzy -> params_has "fuzzy" ps = true) ->
  well_formed (fst (TsA._fetchData ps stage s)).
Proof.
  intros W Hat Hfz. rewrite TsA_fetchData_spec.
  destruct (restart_well_formed s W) as [W' [Hall [Hc [_ Hatt]]]].
  rewrite Hc. apply fetch_well_formed; auto. now apply Hatt.
Qed.

Lemma TsA_lookup_well_formed s : well_formed s -> well_formed (fst (TsA.lookup s)).
Proof.
  intros W. rewrite TsA_lookup_spec.
  destruct (_inputEl s) as [h|] eqn:Hh;
    [|exact (well_formed_quiet _ _ (quiet_hide s) W)].
  destruct (get_value (element_of (document s) h)) eqn:Hv; try exact W.
  destruct (String.length s0 <? 2)%nat;
    [exact (well_formed_quiet _ _ (quiet_hide s) W)|].
  destruct (raw_params false s);
    [|exact (well_formed_quiet _ _ (quiet_TsA_catch _ s) W)].
  apply TsA_fetchData_well_formed; [exact W| |discriminate].
  exists h. destruct (element_of (document s) h) as [v|t]; [eauto|discriminate].
Qed.

Lemma TsA_resume_well_formed rq o s :
  well_formed s -> attached s ->
  well_formed (fst (TsA.lookup_resume rq o s)).
Proof.
  intros W Hat. rewrite TsA_lookup_resume_spec.
  destruct (TsA._fetchData_result rq o) as [suggestions|e];
    [|exact (well_formed_quiet _ _ (quiet_TsA_catch _ s) W)].
  destruct (rq_stage rq);
    [|exact (well_formed_quiet _ _ (quiet_TsA_render _ s) W)].
  destruct (_ && _);
    [|exact (well_formed_quiet _ _ (quiet_TsA_render _ s) W)].
  destruct (raw_params true s) as [ps|e] eqn:Hps;
    [|exact (well_formed_quiet _ _ (quiet_TsA_catch _ s) W)].
  apply TsA_fetchData_well_formed; [exact W|exact Hat|].
  intros _. now apply (raw_params_fuzzy s).
Qed.

Lemma TsB_lookup_well_formed s : well_formed s -> well_formed (fst (TsB.lookup s)).
Proof.
  intros W. rewrite TsB_lookup_spec.
  destruct (restart_well_formed s W) as [W' [Hall [Hc [_ Hatt]]]].
  destruct (query_of (restart s)) as [q|e] eqn:Hq; [|exact W'].
  destruct (TsB.no_query q) eqn:Hn;
    [exact (well_formed_quiet _ _ (quiet_TsA_render _ _) W')|].
  destruct (trimmed_params false (restart s));
    [|exact (well_formed_quiet _ _ (quiet_TsB_catch _ _) W')].
  rewrite Hc. apply fetch_well_formed; auto; [|discriminate].
  exact (query_attached _ _ Hq Hn).
Qed.

Lemma Js_lookup_well_formed s : well_formed s -> well_formed (fst (Js.lookup s)).
Proof.
  intros W. rewrite Js_lookup_spec.
  destruct (restart_well_formed s W) as [W' [Hall [Hc [_ Hatt]]]].
  destruct (query_of (restart s)) as [q|e] eqn:Hq; [|exact W'].
  destruct (TsB.no_query q) eqn:Hn;
    [exact (well_formed_quiet _ _ (quiet_Js_render _ _) W')|].
  destruct (trimmed_params false (restart s));
    [|exact (well_formed_quiet _ _ (quiet_Js_catch _ _) W')].
  rewrite Hc. apply fetch_well_formed; auto; [|discriminate].
  exact (query_attached _ _ Hq Hn).
Qed.

Lemma TsB_resume_well_formed rq o s :
  resumable s o -> well_formed (fst (TsB.lookup_resume rq o s)).
Proof.
  intros [W [Hat [[c Hc] Hall]]]. rewrite TsB_lookup_resume_spec.
  destruct (TsB._fetchData_result o) as [data|e] eqn:Ho;
    [|exact (well_formed_quiet _ _ (quiet_TsB_catch _ s) W)].
  destruct (rq_stage rq);
    [|exact (well_formed_quiet _ _ (quiet_TsA_render _ s) W)].
  destruct (_ && _);
    [|exact (well_formed_quiet _ _ (quiet_TsA_render _ s) W)].
  destruct (trimmed_params true s) as [ps|e] eqn:Hps;
    [|exact (well_formed_quiet _ _ (quiet_TsB_catch _ s) W)].
  rewrite Hc. apply fetch_well_formed; auto.
  - destruct Hall as [Hall| ->]; [exact Hall|discriminate].
  - intros _. now apply (trimmed_params_fuzzy s).
Qed.

Lemma Js_resume_well_formed rq o s :
  resumable s o -> well_formed (fst (Js.lookup_resume rq o s)).
Proof.
  intros [W [Hat [[c Hc] Hall]]].
  rewrite Js_lookup_resume_spec by eauto.
  assert (Hrender : forall l,
             well_formed (fst (try_catch (Js._renderSuggestions l) Js.lookup_catch s))).
  { intros l. refine (well_formed_quiet _ _ _ W).
    apply (respects_try_catch quiet quiet_trans); auto with quiet. }
  destruct (Js._fetchData_result o) as [data|e] eqn:Ho;
    [|exact (well_formed_quiet _ _ (quiet_Js_catch _ s) W)].
  destruct (rq_stage rq); [|apply Hrender].
  destruct (_ && _); [|apply Hrender].
  destruct (trimmed_params true s) as [ps|e] eqn:Hps;
    [|exact (well_formed_quiet _ _ (quiet_Js_catch _ s) W)].
  rewrite Hc. apply fetch_well_formed; auto.
  - destruct Hall as [Hall| ->]; [exact Hall|discriminate].
  - intros _. now apply (trimmed_params_fuzzy s).
Qed.

Lemma find_request_some rid l rq :
  find_request rid l = Some rq -> In rq l /\ rq_id rq = rid.
Proof.
  unfold find_request. intros H. apply find_some in H as [Hin Heq].
  split; [exact Hin|now apply Nat.eqb_eq].
Qed.

Lemma find_request_in rq l :
  In rq l -> List.NoDup (List.map rq_id l) -> find_request (rq_id rq) l = Some rq.
Proof.
  unfold find_request. induction l as [|x l IH]; intros Hin Hnd; [destruct Hin|].
  simpl in *. apply NoDup_cons_iff in Hnd as [Hnotin Hnd].
  destruct (Nat.eqb_spec (rq_id x) (rq_id rq)) as [Heq|Hne].
  - destruct Hin as [->|Hin]; [reflexivity|].
    exfalso. apply Hnotin. rewrite Heq. now apply in_map.
  - destruct Hin as [->|Hin]; [congruence|now apply IH].
Qed.

Lemma remove_request_in rid l rq :
  In rq (remove_request rid l) <-> In rq l /\ rq_id rq <> rid.
Proof.
  unfold remove_request. rewrite filter_In, negb_true_iff, Nat.eqb_neq.
  reflexivity.
Qed.

Lemma NoDup_map_filter {A B} (g : A -> B) f l :
  List.NoDup (List.map g l) -> List.NoDup (List.map g (List.filter f l)).
Proof.
  induction l as [|x l IH]; simpl; intros Hnd; [constructor|].
  apply NoDup_cons_iff in Hnd as [Hnotin Hnd].
  destruct (f x); simpl; [|now apply IH].
  apply NoDup_cons_iff. split; [|now apply IH].
  intros Hin. apply Hnotin. apply in_map_iff in Hin as [y [Hy Hin]].
  apply filter_In in Hin as [Hin _]. apply in_map_iff. eauto.
Qed.

(** Taking a settled request off the list. *)
Lemma settled_resumable s rid rq o :
  well_formed s -> find_request rid (pending s) = Some rq ->
  resumable (set_pending (remove_request rid (pending s)) s) (effective s rq o).
Proof.
  intros [W1 W2 W3 W4 W5 W6 W7 W8 W9] Hfind.
  apply find_request_some in Hfind as [Hin Hid].
  assert (Hne : pending s <> []) by (destruct (pending s); [destruct Hin|discriminate]).
  destruct (W7 Hne) as [Hat Hsome].
  split; [|split; [exact Hat|split; [exact Hsome|]]].
  - constructor; simpl.
    + intros rq' Hin'. apply remove_request_in in Hin' as [Hin' _]. now apply W1.
    + exact W2.
    + exact W3.
    + intros rq' Hin'. apply remove_request_in in Hin' as [Hin' _]. now apply W4.
    + now apply NoDup_map_filter.
    + intros rq1 rq2 H1 H2. apply remove_request_in in H1 as [H1 _].
      apply remove_request_in in H2 as [H2 _]. now apply W6.
    + intros _. split; [exact Hat|exact Hsome].
    + exact W8.
    + intros rq' Hin'. apply remove_request_in in Hin' as [Hin' _]. now apply W9.
  - unfold effective. destruct (cancelled s rq) eqn:Hc; [now right|].
    left. intros rq' Hin'. simpl in Hin'.
    apply remove_request_in in Hin' as [Hin' Hne'].
    destruct (cancelled s rq') eqn:Hc'; [exact Hc'|].
    exfalso. apply Hne'. rewrite (W6 rq' rq Hin' Hin Hc' Hc). exact Hid.
Qed.

Lemma settle_well_formed resume rid o s :
  (forall rq o' s', resumable s' o' -> well_formed (fst (resume rq o' s'))) ->
  well_formed s -> well_formed (fst (settle resume rid o s)).
Proof.
  intros Hr W. unfold settle.
  destruct (find_request rid (pending s)) as [rq|] eqn:Hfind; [|exact W].
  apply Hr. now apply settled_resumable.
Qed.

Lemma TsA_step_well_formed ev s : well_formed s -> well_formed (TsA.step ev s).
Proof.
  intros W. destruct ev as [h text| |rid o|key|i| |item|rid o]; unfold TsA.step.
  - exact (well_formed_quiet _ _ (quiet_edit h text s) W).
  - now apply TsA_lookup_well_formed.
  - apply settle_well_formed; [|exact W].
    intros rq o' s' [W' [Hat _]]. now apply TsA_resume_well_formed.
  - exact (well_formed_quiet _ _ (quiet_TsA_keydown key s) W).
  - destruct (rendered s !! i); [|exact W].
    exact (well_formed_quiet _ _ (quiet_TsA_select _ s) W).
  - exact (well_formed_quiet _ _ (quiet_TsA_click s) W).
  - exact (well_formed_quiet _ _ (quiet_TsA_select _ s) W).
  - exact W.
Qed.

Lemma TsB_step_well_formed ev s : well_formed s -> well_formed (TsB.step ev s).
Proof.
  intros W. destruct ev as [h text| |rid o|key|i| |item|rid o]; unfold TsB.step.
  - exact (well_formed_quiet _ _ (quiet_edit h text s) W).
  - now apply TsB_lookup_well_formed.
  - apply settle_well_formed; [|exact W].
    intros rq o' s' Hr. now apply TsB_resume_well_formed.
  - exact (well_formed_quiet _ _ (quiet_TsB_keydown key s) W).
  - destruct (rendered s !! i); [|exact W].
    exact (well_formed_quiet _ _ (quiet_TsB_select _ s) W).
  - exact (well_formed_quiet _ _ (quiet_TsB_click s) W).
  - exact (well_formed_quiet _ _ (quiet_TsB_select _ s) W).
  - refine (well_formed_quiet _ _ (quiet_settle_detail _ rid o _ s) W).
    apply quiet_TsB_select_resume.
Qed.

Lemma Js_step_well_formed ev s : well_formed s -> well_formed (Js.step ev s).
Proof.
  intros W. destruct ev as [h text| |rid o|key|i| |item|rid o]; unfold Js.step.
  - exact (well_formed_quiet _ _ (quiet_edit h text s) W).
  - now apply Js_lookup_well_formed.
  - apply settle_well_formed; [|exact W].
    intros rq o' s' Hr. now apply Js_resume_well_formed.
  - exact (well_formed_quiet _ _ (quiet_Js_keydown key s) W).
  - destruct (rendered s !! i); [|exact W].
    exact (well_formed_quiet _ _ (quiet_Js_select _ s) W).
  - exact (well_formed_quiet _ _ (quiet_Js_click s) W).
  - exact (well_formed_quiet _ _ (quiet_Js_select _ s) W).
  - refine (well_formed_quiet _ _ (quiet_settle_detail _ rid o _ s) W).
    apply quiet_Js_select_resume.
Qed.

Lemma fresh_well_formed s : fresh s -> well_formed s.
Proof.
  intros [Hp [Ha [Hc Hl]]]. constructor; rewrite ?Hp, ?Ha, ?Hc.
  - intros rq [].
  - intros c Hin. now apply not_elem_of_empty in Hin.
  - discriminate.
  - intros rq [].
  - constructor.
  - intros rq1 rq2 [].
  - congruence.
  - intros [h [v [Hh _]]]. destruct Hl as [Hl|Hl]; [congruence|exact Hl].
  - intros rq [].
Qed.

Lemma TsA_config_fresh newConfig cfg d :
  fresh (fst (TsA.config newConfig (constructed cfg d))).
Proof.
  unfold TsA.config. rewrite run_modify_bind.
  unfold TsA._initialize. rewrite run_gets_bind.
  destruct (mapping_falsy _); [repeat split; auto|].
  destruct (TsA.address_mapping _) as [[sel|sel m]|];
    try (repeat split; auto; fail).
  rewrite run_querySelector_bind.
  destruct (qs _ sel) as [[h|]|err]; repeat split; simpl; eauto.
Qed.

Lemma TsB_config_fresh newConfig cfg d :
  fresh (fst (TsB.config newConfig (constructed cfg d))).
Proof.
  unfold TsB.config. rewrite run_modify_bind.
  unfold TsB._initialize, TsA._initialize. rewrite run_gets_bind.
  destruct (mapping_falsy _); [repeat split; auto|].
  destruct (TsA.address_mapping _) as [[sel|sel m]|];
    try (repeat split; auto; fail).
  rewrite run_querySelector_bind.
  destruct (qs _ sel) as [[h|]|err]; repeat split; simpl; eauto.
Qed.

Lemma Js_config_fresh newConfig cfg d :
  fresh (fst (Js.config newConfig (constructed cfg d))).
Proof.
  unfold Js.config. rewrite run_modify_bind.
  unfold Js._initialize. rewrite run_gets_bind.
  destruct (cfg_ui _) as [ui|]; [|repeat split; auto].
  destruct (assoc "address" ui) as [[[sel|sel m]|]|];
    try (repeat split; auto; fail);
    rewrite run_querySelector_bind;
    match goal with
    | |- context [qs ?d ?x] => destruct (qs d x) as [[h|]|err]
    end; repeat split; simpl; eauto.
Qed.

Lemma TsA_reachable_well_formed s :
  reachable TsA.config TsA.step s -> well_formed s.
Proof.
  induction 1 as [cfg d newConfig|s ev _ IH].
  - apply fresh_well_formed, TsA_config_fresh.
  - now apply TsA_step_well_formed.
Qed.

Lemma TsB_reachable_well_formed s :
  reachable TsB.config TsB.step s -> well_formed s.
Proof.
  induction 1 as [cfg d newConfig|s ev _ IH].
  - apply fresh_well_formed, TsB_config_fresh.
  - now apply TsB_step_well_formed.
Qed.

Lemma Js_reachable_well_formed s :
  reachable Js.config Js.step s -> well_formed s.
Proof.
  induction 1 as [cfg d newConfig|s ev _ IH].
  - apply fresh_well_formed, Js_config_fresh.
  - now apply Js_step_well_formed.
Qed.

(** ** Cancellation *)

Lemma restart_pending s : pending (restart s) = pending s.
Proof.
  unfold restart, abort_current, new_controller, modify. simpl.
  destruct (_abortController s); reflexivity.
Qed.

Lemma restart_trace s :
  net_trace (restart s) = (net_trace s ++ aborts_of s)%list.
Proof.
  unfold restart, abort_current, new_controller, modify, aborts_of. simpl.
  destruct (_abortController s); simpl; [reflexivity|now rewrite app_nil_r].
Qed.

Lemma restart_next_id s : next_id (restart s) = S (next_id s).
Proof.
  unfold restart, abort_current, new_controller, modify. simpl.
  destruct (_abortController s); reflexivity.
Qed.

Lemma quiet_after_restart s s' :
  well_formed s -> quiet (restart s) s' -> cancels_then_fetches s s'.
Proof.
  intros W Hq. destruct (restart_well_formed s W) as [_ [Hall _]].
  split.
  - intros rq Hin. rewrite (cancelled_quiet _ _ _ Hq). apply Hall.
    now rewrite restart_pending.
  - intros rq [Hin Hnot]. exfalso. apply Hnot.
    rewrite (q_pending _ _ Hq), restart_pending in Hin. exact Hin.
Qed.

Lemma fetch_pending c ps stage s :
  pending (fst (fetch c ps stage s)) =
    (pending s ++ [mkRequest (next_id s) c ps stage])%list.
Proof. reflexivity. Qed.

Lemma fetch_trace c ps stage s :
  net_trace (fst (fetch c ps stage s)) = (net_trace s ++ [NetFetch (next_id s)])%list.
Proof. reflexivity. Qed.

Lemma fetch_cancelled c ps stage s rq :
  cancelled (fst (fetch c ps stage s)) rq = cancelled s rq.
Proof. reflexivity. Qed.

Lemma fetch_after_restart s ps stage :
  well_formed s ->
  cancels_then_fetches s
    (fst (fetch (_abortController (restart s)) ps stage (restart s))).
Proof.
  intros W. destruct (restart_well_formed s W) as [_ [Hall [Hc [Hfresh _]]]].
  split.
  - intros rq Hin. apply (Hall rq). now rewrite restart_pending.
  - intros rq [Hin Hnot]. rewrite fetch_pending, restart_pending in Hin.
    apply in_app_or in Hin as [Hin|[<-|[]]]; [contradiction|].
    split.
    + rewrite fetch_cancelled. unfold cancelled. cbn [rq_signal]. rewrite Hc.
      now apply bool_decide_eq_false.
    + rewrite fetch_trace, restart_trace, <- app_assoc. reflexivity.
Qed.

Lemma TsB_lookup_cancels s :
  well_formed s -> cancels_then_fetches s (fst (TsB.lookup s)).
Proof.
  intros W. rewrite TsB_lookup_spec.
  destruct (query_of (restart s)) as [q|e];
    [|exact (quiet_after_restart _ _ W (quiet_refl _))].
  destruct (TsB.no_query q);
    [exact (quiet_after_restart _ _ W (quiet_TsA_render _ _))|].
  destruct (trimmed_params false (restart s));
    [|exact (quiet_after_restart _ _ W (quiet_TsB_catch _ _))].
  now apply fetch_after_restart.
Qed.

Lemma TsA_lookup_cancels s rq :
  well_formed s -> issued s (fst (TsA.lookup s)) rq ->
  cancels_then_fetches s (fst (TsA.lookup s)).
Proof.
  intros W. rewrite TsA_lookup_spec.
  assert (Hquiet : forall s', quiet s s' -> issued s s' rq ->
                     cancels_then_fetches s s').
  { intros s' Hq [Hin Hnot]. rewrite (q_pending _ _ Hq) in Hin. contradiction. }
  destruct (_inputEl s) as [h|]; [|apply Hquiet, quiet_hide].
  destruct (get_value (element_of (document s) h));
    try (apply Hquiet, quiet_refl).
  destruct (String.length s0 <? 2)%nat; [apply Hquiet, quiet_hide|].
  destruct (raw_params false s); [|apply Hquiet, quiet_TsA_catch].
  intros _. rewrite TsA_fetchData_spec. now apply fetch_after_restart.
Qed.

Lemma settle_found resume s rq o :
  well_formed s -> In rq (pending s) ->
  settle resume (rq_id rq) o s =
    detached (resume rq (effective s rq o))
      (set_pending (remove_request (rq_id rq) (pending s)) s).
Proof.
  intros W Hin. unfold settle.
  now rewrite (find_request_in rq _ Hin (wf_nodup _ W)).
Qed.

(** C2: in every reachable state, a lookup leaves every request that was
    outstanding cancelled, and the request it issues, if any, is live and
    fetched after the abort (the bundled class aborts at the start of
    [lookup], the documented class in [_fetchData], before its [fetch]);
    and when a cancelled request settles - with an [AbortError], whatever
    the server answered - nothing is logged, shown, written or dispatched. *)
Theorem lookup_cancels_outstanding :
  (forall s, reachable TsB.config TsB.step s ->
     cancels_then_fetches s (TsB.step EvLookup s)) /\
  (forall s rq, reachable TsA.config TsA.step s ->
     issued s (TsA.step EvLookup s) rq ->
     cancels_then_fetches s (TsA.step EvLookup s)) /\
  (forall s rq o, reachable TsB.config TsB.step s ->
     In rq (pending s) -> cancelled s rq = true ->
     discarded s (TsB.step (EvSettle (rq_id rq) o) s) rq) /\
  (forall s rq o, reachable TsA.config TsA.step s ->
     In rq (pending s) -> cancelled s rq = true ->
     discarded s (TsA.step (EvSettle (rq_id rq) o) s) rq).
Proof.
  split; [|split; [|split]].
  - intros s Hr. apply TsB_lookup_cancels. now apply TsB_reachable_well_formed.
  - intros s rq Hr. apply TsA_lookup_cancels. now apply TsA_reachable_well_formed.
  - intros s rq o Hr Hin Hc. unfold TsB.step.
    rewrite (settle_found _ _ _ _ (TsB_reachable_well_formed _ Hr) Hin).
    unfold effective. rewrite Hc. repeat split.
  - intros s rq o Hr Hin Hc. unfold TsA.step.
    rewrite (settle_found _ _ _ _ (TsA_reachable_well_formed _ Hr) Hin).
    unfold effective. rewrite Hc. repeat split.
Qed.

Lemma lookup_cancels_outstanding_witness :
  cancelled TsB_looking first_request = false /\
  cancelled (TsB.step EvLookup TsB_looking) first_request = true /\
  console (TsB.step (EvSettle 1 (Response true "OK" (Normal three_suggestions)))
             (TsB.step EvLookup TsB_looking)) = [] /\
  cancelled (TsA.step EvLookup TsA_looking)
    (mkRequest 1 (Some 0%nat)
       [("q", "Gren"); ("type", "adresse"); ("per_side", "10")] Primary) = true.
Proof.
  assert (Hreach : reachable TsB.config TsB.step TsB_looking).
  { apply reachable_run. constructor. }
  assert (HreachA : reachable TsA.config TsA.step TsA_looking).
  { apply reachable_run. constructor. }
  destruct lookup_cancels_outstanding as [Hlookup [HlookupA [Hsettle _]]].
  split; [vm_compute; reflexivity|]. split; [|split].
  - apply (Hlookup TsB_looking Hreach). vm_compute. left. reflexivity.
  - apply (Hsettle (TsB.step EvLookup TsB_looking) first_request).
    + now constructor.
    + vm_compute. left. reflexivity.
    + vm_compute. reflexivity.
  - apply (HlookupA TsA_looking
             (mkRequest 3 (Some 2%nat)
                [("q", "Gren"); ("type", "adresse"); ("per_side", "10")] Primary)
             HreachA).
    + split; [vm_compute; right; left; reflexivity|].
      vm_compute. intros [H|[]]. discriminate H.
    + vm_compute. left. reflexivity.
Defined.

(** ** Fuzzy fallback *)

Lemma Js_render_spec suggestions s :
  Js._renderSuggestions suggestions s =
    match _suggestionsEl s with
    | Some _ =>
        (set_highlightedIndex (-1)
           (set_suggestionsEl
              (Some (mkList (negb (length suggestions =? 0)%nat) suggestions)) s),
         Normal tt)
    | None => (s, Throw (TypeError "Cannot read properties of null"))
    end.
Proof.
  unfold Js._renderSuggestions, mbind, M_bind, gets.
  destruct (_suggestionsEl s) as [l|] eqn:Hl; [|reflexivity].
  unfold TsA.set_items at 1, modify. rewrite Hl.
  destruct (length suggestions =? 0)%nat eqn:Hn.
  - apply Nat.eqb_eq in Hn. destruct suggestions; [|discriminate].
    destruct s; reflexivity.
  - rewrite (append_items suggestions _ (mkList (visible l) []))
      by (destruct s; reflexivity).
    destruct s; reflexivity.
Qed.

Lemma no_issue s s' :
  (forall rq, In rq (pending s') -> In rq (pending s)) ->
  forall rq, ~ issued s s' rq.
Proof. intros Hsub rq [Hin Hnot]. auto. Qed.

Lemma quiet_no_issue s rid s' :
  quiet (set_pending (remove_request rid (pending s)) s) s' ->
  forall rq, ~ issued s s' rq.
Proof.
  intros Hq. apply no_issue. intros rq Hin.
  rewrite (q_pending _ _ Hq) in Hin. simpl in Hin.
  now apply remove_request_in in Hin as [Hin _].
Qed.

Lemma received_zero failure (o : Outcome (list Suggestion)) :
  received failure o = Normal [] <-> zero_results o.
Proof.
  unfold zero_results. split.
  - destruct o as [e|[] st [data|e]]; simpl; intros H; try discriminate.
    injection H as ->. eauto.
  - intros [st ->]. reflexivity.
Qed.

Lemma TsA_result_zero rq o l :
  TsA._fetchData_result rq o = Normal l ->
  ((length l =? 0)%nat = true <-> zero_results o).
Proof.
  unfold TsA._fetchData_result. intros H.
  rewrite <- (received_zero (fun _ => Error "Network response was not ok.")).
  destruct (received _ o) as [data|e]; [|discriminate].
  simpl in H. injection H as <-. rewrite length_map, Nat.eqb_eq.
  split.
  - intros Hl. destruct data; [reflexivity|discriminate].
  - intros [= ->]. reflexivity.
Qed.

(** The request a fallback issues is new. *)
Lemma fetch_issued s rid c ps stage s0 :
  well_formed s ->
  pending s0 = remove_request rid (pending s) ->
  (next_id s <= next_id s0)%nat ->
  let rq' := mkRequest (next_id s0) c ps stage in
  issued s (fst (fetch c ps stage s0)) rq' /\
  forall rq, issued s (fst (fetch c ps stage s0)) rq -> rq = rq'.
Proof.
  intros W Hp Hn rq'. split; [split|].
  - rewrite fetch_pending. apply in_or_app. right. now left.
  - intros Hin. pose proof (wf_ids _ W _ Hin) as Hid. simpl in Hid. lia.
  - intros rq [Hin Hnot]. rewrite fetch_pending, Hp in Hin.
    apply in_app_or in Hin as [Hin|[<-|[]]]; [|reflexivity].
    apply remove_request_in in Hin as [Hin _]. contradiction.
Qed.

Lemma TsA_settle_primary s rq o :
  well_formed s -> In rq (pending s) -> rq_stage rq = Primary ->
  falls_back_iff_empty s (TsA.step (EvSettle (rq_id rq) o) s) (effective s rq o).
Proof.
  intros W Hin Hst. unfold TsA.step. rewrite (settle_found _ _ _ _ W Hin).
  cbn [fst detached].
  set (s0 := set_pending (remove_request (rq_id rq) (pending s)) s).
  set (o' := effective s rq o).
  assert (Hne : pending s <> []) by (destruct (pending s); [destruct Hin|discriminate]).
  destruct (wf_attached _ W Hne) as [[h [v [Hh Hv]]] _].
  rewrite TsA_lookup_resume_spec, Hst.
  assert (Hquiet : forall s', quiet s0 s' ->
             ~ (zero_results o' /\ truthy (useFuzzyFallback (_config s)) = true) ->
             falls_back_iff_empty s s' o').
  { intros s' Hq Hno. split.
    - split; [intros [rq' Hi]; now apply (quiet_no_issue _ _ _ Hq) in Hi|tauto].
    - intros rq' Hi. now apply (quiet_no_issue _ _ _ Hq) in Hi. }
  destruct (TsA._fetchData_result rq o') as [l|e] eqn:Hres.
  - pose proof (TsA_result_zero _ _ _ Hres) as Hz.
    change (_config s0) with (_config s).
    destruct (length l =? 0)%nat eqn:Hl; cbn [andb].
    + destruct (truthy (useFuzzyFallback (_config s))) eqn:Hf.
      * unfold raw_params. change (_inputEl s0) with (_inputEl s). rewrite Hh.
        rewrite TsA_fetchData_spec.
        match goal with
        | |- context [fetch ?c ?ps Fuzzy (restart s0)] =>
            destruct (fetch_issued s (rq_id rq) c ps Fuzzy (restart s0) W)
              as [Hnew Honly];
              [now rewrite restart_pending
              |rewrite restart_next_id; simpl; lia|];
            pose proof (raw_params_fuzzy s0 ps) as Hfz
        end.
        unfold raw_params in Hfz. change (_inputEl s0) with (_inputEl s) in Hfz.
        rewrite Hh in Hfz. specialize (Hfz eq_refl).
        split.
        -- split; [intros _; split; [now apply Hz|exact Hf]|eauto].
        -- intros rq' Hi. rewrite (Honly rq' Hi). split; [reflexivity|exact Hfz].
      * apply Hquiet; [apply quiet_TsA_render|]. intros [_ H]. congruence.
    + apply Hquiet; [apply quiet_TsA_render|]. intros [H _].
      apply Hz in H. discriminate.
  - apply Hquiet; [apply quiet_TsA_catch|]. intros [Hzero _].
    unfold TsA._fetchData_result in Hres.
    apply (received_zero (fun _ => Error "Network response was not ok.")) in Hzero.
    rewrite Hzero in Hres. discriminate.
Qed.

Lemma received_length failure (o : Outcome (list Suggestion)) data :
  received failure o = Normal data ->
  ((length data =? 0)%nat = true <-> zero_results o).
Proof.
  intros H. rewrite <- (received_zero failure), H, Nat.eqb_eq. split.
  - intros Hl. destruct data; [reflexivity|discriminate].
  - intros [= ->]. reflexivity.
Qed.

Lemma Js_settle_primary s rq o :
  well_formed s -> In rq (pending s) -> rq_stage rq = Primary ->
  falls_back_iff_empty s (Js.step (EvSettle (rq_id rq) o) s) (effective s rq o).
Proof.
  intros W Hin Hst. unfold Js.step. rewrite (settle_found _ _ _ _ W Hin).
  cbn [fst detached].
  set (s0 := set_pending (remove_request (rq_id rq) (pending s)) s).
  set (o' := effective s rq o).
  assert (Hne : pending s <> []) by (destruct (pending s); [destruct Hin|discriminate]).
  destruct (wf_attached _ W Hne) as [[h [v [Hh Hv]]] Hsome].
  rewrite Js_lookup_resume_spec by exact Hsome. rewrite Hst.
  assert (Hquiet : forall s', quiet s0 s' ->
             ~ (zero_results o' /\ truthy (useFuzzyFallback (_config s)) = true) ->
             falls_back_iff_empty s s' o').
  { intros s' Hq Hno. split.
    - split; [intros [rq' Hi]; now apply (quiet_no_issue _ _ _ Hq) in Hi|tauto].
    - intros rq' Hi. now apply (quiet_no_issue _ _ _ Hq) in Hi. }
  assert (Hrender : forall l,
             quiet s0 (fst (try_catch (Js._renderSuggestions l) Js.lookup_catch s0))).
  { intros l. apply (respects_try_catch quiet quiet_trans); auto with quiet. }
  unfold Js._fetchData_result.
  destruct (received _ o') as [data|e] eqn:Hres.
  - pose proof (received_length _ _ _ Hres) as Hz.
    change (_config s0) with (_config s).
    destruct (length data =? 0)%nat eqn:Hl; cbn [andb].
    + destruct (truthy (useFuzzyFallback (_config s))) eqn:Hf.
      * assert (Hq : query_of s0 = Normal (Some (trim v))).
        { unfold query_of. change (_inputEl s0) with (_inputEl s).
          change (document s0) with (document s). now rewrite Hh, Hv. }
        destruct (trimmed_params true s0) as [ps|e] eqn:Hps;
          [|unfold trimmed_params in Hps; rewrite Hq in Hps; discriminate].
        destruct (fetch_issued s (rq_id rq) (_abortController s0) ps Fuzzy s0 W)
          as [Hnew Honly]; [reflexivity|simpl; lia|].
        split.
        -- split; [intros _; split; [now apply Hz|exact Hf]|eauto].
        -- intros rq' Hi. rewrite (Honly rq' Hi).
           split; [reflexivity|exact (trimmed_params_fuzzy _ _ Hps)].
      * apply Hquiet; [apply Hrender|]. intros [_ H]. congruence.
    + apply Hquiet; [apply Hrender|]. intros [H _].
      apply Hz in H. discriminate.
  - apply Hquiet; [apply quiet_Js_catch|]. intros [Hzero _].
    apply (received_zero
             (fun statusText => Error ("API request failed: " +:+ statusText)))
      in Hzero.
    rewrite Hzero in Hres. discriminate.
Qed.

Lemma all_fuzzy_tag data : all_fuzzy (List.map TsB.tag_fuzzy data).
Proof.
  apply List.Forall_forall. intros x Hx.
  apply in_map_iff in Hx as [y [<- _]]. reflexivity.
Qed.

Lemma tag_if_any data :
  (if (0 <? length data)%nat then List.map TsB.tag_fuzzy data else data)
  = List.map TsB.tag_fuzzy data.
Proof. destruct data; reflexivity. Qed.

Lemma TsA_settle_fuzzy s rq o statusText data :
  well_formed s -> In rq (pending s) -> rq_stage rq = Fuzzy ->
  effective s rq o = Response true statusText (Normal data) ->
  rendered (TsA.step (EvSettle (rq_id rq) o) s) = List.map TsB.tag_fuzzy data.
Proof.
  intros W Hin Hst Ho. unfold TsA.step. rewrite (settle_found _ _ _ _ W Hin).
  cbn [fst detached]. rewrite TsA_lookup_resume_spec, Hst, Ho.
  unfold TsA._fetchData_result. cbn [received cbind].
  rewrite (wf_fuzzy _ W _ Hin Hst), TsA_render_spec.
  assert (Hne : pending s <> []) by (destruct (pending s); [destruct Hin|discriminate]).
  destruct (wf_attached _ W Hne) as [Hat _].
  destruct (wf_list _ W Hat) as [l Hl]. cbn [_suggestionsEl set_pending].
  rewrite Hl. reflexivity.
Qed.

Lemma Js_settle_fuzzy s rq o statusText data :
  well_formed s -> In rq (pending s) -> rq_stage rq = Fuzzy ->
  effective s rq o = Response true statusText (Normal data) ->
  rendered (Js.step (EvSettle (rq_id rq) o) s) = List.map TsB.tag_fuzzy data.
Proof.
  intros W Hin Hst Ho. unfold Js.step. rewrite (settle_found _ _ _ _ W Hin).
  cbn [fst detached].
  assert (Hne : pending s <> []) by (destruct (pending s); [destruct Hin|discriminate]).
  destruct (wf_attached _ W Hne) as [Hat Hsome].
  rewrite Js_lookup_resume_spec by exact Hsome. rewrite Hst, Ho.
  unfold Js._fetchData_result. cbn [received].
  unfold try_catch. rewrite Js_render_spec, tag_if_any.
  destruct (wf_list _ W Hat) as [l Hl]. cbn [_suggestionsEl set_pending].
  rewrite Hl. reflexivity.
Qed.

(** X30: in the states that the documented class and the JavaScript class
    reach from one assignment of their configuration: when a primary
    request settles, a second request is issued exactly when the result
    delivered to the lookup is an empty list and the fuzzy flag is on - so
    never with the flag off - and that request is the fuzzy one; and when a
    fuzzy request comes back with results, the suggestions rendered are
    those results, every one of them marked fuzzy. *)
Theorem fuzzy_fallback :
  (forall s rq o, reachable TsA.config TsA.step s ->
     In rq (pending s) -> rq_stage rq = Primary ->
     falls_back_iff_empty s (TsA.step (EvSettle (rq_id rq) o) s) (effective s rq o)) /\
  (forall s rq o, reachable Js.config Js.step s ->
     In rq (pending s) -> rq_stage rq = Primary ->
     falls_back_iff_empty s (Js.step (EvSettle (rq_id rq) o) s) (effective s rq o)) /\
  (forall s rq o statusText data, reachable TsA.config TsA.step s ->
     In rq (pending s) -> rq_stage rq = Fuzzy ->
     effective s rq o = Response true statusText (Normal data) ->
     rendered (TsA.step (EvSettle (rq_id rq) o) s) = List.map TsB.tag_fuzzy data /\
     all_fuzzy (rendered (TsA.step (EvSettle (rq_id rq) o) s))) /\
  (forall s rq o statusText data, reachable Js.config Js.step s ->
     In rq (pending s) -> rq_stage rq = Fuzzy ->
     effective s rq o = Response true statusText (Normal data) ->
     rendered (Js.step (EvSettle (rq_id rq) o) s) = List.map TsB.tag_fuzzy data /\
     all_fuzzy (rendered (Js.step (EvSettle (rq_id rq) o) s))).
Proof.
  split; [|split; [|split]].
  - intros s rq o Hr. apply TsA_settle_primary. now apply TsA_reachable_well_formed.
  - intros s rq o Hr. apply Js_settle_primary. now apply Js_reachable_well_formed.
  - intros s rq o statusText data Hr Hin Hst Ho.
    rewrite (TsA_settle_fuzzy _ _ _ _ _ (TsA_reachable_well_formed _ Hr) Hin Hst Ho).
    split; [reflexivity|apply all_fuzzy_tag].
  - intros s rq o statusText data Hr Hin Hst Ho.
    rewrite (Js_settle_fuzzy _ _ _ _ _ (Js_reachable_well_formed _ Hr) Hin Hst Ho).
    split; [reflexivity|apply all_fuzzy_tag].
Qed.

Lemma fuzzy_fallback_witness :
  (exists rq', issued TsA_looking
                 (TsA.step (EvSettle 1 (Response true "OK" (Normal []))) TsA_looking) rq') /\
  rendered (Js.step (EvSettle 2 (Response true "OK" (Normal three_suggestions)))
              (Js.step (EvSettle 1 (Response true "OK" (Normal []))) Js_looking))
  = List.map TsB.tag_fuzzy three_suggestions.
Proof.
  destruct fuzzy_fallback as [Hprimary [_ [_ Hfuzzy]]].
  split.
  - assert (Hreach : reachable TsA.config TsA.step TsA_looking).
    { apply reachable_run. constructor. }
    apply (Hprimary TsA_looking
             (mkRequest 1 (Some 0%nat)
                [("q", "Gren"); ("type", "adresse"); ("per_side", "10")] Primary)
             (Response true "OK" (Normal [])) Hreach).
    + vm_compute. left. reflexivity.
    + reflexivity.
    + split; [exists "OK"; vm_compute; reflexivity|vm_compute; reflexivity].
  - assert (Hreach : reachable Js.config Js.step
                       (Js.step (EvSettle 1 (Response true "OK" (Normal []))) Js_looking)).
    { constructor. apply reachable_run. constructor. }
    apply (Hfuzzy _ (mkRequest 2 (Some 0%nat) [("q", "Gren"); ("fuzzy", "true")] Fuzzy)
             (Response true "OK" (Normal three_suggestions)) "OK" three_suggestions Hreach).
    + vm_compute. left. reflexivity.
    + reflexivity.
    + vm_compute. reflexivity.
Defined.


(** ** The query text in the two trimming classes *)

Lemma restart_same s :
  _inputEl (restart s) = _inputEl s /\ document (restart s) = document s /\
  _config (restart s) = _config s /\ _suggestionsEl (restart s) = _suggestionsEl s.
Proof.
  unfold restart, abort_current, new_controller, modify. simpl.
  destruct (_abortController s); repeat split.
Qed.

Lemma query_of_restart s : query_of (restart s) = query_of s.
Proof.
  destruct (restart_same s) as [Hi [Hd _]]. unfold query_of. now rewrite Hi, Hd.
Qed.

Lemma assoc_params_delete k k' ps :
  k <> k' -> assoc k (params_delete k' ps) = assoc k ps.
Proof.
  intros Hne. unfold params_delete.
  induction ps as [|[k0 v0] ps IH]; simpl; [reflexivity|].
  destruct (String.eqb_spec k0 k') as [->|Hne0]; simpl.
  - destruct (String.eqb_spec k k'); [congruence|exact IH].
  - now rewrite IH.
Qed.

Lemma assoc_params_set_ne k k' v ps :
  k <> k' -> assoc k (params_set k' v ps) = assoc k ps.
Proof.
  intros Hne. induction ps as [|[k0 v0] ps IH]; simpl.
  - destruct (String.eqb_spec k k'); [congruence|reflexivity].
  - destruct (String.eqb_spec k0 k') as [->|Hne0]; simpl.
    + destruct (String.eqb_spec k k'); [congruence|].
      now apply assoc_params_delete.
    + now rewrite IH.
Qed.

Lemma assoc_none_keys {A} k (l : list (string * A)) kv :
  assoc k l = None -> In kv l -> k <> fst kv.
Proof.
  induction l as [|[k0 v0] l IH]; simpl; intros Hn Hin; [destruct Hin|].
  destruct (String.eqb_spec k k0) as [->|Hne]; [discriminate|].
  destruct Hin as [<-|Hin]; [exact Hne|now apply IH].
Qed.

Lemma fold_params_set_other k x keys : forall init,
  (forall kv : string * JsVal, In kv keys -> k <> fst kv) ->
  assoc k init = Some x ->
  assoc k (fold_left (fun ps kv => params_set (fst kv) (ToString (snd kv)) ps)
             keys init) = Some x.
Proof.
  induction keys as [|kv keys IH]; intros init Hkeys Hinit; [exact Hinit|].
  cbn [fold_left]. apply IH.
  - intros kv' Hin. apply Hkeys. now right.
  - rewrite assoc_params_set_ne; [exact Hinit|]. apply Hkeys. now left.
Qed.

Lemma trimmed_params_q s h v :
  _inputEl s = Some h -> element_of (document s) h = FormControl v ->
  trim v <> "" -> assoc "q" (request_keys (_config s)) = None ->
  exists ps, trimmed_params false s = Normal ps /\
             params_get "q" ps = Some (trim v).
Proof.
  intros Hh Hv Hne Hq. unfold trimmed_params, query_of. rewrite Hh, Hv.
  cbn [get_value cbind TsB.no_query].
  destruct (String.eqb_spec (trim v) "") as [He|_]; [contradiction|].
  eexists. split; [reflexivity|]. unfold params_get.
  apply fold_params_set_other.
  - intros kv. now apply assoc_none_keys.
  - reflexivity.
Qed.

(** X5: in the bundled TypeScript class and in the JavaScript class, a
    blank search text issues no request and empties and hides the list, and
    any other text is sent trimmed as [q] (when the configuration itself
    holds no key [q]). *)
Lemma trimming_classes_query s h v :
  _inputEl s = Some h -> element_of (document s) h = FormControl v ->
  (trim v = "" ->
   (pending (fst (TsB.lookup s)) = pending s /\
    rendered (fst (TsB.lookup s)) = [] /\
    list_visible (fst (TsB.lookup s)) = false) /\
   (pending (fst (Js.lookup s)) = pending s /\
    rendered (fst (Js.lookup s)) = [] /\
    list_visible (fst (Js.lookup s)) = false)) /\
  (trim v <> "" -> assoc "q" (request_keys (_config s)) = None ->
   (exists rq, pending (fst (TsB.lookup s)) = (pending s ++ [rq])%list /\
               params_get "q" (rq_params rq) = Some (trim v)) /\
   (exists rq, pending (fst (Js.lookup s)) = (pending s ++ [rq])%list /\
               params_get "q" (rq_params rq) = Some (trim v))).
Proof.
  intros Hh Hv.
  assert (Hq : query_of (restart s) = Normal (Some (trim v))).
  { rewrite query_of_restart. unfold query_of. now rewrite Hh, Hv. }
  rewrite TsB_lookup_spec, Js_lookup_spec, Hq.
  pose proof (restart_pending s) as Hp.
  destruct (restart_same s) as [Hi [Hd [Hc Hl]]].
  rewrite <- Hi, <- Hd in *. rewrite <- Hc. clear Hq Hi Hd Hc Hl.
  rewrite <- Hp. clear Hp. generalize dependent (restart s). clear s.
  intros s Hh Hv. split.
  - intros ->. cbn [TsB.no_query String.eqb].
    rewrite TsA_render_spec, Js_render_spec. unfold rendered, list_visible.
    destruct (_suggestionsEl s) eqn:Hs; simpl; rewrite ?Hs; repeat split.
  - intros Hne Hnoq. cbn [TsB.no_query].
    destruct (String.eqb_spec (trim v) "") as [He|_]; [contradiction|].
    destruct (trimmed_params_q s h v Hh Hv Hne Hnoq) as [ps [Hps Hget]].
    rewrite Hps, !fetch_pending.
    split; eexists; (split; [reflexivity|exact Hget]).
Qed.

(** * Properties of the remaining code *)

(** ** The two path resolvers side by side *)

Lemma resolvers_agree inherited parts : forall obj v,
  truthy v = true ->
  (reduce (getValue_step inherited) parts obj = Normal v <->
   reduce (rawValue_step inherited) parts obj = Normal v).
Proof.
  induction parts as [|p parts IH]; intros obj v Hv; cbn [reduce]; [tauto|].
  unfold getValue_step at 1, rawValue_step at 1.
  destruct (truthy obj) eqn:Ho.
  - destruct (get_member inherited obj p) as [x|e]; cbn [cbind];
      [|split; discriminate].
    destruct (nullish x) eqn:Hn; cbn [negb cbind].
    + assert (Hf : truthy x = false)
        by (destruct x; try discriminate; reflexivity).
      rewrite (reduce_getValue_falsy _ parts _ Hf), reduce_rawValue_empty.
      split; intros [= <-]; [congruence|discriminate].
    + now apply IH.
  - cbn [cbind].
    rewrite (reduce_getValue_falsy _ parts _ Ho), reduce_rawValue_empty.
    split; intros [= <-]; [congruence|discriminate].
Qed.

(** X1: the resolver of the TypeScript classes and the one inside the
    JavaScript [_populate] find the same truthy values, inherited members
    included: one of them yields a truthy [v] for a record and a path
    exactly when the other one does. *)
Theorem resolvers_agree_on_truthy (inherited : Realm) (obj : JsVal)
    (path : string) (v : JsVal) :
  truthy v = true ->
  (_getValue inherited obj path = Normal v <->
   rawValue inherited obj path = Normal v).
Proof. intros Hv. unfold _getValue, rawValue. now apply resolvers_agree. Qed.

Lemma resolvers_agree_on_truthy_witness :
  truthy (JStr "8541") = true /\
  rawValue sample_realm sample_record "adgangsadresse.postnummer.nr"
  = Normal (JStr "8541").
Proof.
  split; [reflexivity|].
  apply (resolvers_agree_on_truthy sample_realm sample_record
           "adgangsadresse.postnummer.nr" (JStr "8541")); reflexivity.
Defined.

Lemma split_dotless a : dotless a = true -> split "." a = [a].
Proof.
  induction a as [|c a IH]; cbn [dotless split]; [reflexivity|].
  intros H. apply andb_prop in H as [Hc Ha].
  apply negb_true_iff in Hc. rewrite Hc, (IH Ha). reflexivity.
Qed.

Lemma split_append_dotless a rest :
  dotless a = true -> split "." (a +:+ "." +:+ rest) = a :: split "." rest.
Proof.
  induction a as [|c a IH]; cbn [dotless]; intros H.
  - reflexivity.
  - apply andb_prop in H as [Hc Ha]. apply negb_true_iff in Hc.
    change (String c a +:+ "." +:+ rest) with (String c (a +:+ "." +:+ rest)).
    cbn [split]. rewrite Hc, (IH Ha). reflexivity.
Qed.

Lemma split_join parts :
  parts <> [] -> forallb dotless parts = true ->
  split "." (join "." parts) = parts.
Proof.
  induction parts as [|a parts IH]; [congruence|]. intros _ H.
  cbn [forallb] in H. apply andb_prop in H as [Ha Hparts].
  destruct parts as [|b parts].
  - cbn [join]. now apply split_dotless.
  - change (join "." (a :: b :: parts)) with (a +:+ "." +:+ join "." (b :: parts)).
    rewrite (split_append_dotless _ _ Ha). f_equal.
    apply IH; [discriminate|exact Hparts].
Qed.

Lemma get_member_nest inherited p x :
  get_member inherited (JObj [(p, x)]) p = Normal x.
Proof.
  rewrite get_member_own; [| reflexivity |].
  - cbn [own_prop assoc]. now rewrite String.eqb_refl.
  - cbn [has_own assoc]. rewrite String.eqb_refl. apply bool_decide_eq_true. eauto.
Qed.

Lemma reduce_getValue_nest inherited parts v :
  reduce (getValue_step inherited) parts (nest parts v) = Normal v.
Proof.
  induction parts as [|p parts IH]; cbn [reduce nest]; [reflexivity|].
  unfold getValue_step at 1. cbn [truthy]. rewrite get_member_nest.
  exact IH.
Qed.

Lemma reduce_rawValue_nest inherited parts v :
  parts <> [] ->
  reduce (rawValue_step inherited) parts (nest parts v)
    = Normal (if nullish v then JStr "" else v).
Proof.
  induction parts as [|p parts IH]; [congruence|]. intros _.
  cbn [reduce nest]. unfold rawValue_step at 1. cbn [truthy].
  rewrite get_member_nest. cbn [cbind].
  destruct parts as [|q parts].
  - cbn [nest reduce]. now destruct (nullish v).
  - cbn [nest nullish negb cbind]. apply IH. discriminate.
Qed.

(** X2: a value stored in a record under a dot-separated path is what the
    path resolves to, whatever the record inherits: [_getValue] gives back
    the value as it is, the resolver of the JavaScript [_populate] gives it
    back unless it is [null] or [undefined], which it turns into the empty
    string. *)
Theorem path_round_trip (inherited : Realm) (parts : list string) (v : JsVal) :
  parts <> [] -> forallb dotless parts = true ->
  _getValue inherited (nest parts v) (join "." parts) = Normal v /\
  rawValue inherited (nest parts v) (join "." parts)
    = Normal (if nullish v then JStr "" else v).
Proof.
  intros Hne Hd. unfold _getValue, rawValue. rewrite (split_join _ Hne Hd).
  split; [apply reduce_getValue_nest|now apply reduce_rawValue_nest].
Qed.

Lemma path_round_trip_witness :
  _getValue sample_realm (nest ["constructor"; "postnummer"] JNull)
    "constructor.postnummer" = Normal JNull /\
  rawValue sample_realm (nest ["constructor"; "postnummer"] JNull)
    "constructor.postnummer" = Normal (JStr "").
Proof.
  apply (path_round_trip sample_realm ["constructor"; "postnummer"] JNull);
    [discriminate|reflexivity].
Defined.


(** ** The request parameters *)

Lemma assoc_in_keys {A} k (l : list (string * A)) :
  is_Some (assoc k l) <-> In k (List.map fst l).
Proof.
  induction l as [|[k0 v0] l IH]; simpl.
  - split; [intros [x Hx]; discriminate|tauto].
  - destruct (String.eqb_spec k k0) as [->|Hne].
    + split; [now left|eauto].
    + rewrite IH. split; [now right|]. intros [Heq|Hin]; [congruence|exact Hin].
Qed.

Lemma assoc_params_set k k' v ps :
  assoc k (params_set k' v ps) = if String.eqb k k' then Some v else assoc k ps.
Proof.
  destruct (String.eqb_spec k k') as [->|Hne].
  - induction ps as [|[k0 v0] ps IH]; simpl.
    + now rewrite String.eqb_refl.
    + destruct (String.eqb_spec k0 k') as [->|Hne0]; simpl.
      * now rewrite String.eqb_refl.
      * destruct (String.eqb_spec k' k0); [congruence|exact IH].
  - now apply assoc_params_set_ne.
Qed.

Lemma params_set_unique k v ps :
  unique_keys ps -> unique_keys (params_set k v ps).
Proof.
  unfold unique_keys. rewrite !NoDup_ListNoDup.
  induction ps as [|[k0 v0] ps IH]; simpl; intros Hnd.
  - apply NoDup_cons_iff. split; [intros []|constructor].
  - apply NoDup_cons_iff in Hnd as [Hnotin Hnd].
    destruct (String.eqb_spec k0 k) as [->|Hne]; simpl.
    + apply NoDup_cons_iff. split.
      * intros Hin. apply Hnotin. apply in_map_iff in Hin as [y [Hy Hin]].
        apply filter_In in Hin as [Hin _]. apply in_map_iff. eauto.
      * unfold params_delete. now apply NoDup_map_filter.
    + apply NoDup_cons_iff. split; [|now apply IH].
      intros Hin. apply assoc_in_keys in Hin.
      rewrite assoc_params_set in Hin.
      destruct (String.eqb_spec k0 k); [congruence|].
      apply Hnotin. now apply assoc_in_keys.
Qed.

Lemma fold_params_set_unique keys : forall init,
  unique_keys init ->
  unique_keys (fold_left (fun ps kv => params_set (fst kv) (ToString (snd kv)) ps)
                 keys init).
Proof.
  induction keys as [|kv keys IH]; intros init Hu; [exact Hu|].
  cbn [fold_left]. apply IH. now apply params_set_unique.
Qed.

(** Setting the keys of an object one after the other: a key of the object
    ends up with its value, any other name keeps what it had. *)
Lemma assoc_fold_params_set k keys : forall init,
  unique_keys keys ->
  assoc k (fold_left (fun ps kv => params_set (fst kv) (ToString (snd kv)) ps)
             keys init)
    = match assoc k keys with
      | Some x => Some (ToString x)
      | None => assoc k init
      end.
Proof.
  induction keys as [|[k0 x0] keys IH]; intros init Hu; [reflexivity|].
  apply NoDup_ListNoDup, NoDup_cons_iff in Hu as [Hnotin Hu].
  apply NoDup_ListNoDup in Hu.
  cbn [fold_left fst snd assoc]. rewrite (IH _ Hu), assoc_params_set.
  destruct (String.eqb_spec k k0) as [->|Hne]; [|reflexivity].
  now rewrite (assoc_not_in k0 keys Hnotin).
Qed.

Lemma assoc_filter_keys {A} (f : string -> bool) k (l : list (string * A)) :
  assoc k (List.filter (fun kv => f (fst kv)) l)
    = if f k then assoc k l else None.
Proof.
  induction l as [|[k0 v0] l IH]; simpl; [now destruct (f k)|].
  destruct (f k0) eqn:Hk0; simpl.
  - destruct (String.eqb_spec k k0) as [->|Hne]; [now rewrite Hk0|exact IH].
  - rewrite IH. destruct (String.eqb_spec k k0) as [->|Hne]; [|reflexivity].
    now rewrite Hk0.
Qed.

Lemma assoc_request_keys k c :
  assoc k (request_keys c)
    = if negb (String.eqb k "ui") && negb (String.eqb k "useFuzzyFallback")
      then assoc k (cfg_props c) else None.
Proof.
  unfold request_keys.
  exact (assoc_filter_keys
           (fun k => negb (String.eqb k "ui") && negb (String.eqb k "useFuzzyFallback"))
           k (cfg_props c)).
Qed.

Lemma request_keys_unique c :
  unique_keys (cfg_props c) -> unique_keys (request_keys c).
Proof.
  unfold unique_keys, request_keys. rewrite !NoDup_ListNoDup.
  apply NoDup_map_filter.
Qed.

Lemma params_has_assoc k ps : params_has k ps = true <-> is_Some (assoc k ps).
Proof. unfold params_has. apply bool_decide_eq_true. Qed.

Lemma params_has_none k ps : assoc k ps = None -> params_has k ps = false.
Proof.
  intros H. unfold params_has. apply bool_decide_eq_false. rewrite H.
  intros [x Hx]. discriminate.
Qed.

(** X3: the parameters built by the bundled TypeScript class and by the
    JavaScript class (they build the same ones): every name occurs once;
    [ui] and [useFuzzyFallback] are never sent; every other key of the
    configuration is sent under its own name with its value as a string; a
    fuzzy request carries [fuzzy=true]; and nothing is sent beside [q],
    [fuzzy] and the keys of the configuration. *)
Theorem passed_on_parameters (isFuzzy : bool) (s : State) (h : nat) (v : string) :
  _inputEl s = Some h -> element_of (document s) h = FormControl v ->
  unique_keys (cfg_props (_config s)) ->
  exists ps,
    TsB._buildQueryParameters isFuzzy s = (s, Normal ps) /\
    Js._buildQueryParameters isFuzzy s = (s, Normal ps) /\
    unique_keys ps /\
    params_has "ui" ps = false /\
    params_has "useFuzzyFallback" ps = false /\
    (forall key value,
        key <> "ui" -> key <> "useFuzzyFallback" ->
        assoc key (cfg_props (_config s)) = Some value ->
        (isFuzzy = true -> key <> "fuzzy") ->
        params_get key ps = Some (ToString value)) /\
    (isFuzzy = true -> params_get "fuzzy" ps = Some "true") /\
    (forall key,
        params_has key ps = true ->
        key = "q" \/ (key = "fuzzy" /\ isFuzzy = true) \/
        is_Some (assoc key (cfg_props (_config s)))).
Proof.
  intros Hh Hv Hu.
  pose proof (request_keys_unique _ Hu) as Hur.
  rewrite TsB_build_spec, Js_build_spec.
  unfold trimmed_params, query_of. rewrite Hh, Hv. cbn [get_value cbind].
  match goal with
  | |- context [fold_left ?f ?keys ?i] =>
      set (init := i); set (params := fold_left f keys init)
  end.
  assert (Hinit : unique_keys init).
  { unfold init. destruct (TsB.no_query _); [constructor|].
    apply params_set_unique. constructor. }
  assert (Hinit_keys : forall key, is_Some (assoc key init) -> key = "q").
  { unfold init. intros key. destruct (TsB.no_query _); simpl.
    - intros [x Hx]. discriminate.
    - destruct (String.eqb_spec key "q"); [tauto|]. intros [x Hx]. discriminate. }
  assert (Hparams : forall key,
             assoc key params
               = match assoc key (request_keys (_config s)) with
                 | Some x => Some (ToString x)
                 | None => assoc key init
                 end)
    by (intros key; apply assoc_fold_params_set; exact Hur).
  assert (Hup : unique_keys params) by now apply fold_params_set_unique.
  assert (Hfinal : forall key,
             assoc key (if isFuzzy then params_set "fuzzy" "true" params else params)
               = if isFuzzy && String.eqb key "fuzzy" then Some "true"
                 else assoc key params).
  { intros key. destruct isFuzzy; [|reflexivity]. apply assoc_params_set. }
  eexists. split; [reflexivity|]. split; [reflexivity|].
  split; [destruct isFuzzy; [now apply params_set_unique|exact Hup]|].
  split.
  { apply params_has_none. rewrite Hfinal, Hparams, assoc_request_keys.
    rewrite andb_false_r. cbn [String.eqb Ascii.eqb Bool.eqb negb andb].
    destruct (assoc "ui" init) eqn:Hi; [|reflexivity].
    discriminate (Hinit_keys "ui" (ex_intro _ _ Hi)). }
  split.
  { apply params_has_none. rewrite Hfinal, Hparams, assoc_request_keys.
    rewrite andb_false_r. cbn [String.eqb Ascii.eqb Bool.eqb negb andb].
    destruct (assoc "useFuzzyFallback" init) eqn:Hi; [|reflexivity].
    discriminate (Hinit_keys "useFuzzyFallback" (ex_intro _ _ Hi)). }
  split.
  { intros key value Hui Hff Hk Hfz. unfold params_get.
    rewrite Hfinal, Hparams, assoc_request_keys, Hk.
    destruct (String.eqb_spec key "ui"); [contradiction|].
    destruct (String.eqb_spec key "useFuzzyFallback"); [contradiction|].
    cbn [negb andb].
    destruct isFuzzy; [|reflexivity].
    destruct (String.eqb_spec key "fuzzy") as [->|_]; [|reflexivity].
    now destruct Hfz. }
  split.
  { intros ->. unfold params_get. now rewrite Hfinal. }
  intros key Hhas. apply params_has_assoc in Hhas.
  rewrite Hfinal in Hhas.
  destruct (String.eqb_spec key "fuzzy") as [Heq|Hnf].
  - subst key. destruct isFuzzy; [right; left; split; reflexivity|].
    cbn [andb] in Hhas. rewrite Hparams, assoc_request_keys in Hhas.
    cbn [String.eqb Ascii.eqb Bool.eqb negb andb] in Hhas.
    destruct (assoc "fuzzy" (cfg_props (_config s))) eqn:Hc; [right; right; eauto|].
    discriminate (Hinit_keys "fuzzy" Hhas).
  - rewrite andb_false_r, Hparams, assoc_request_keys in Hhas.
    destruct (negb (String.eqb key "ui") && negb (String.eqb key "useFuzzyFallback")).
    + destruct (assoc key (cfg_props (_config s))) eqn:Hc; [right; right; eauto|].
      left. now apply Hinit_keys.
    + left. now apply Hinit_keys.
Qed.

Lemma passed_on_parameters_witness :
  exists ps,
    TsB._buildQueryParameters true (started TsB.config demo_config " Gren ")
      = (started TsB.config demo_config " Gren ", Normal ps) /\
    params_get "per_side" ps = Some "7" /\
    params_get "fuzzy" ps = Some "true".
Proof.
  destruct (passed_on_parameters true (started TsB.config demo_config " Gren ")
              0%nat " Gren ")
    as [ps [Hb [_ [_ [_ [_ [Hkeys [Hfuzzy _]]]]]]]].
  - reflexivity.
  - vm_compute. reflexivity.
  - apply (bool_decide_unpack _). vm_compute. exact I.
  - exists ps. split; [exact Hb|]. split.
    + apply (Hkeys "per_side" (JNum "7")); try discriminate. vm_compute. reflexivity.
    + now apply Hfuzzy.
Defined.

Lemma fold_params_append keys : forall init,
  fold_left (fun ps kv => params_append (fst kv) (ToString (snd kv)) ps) keys init
    = (init ++ List.map (fun kv : string * JsVal => (fst kv, ToString (snd kv))) keys)%list.
Proof.
  induction keys as [|kv keys IH]; intros init; cbn [fold_left List.map].
  - now rewrite app_nil_r.
  - rewrite IH. unfold params_append. now rewrite <- app_assoc.
Qed.

Lemma assoc_app {A} k (l l' : list (string * A)) :
  assoc k (l ++ l') = match assoc k l with
                      | Some x => Some x
                      | None => assoc k l'
                      end.
Proof.
  induction l as [|[k0 v0] l IH]; simpl; [reflexivity|].
  destruct (String.eqb k k0); [reflexivity|exact IH].
Qed.

Lemma assoc_map_values {A B} (f : A -> B) k (l : list (string * A)) :
  assoc k (List.map (fun kv => (fst kv, f (snd kv))) l) = f <$> assoc k l.
Proof.
  induction l as [|[k0 v0] l IH]; simpl; [reflexivity|].
  destruct (String.eqb k k0); [reflexivity|exact IH].
Qed.

(** X4: the parameters built by the documented class: the raw text of the
    search field as [q], [type=adresse] and [per_side=10], then [fuzzy] for
    a fuzzy request, then one entry for every key of the configuration
    other than [ui] and [useFuzzyFallback], in the configuration's order.
    The configured keys are added, not set: a configured [type] or
    [per_side] comes after the built-in entry, which is the one [get]
    returns. *)
Theorem documented_class_parameters (isFuzzy : bool) (s : State) (h : nat) (v : string) :
  _inputEl s = Some h -> element_of (document s) h = FormControl v ->
  exists ps,
    TsA._buildQueryParameters isFuzzy s = (s, Normal ps) /\
    ps = (base_params v isFuzzy
          ++ List.map (fun kv => (fst kv, ToString (snd kv)))
               (request_keys (_config s)))%list /\
    params_get "q" ps = Some v /\
    params_get "type" ps = Some "adresse" /\
    params_get "per_side" ps = Some "10" /\
    params_has "fuzzy" ps
      = isFuzzy || bool_decide (is_Some (assoc "fuzzy" (cfg_props (_config s)))) /\
    params_has "ui" ps = false /\
    params_has "useFuzzyFallback" ps = false.
Proof.
  intros Hh Hv. rewrite TsA_build_spec. unfold raw_params. rewrite Hh, Hv.
  cbn [get_value ToString]. rewrite fold_params_append.
  eexists. split; [reflexivity|]. split; [reflexivity|].
  assert (Hkeys : forall k,
             assoc k (List.map (fun kv : string * JsVal => (fst kv, ToString (snd kv)))
                        (request_keys (_config s)))
               = ToString <$> (if negb (String.eqb k "ui")
                                  && negb (String.eqb k "useFuzzyFallback")
                               then assoc k (cfg_props (_config s)) else None)).
  { intros k. now rewrite (assoc_map_values ToString), assoc_request_keys. }
  unfold params_get, params_has.
  split; [reflexivity|]. split; [reflexivity|]. split; [reflexivity|].
  split.
  { rewrite assoc_app. destruct isFuzzy; [reflexivity|].
    cbn [assoc app String.eqb Ascii.eqb Bool.eqb orb]. rewrite Hkeys.
    cbn [String.eqb Ascii.eqb Bool.eqb negb andb].
    destruct (assoc "fuzzy" (cfg_props (_config s))); reflexivity. }
  split.
  - apply bool_decide_eq_false. rewrite assoc_app.
    destruct isFuzzy; cbn [assoc app String.eqb Ascii.eqb Bool.eqb];
      rewrite Hkeys; cbn [String.eqb Ascii.eqb Bool.eqb negb andb];
      intros [x Hx]; discriminate.
  - apply bool_decide_eq_false. rewrite assoc_app.
    destruct isFuzzy; cbn [assoc app String.eqb Ascii.eqb Bool.eqb];
      rewrite Hkeys; cbn [String.eqb Ascii.eqb Bool.eqb negb andb];
      intros [x Hx]; discriminate.
Qed.

Lemma documented_class_parameters_witness :
  exists ps,
    TsA._buildQueryParameters false (started TsA.config demo_config "Gren")
      = (started TsA.config demo_config "Gren", Normal ps) /\
    ps = [("q", "Gren"); ("type", "adresse"); ("per_side", "10"); ("per_side", "7")] /\
    params_get "per_side" ps = Some "10".
Proof.
  destruct (documented_class_parameters false (started TsA.config demo_config "Gren")
              0%nat "Gren")
    as [ps [Hb [Hps [_ [_ [Hside _]]]]]].
  - reflexivity.
  - vm_compute. reflexivity.
  - exists ps. split; [exact Hb|]. split; [|exact Hside].
    rewrite Hps. vm_compute. reflexivity.
Defined.

Lemma trimming_classes_query_witness :
  trim "  " = "" /\
  pending (fst (TsB.lookup (started TsB.config no_config "  "))) = [] /\
  exists rq,
    pending (fst (Js.lookup (started Js.config no_config " Gren "))) = [rq] /\
    params_get "q" (rq_params rq) = Some "Gren".
Proof.
  split; [reflexivity|]. split.
  - destruct (trimming_classes_query (started TsB.config no_config "  ") 0%nat "  ")
      as [Hblank _]; [reflexivity|vm_compute; reflexivity|].
    destruct Hblank as [[Hp _] _]; [reflexivity|]. exact Hp.
  - destruct (trimming_classes_query (started Js.config no_config " Gren ") 0%nat
                " Gren ")
      as [_ Htext]; [reflexivity|vm_compute; reflexivity|].
    destruct Htext as [_ [rq Hrq]]; [discriminate|reflexivity|].
    exists rq. exact Hrq.
Defined.

(** ** The keyboard *)

Lemma TsB_keydown_open key s :
  list_visible s = true -> rendered s <> [] ->
  TsB._handleKeydown key s =
    if String.eqb key "ArrowDown" then
      (set_highlightedIndex (Z.rem (_highlightedIndex s + 1) (count s)) s, Normal tt)
    else if String.eqb key "ArrowUp" then
      (set_highlightedIndex (Z.rem (_highlightedIndex s - 1 + count s) (count s)) s,
       Normal tt)
    else if String.eqb key "Enter" then
      if -1 <? _highlightedIndex s then
        match rendered s !! Z.to_nat (_highlightedIndex s) with
        | Some item => detached (TsB.select (Some item)) s
        | None => (s, Throw (TypeError "Cannot read properties of undefined (reading 'click')"))
        end
      else (s, Normal tt)
    else if String.eqb key "Escape" then TsA._hideSuggestions s
    else (s, Normal tt).
Proof.
  intros Hv Hne. unfold TsB._handleKeydown. rewrite run_gets_bind, Hv.
  cbn [negb]. rewrite run_gets_bind.
  destruct (length (rendered s) =? 0)%nat eqn:Hn.
  { apply Nat.eqb_eq in Hn. destruct (rendered s); [congruence|discriminate]. }
  destruct (String.eqb key "ArrowDown"); [reflexivity|].
  destruct (String.eqb key "ArrowUp"); [reflexivity|].
  destruct (String.eqb key "Enter").
  - rewrite run_gets_bind. destruct (-1 <? _highlightedIndex s); [|reflexivity].
    rewrite run_gets_bind.
    destruct (rendered s !! Z.to_nat (_highlightedIndex s)); reflexivity.
  - destruct (String.eqb key "Escape"); reflexivity.
Qed.

Lemma Js_keydown_open key s :
  list_visible s = true -> rendered s <> [] ->
  Js._handleKeydown key s =
    if String.eqb key "ArrowDown" then
      (set_highlightedIndex (Z.rem (_highlightedIndex s + 1) (count s)) s, Normal tt)
    else if String.eqb key "ArrowUp" then
      (set_highlightedIndex (Z.rem (_highlightedIndex s - 1 + count s) (count s)) s,
       Normal tt)
    else if String.eqb key "Enter" then
      if -1 <? _highlightedIndex s then
        match rendered s !! Z.to_nat (_highlightedIndex s) with
        | Some item => detached (Js.select (Some item)) s
        | None => (s, Throw (TypeError "Cannot read properties of undefined (reading 'click')"))
        end
      else (s, Normal tt)
    else if String.eqb key "Escape" then Js._hideSuggestions s
    else (s, Normal tt).
Proof.
  unfold list_visible, rendered, count, rendered. intros Hv Hne.
  unfold Js._handleKeydown. rewrite run_gets_bind.
  destruct (_suggestionsEl s) as [l|]; [|discriminate]. rewrite Hv. cbn [negb].
  destruct (length (items l) =? 0)%nat eqn:Hn.
  { apply Nat.eqb_eq in Hn. destruct (items l); [congruence|discriminate]. }
  destruct (String.eqb key "ArrowDown"); [reflexivity|].
  destruct (String.eqb key "ArrowUp"); [reflexivity|].
  destruct (String.eqb key "Enter").
  - rewrite run_gets_bind. destruct (-1 <? _highlightedIndex s); [|reflexivity].
    destruct (items l !! Z.to_nat (_highlightedIndex s)); reflexivity.
  - destruct (String.eqb key "Escape"); reflexivity.
Qed.

Lemma TsA_keydown_open key s :
  list_visible s = true -> rendered s <> [] ->
  TsA._handleKeydown key s =
    if String.eqb key "ArrowDown" then
      (set_highlightedIndex (Z.rem (_highlightedIndex s + 1) (count s)) s, Normal tt)
    else if String.eqb key "ArrowUp" then
      (set_highlightedIndex (Z.rem (_highlightedIndex s - 1 + count s) (count s)) s,
       Normal tt)
    else if String.eqb key "Enter" then
      if -1 <? _highlightedIndex s then
        detached
          (TsA.select
             (List.map (fun _ => empty_suggestion) (rendered s)
                !! Z.to_nat (_highlightedIndex s))) s
      else (s, Normal tt)
    else if String.eqb key "Escape" then TsA._hideSuggestions s
    else (s, Normal tt).
Proof.
  intros Hv Hne. unfold TsA._handleKeydown. rewrite run_gets_bind, Hv.
  cbn [negb]. rewrite run_gets_bind.
  destruct (length (rendered s) =? 0)%nat eqn:Hn.
  { apply Nat.eqb_eq in Hn. destruct (rendered s); [congruence|discriminate]. }
  destruct (String.eqb key "ArrowDown"); [reflexivity|].
  destruct (String.eqb key "ArrowUp"); [reflexivity|].
  destruct (String.eqb key "Enter").
  - rewrite run_gets_bind. destruct (-1 <? _highlightedIndex s); [|reflexivity].
    rewrite run_gets_bind. reflexivity.
  - destruct (String.eqb key "Escape"); reflexivity.
Qed.

Lemma keydown_closed s :
  closed s -> forall key,
  fst (TsA._handleKeydown key s) = s /\ fst (TsB._handleKeydown key s) = s /\
  fst (Js._handleKeydown key s) = s.
Proof.
  intros Hc key.
  assert (Hn : list_visible s = false \/ (length (rendered s) =? 0)%nat = true).
  { destruct Hc as [Hc|Hc]; [now left|right; now rewrite Hc]. }
  split; [|split].
  - unfold TsA._handleKeydown. rewrite run_gets_bind.
    destruct (list_visible s) eqn:Hv; [|reflexivity]. cbn [negb].
    rewrite run_gets_bind. destruct Hn as [Hn|Hn]; [discriminate|]. now rewrite Hn.
  - unfold TsB._handleKeydown. rewrite run_gets_bind.
    destruct (list_visible s) eqn:Hv; [|reflexivity]. cbn [negb].
    rewrite run_gets_bind. destruct Hn as [Hn|Hn]; [discriminate|]. now rewrite Hn.
  - unfold Js._handleKeydown. rewrite run_gets_bind.
    unfold list_visible, rendered in Hn.
    destruct (_suggestionsEl s) as [l|]; [|reflexivity].
    destruct (visible l); [|reflexivity]. cbn [negb].
    destruct Hn as [Hn|Hn]; [discriminate|]. now rewrite Hn.
Qed.

Lemma hide_open s :
  list_visible s = true ->
  fst (TsA._hideSuggestions s) = set_suggestionsEl (Some (mkList false (rendered s))) s /\
  fst (Js._hideSuggestions s) = set_suggestionsEl (Some (mkList false (rendered s))) s.
Proof.
  unfold list_visible, rendered, TsA._hideSuggestions, Js._hideSuggestions, modify.
  rewrite run_gets_bind.
  destruct (_suggestionsEl s) as [l|]; [|discriminate]. intros _. split; reflexivity.
Qed.

Lemma arrow_up_from_none n :
  (0 < n)%nat ->
  Z.rem (-1 - 1 + Z.of_nat n) (Z.of_nat n)
    = if (n =? 1)%nat then 0 else Z.of_nat n - 2.
Proof.
  intros Hn. destruct (n =? 1)%nat eqn:H1.
  - apply Nat.eqb_eq in H1. subst n. reflexivity.
  - apply Nat.eqb_neq in H1.
    replace (-1 - 1 + Z.of_nat n) with (Z.of_nat n - 2) by lia.
    apply Z.rem_small. lia.
Qed.

Lemma arrow_down_from_none n : (0 < n)%nat -> Z.rem (-1 + 1) (Z.of_nat n) = 0.
Proof. intros Hn. apply Z.rem_0_l. lia. Qed.


Lemma count_positive s : rendered s <> [] -> (0 < length (rendered s))%nat.
Proof. destruct (rendered s); [congruence|simpl; lia]. Qed.

Ltac other_key key :=
  repeat match goal with
         | H : key <> ?k |- _ => apply String.eqb_neq in H; rewrite H; clear H
         end.

Lemma TsB_keyboard_edges s : keyboard_edges TsB.step s.
Proof.
  split; [intros Hc key; apply (keydown_closed s Hc key)|].
  intros Hv Hne. pose proof (count_positive s Hne) as Hpos. unfold TsB.step.
  split; [|split].
  - intros Hi. rewrite !(TsB_keydown_open _ s Hv Hne), Hi. cbn.
    unfold count. rewrite arrow_down_from_none, arrow_up_from_none by exact Hpos.
    repeat split.
  - rewrite (TsB_keydown_open _ s Hv Hne). cbn. apply (hide_open s Hv).
  - intros key H1 H2 H3 H4. rewrite (TsB_keydown_open _ s Hv Hne).
    other_key key. reflexivity.
Qed.

Lemma Js_keyboard_edges s : keyboard_edges Js.step s.
Proof.
  split; [intros Hc key; apply (keydown_closed s Hc key)|].
  intros Hv Hne. pose proof (count_positive s Hne) as Hpos. unfold Js.step.
  split; [|split].
  - intros Hi. rewrite !(Js_keydown_open _ s Hv Hne), Hi. cbn.
    unfold count. rewrite arrow_down_from_none, arrow_up_from_none by exact Hpos.
    repeat split.
  - rewrite (Js_keydown_open _ s Hv Hne). cbn. apply (hide_open s Hv).
  - intros key H1 H2 H3 H4. rewrite (Js_keydown_open _ s Hv Hne).
    other_key key. reflexivity.
Qed.

Lemma TsA_keyboard_edges s : keyboard_edges TsA.step s.
Proof.
  split; [intros Hc key; apply (keydown_closed s Hc key)|].
  intros Hv Hne. pose proof (count_positive s Hne) as Hpos. unfold TsA.step.
  split; [|split].
  - intros Hi. rewrite !(TsA_keydown_open _ s Hv Hne), Hi. cbn.
    unfold count. rewrite arrow_down_from_none, arrow_up_from_none by exact Hpos.
    repeat split.
  - rewrite (TsA_keydown_open _ s Hv Hne). cbn. apply (hide_open s Hv).
  - intros key H1 H2 H3 H4. rewrite (TsA_keydown_open _ s Hv Hne).
    other_key key. reflexivity.
Qed.

(** X6: the keys at the edges, in all three classes.  While the list is
    hidden or empty no key has any effect.  On an open list with nothing
    highlighted the down arrow highlights the first item, the up arrow the
    last but one (the only item of a list of one), and Enter does nothing.
    Escape hides the list and leaves its items and the cursor as they are.
    A key other than the two arrows, Enter and Escape does nothing. *)
Theorem keyboard_at_the_edges (s : State) :
  keyboard_edges TsA.step s /\ keyboard_edges TsB.step s /\
  keyboard_edges Js.step s.
Proof.
  split; [apply TsA_keyboard_edges|].
  split; [apply TsB_keyboard_edges|apply Js_keyboard_edges].
Qed.

(** X7: in the bundled TypeScript class and in the JavaScript class, Enter
    on an open list with an item highlighted does what a click on that item
    does. *)
Theorem enter_is_click (s : State) (i : nat) :
  list_visible s = true -> _highlightedIndex s = Z.of_nat i ->
  (i < length (rendered s))%nat ->
  TsB.step (EvKeydown "Enter") s = TsB.step (EvClickItem i) s /\
  Js.step (EvKeydown "Enter") s = Js.step (EvClickItem i) s.
Proof.
  intros Hv Hi Hlt.
  assert (Hne : rendered s <> []) by (destruct (rendered s); [simpl in Hlt; lia|discriminate]).
  destruct (lookup_lt_is_Some_2 (rendered s) i Hlt) as [item Hitem].
  unfold TsB.step, Js.step.
  rewrite (TsB_keydown_open _ s Hv Hne), (Js_keydown_open _ s Hv Hne), Hi.
  cbn [String.eqb Ascii.eqb Bool.eqb].
  replace (-1 <? Z.of_nat i) with true by (symmetry; apply Z.ltb_lt; lia).
  rewrite Nat2Z.id, Hitem. split; reflexivity.
Qed.

Lemma TsA_select_dispatched item s :
  dispatched (fst (TsA.select (Some item) s))
    = (dispatched s ++ [select_event (JObj [("address", adresse item)])])%list.
Proof.
  assert (Hd : forall data, preserves dispatched (TsA._populate data))
    by (intros data; unfold TsA._populate; frame).
  unfold TsA.select, TsA._hideSuggestions, dispatchEvent.
  rewrite !run_modify_bind, run_gets_bind.
  match goal with
  | |- context [set_dispatched ?d ?st] => set (s2 := set_dispatched d st)
  end.
  assert (H2 : dispatched s2
               = (dispatched s ++ [select_event (JObj [("address", adresse item)])])%list).
  { unfold s2. destruct (_suggestionsEl s); reflexivity. }
  destruct (_inputEl s2) as [h|].
  - unfold update_element. rewrite run_modify_bind, Hd. exact H2.
  - rewrite run_ret_bind, Hd. exact H2.
Qed.

(** X8: in the documented class no list item carries a [data-suggestion]
    attribute, so Enter on an open list with an item highlighted calls
    [select] with the empty object [JSON.parse("{}")], whichever item is
    highlighted: the event it dispatches has [undefined] as its address. *)
Theorem documented_enter_selects_empty (s : State) (i : nat) :
  list_visible s = true -> _highlightedIndex s = Z.of_nat i ->
  (i < length (rendered s))%nat ->
  TsA.step (EvKeydown "Enter") s = TsA.step (EvSelect (Some empty_suggestion)) s /\
  dispatched (TsA.step (EvKeydown "Enter") s)
    = (dispatched s ++ [select_event (JObj [("address", JUndefined)])])%list.
Proof.
  intros Hv Hi Hlt.
  assert (Hne : rendered s <> []) by (destruct (rendered s); [simpl in Hlt; lia|discriminate]).
  assert (Hsel : TsA.step (EvKeydown "Enter") s
                 = TsA.step (EvSelect (Some empty_suggestion)) s).
  { unfold TsA.step. rewrite (TsA_keydown_open _ s Hv Hne), Hi.
    cbn [String.eqb Ascii.eqb Bool.eqb].
    replace (-1 <? Z.of_nat i) with true by (symmetry; apply Z.ltb_lt; lia).
    rewrite Nat2Z.id, list_lookup_fmap.
    destruct (lookup_lt_is_Some_2 (rendered s) i Hlt) as [item ->]. reflexivity. }
  split; [exact Hsel|]. rewrite Hsel. unfold TsA.step.
  apply TsA_select_dispatched.
Qed.

Lemma keyboard_at_the_edges_witness :
  _highlightedIndex TsB_open = -1 /\
  _highlightedIndex (TsB.step (EvKeydown "ArrowUp") TsB_open) = 1.
Proof.
  split; [vm_compute; reflexivity|].
  destruct (keyboard_at_the_edges TsB_open) as [_ [[_ Hopen] _]].
  destruct Hopen as [Hnone _].
  - vm_compute. reflexivity.
  - vm_compute. discriminate.
  - destruct Hnone as [_ [Hup _]]; [vm_compute; reflexivity|].
    rewrite Hup. vm_compute. reflexivity.
Defined.

Lemma enter_is_click_witness :
  TsB.step (EvKeydown "Enter") TsB_first = TsB.step (EvClickItem 0) TsB_first.
Proof.
  apply (enter_is_click TsB_first 0).
  - vm_compute. reflexivity.
  - vm_compute. reflexivity.
  - vm_compute. lia.
Defined.

Lemma documented_enter_selects_empty_witness :
  dispatched (TsA.step (EvKeydown "Enter") TsA_three_down)
    = [select_event (JObj [("address", JUndefined)])].
Proof.
  apply (documented_enter_selects_empty TsA_three_down 2).
  - vm_compute. reflexivity.
  - vm_compute. reflexivity.
  - vm_compute. lia.
Defined.

(** ** Events that stay away from the requests *)

Lemma quiet_same_network s s' : quiet s s' -> same_network s s'.
Proof.
  intros Hq. unfold same_network.
  rewrite (q_pending _ _ Hq), (q_aborted _ _ Hq), (q_controller _ _ Hq),
    (q_trace _ _ Hq). repeat split.
Qed.

Lemma local_quiet (ev : Event) (s : State) :
  local ev = true ->
  quiet s (TsA.step ev s) /\ quiet s (TsB.step ev s) /\ quiet s (Js.step ev s).
Proof.
  intros Hl. split; [|split].
  - unfold TsA.step. destruct ev; try discriminate.
    + apply quiet_edit.
    + apply quiet_TsA_keydown.
    + destruct (rendered s !! i); [apply quiet_TsA_select|apply quiet_refl].
    + apply quiet_TsA_click.
    + apply quiet_TsA_select.
    + apply quiet_refl.
  - unfold TsB.step. destruct ev; try discriminate.
    + apply quiet_edit.
    + apply quiet_TsB_keydown.
    + destruct (rendered s !! i); [apply quiet_TsB_select|apply quiet_refl].
    + apply quiet_TsB_click.
    + apply quiet_TsB_select.
    + apply quiet_settle_detail. intros rq o'. apply quiet_TsB_select_resume.
  - unfold Js.step. destruct ev; try discriminate.
    + apply quiet_edit.
    + apply quiet_Js_keydown.
    + destruct (rendered s !! i); [apply quiet_Js_select|apply quiet_refl].
    + apply quiet_Js_click.
    + apply quiet_Js_select.
    + apply quiet_settle_detail. intros rq o'. apply quiet_Js_select_resume.
Qed.

(** X9: typing into a field, key presses, clicks on an item or outside the
    list, [select] and the settlement of a detail request never issue,
    cancel or settle an autocomplete request: in all three classes the
    outstanding requests, the controller, the aborted controllers and the
    order of fetches and aborts are as before. *)
Theorem local_events_leave_requests (ev : Event) (s : State) :
  local ev = true ->
  same_network s (TsA.step ev s) /\ same_network s (TsB.step ev s) /\
  same_network s (Js.step ev s).
Proof.
  intros Hl. destruct (local_quiet ev s Hl) as [HA [HB HJ]].
  split; [|split]; now apply quiet_same_network.
Qed.

Lemma local_events_leave_requests_witness :
  pending (TsB.step (EvSelect (Some sample_suggestion)) TsB_looking)
    = pending TsB_looking.
Proof.
  destruct (local_events_leave_requests (EvSelect (Some sample_suggestion))
              TsB_looking eq_refl) as [_ [[Hp _] _]].
  exact Hp.
Defined.

(** ** Requests in flight *)

(** X10: in every state a component of any of the three classes reaches,
    at most one outstanding request is live (not cancelled), the live
    request carries the signal of the current controller, and no two
    outstanding requests share an id. *)
Theorem at_most_one_live_request (s : State) :
  reachable TsA.config TsA.step s \/ reachable TsB.config TsB.step s \/
  reachable Js.config Js.step s ->
  (forall rq1 rq2,
      In rq1 (pending s) -> In rq2 (pending s) ->
      cancelled s rq1 = false -> cancelled s rq2 = false -> rq1 = rq2) /\
  (forall rq,
      In rq (pending s) -> cancelled s rq = false ->
      rq_signal rq = _abortController s) /\
  List.NoDup (List.map rq_id (pending s)).
Proof.
  intros Hr.
  assert (W : well_formed s).
  { destruct Hr as [Hr|[Hr|Hr]].
    - now apply TsA_reachable_well_formed.
    - now apply TsB_reachable_well_formed.
    - now apply Js_reachable_well_formed. }
  split; [exact (wf_one_live _ W)|]. split; [|exact (wf_nodup _ W)].
  intros rq Hin Hc. destruct (wf_signal _ W rq Hin) as [c [Hsig Hor]].
  unfold cancelled in Hc. rewrite Hsig in Hc.
  apply bool_decide_eq_false in Hc.
  destruct Hor as [Hab|Hcur]; [contradiction|]. now rewrite Hsig, Hcur.
Qed.

Lemma at_most_one_live_request_witness :
  In first_request (pending TsB_looking_twice) /\
  In second_request (pending TsB_looking_twice) /\
  cancelled TsB_looking_twice second_request = false /\
  cancelled TsB_looking_twice first_request = true.
Proof.
  assert (Hreach : reachable TsB.config TsB.step TsB_looking_twice).
  { unfold TsB_looking_twice, TsB_looking. constructor. apply reachable_run. constructor. }
  assert (H1 : In first_request (pending TsB_looking_twice))
    by (vm_compute; left; reflexivity).
  assert (H2 : In second_request (pending TsB_looking_twice))
    by (vm_compute; right; left; reflexivity).
  assert (Hc2 : cancelled TsB_looking_twice second_request = false)
    by (vm_compute; reflexivity).
  split; [exact H1|]. split; [exact H2|]. split; [exact Hc2|].
  destruct (at_most_one_live_request TsB_looking_twice (or_intror (or_introl Hreach)))
    as [Hone _].
  destruct (cancelled TsB_looking_twice first_request) eqn:Hc1; [reflexivity|].
  discriminate (Hone first_request second_request H1 H2 Hc1 Hc2).
Defined.

Lemma settled_live resume s rq o :
  well_formed s -> In rq (pending s) -> cancelled s rq = false ->
  settle resume (rq_id rq) o s =
    detached (resume rq o) (set_pending (remove_request (rq_id rq) (pending s)) s).
Proof.
  intros W Hin Hc. rewrite (settle_found _ _ _ _ W Hin).
  unfold effective. now rewrite Hc.
Qed.

(** X11: a lookup whose live request fails - the fetch is rejected, the
    status is not ok, or the body cannot be read - with anything but an
    [AbortError]: the error is logged once and nothing is retried, written
    or dispatched.  The documented class also hides the list; the bundled
    class and the JavaScript class leave the list on display as it was, and
    the bundled class logs only errors that are instances of [Error]. *)
Theorem failed_lookup_is_logged :
  (forall s rq o e,
      reachable TsA.config TsA.step s -> In rq (pending s) ->
      cancelled s rq = false ->
      TsA._fetchData_result rq o = Throw e -> err_name e <> "AbortError" ->
      lookup_failed s (TsA.step (EvSettle (rq_id rq) o) s) rq
        [mkLog "NetsiAddress: Error fetching address data:" (Some e)] /\
      list_visible (TsA.step (EvSettle (rq_id rq) o) s) = false) /\
  (forall s rq o e,
      reachable TsB.config TsB.step s -> In rq (pending s) ->
      cancelled s rq = false ->
      TsB._fetchData_result o = Throw e -> err_name e <> "AbortError" ->
      lookup_failed s (TsB.step (EvSettle (rq_id rq) o) s) rq
        (if err_isError e then [mkLog "NetsiAddress lookup failed:" (Some e)]
         else []) /\
      list_visible (TsB.step (EvSettle (rq_id rq) o) s) = list_visible s) /\
  (forall s rq o e,
      reachable Js.config Js.step s -> In rq (pending s) ->
      cancelled s rq = false ->
      Js._fetchData_result o = Throw e -> err_name e <> "AbortError" ->
      lookup_failed s (Js.step (EvSettle (rq_id rq) o) s) rq
        [mkLog "NetsiAddress lookup failed:" (Some e)] /\
      list_visible (Js.step (EvSettle (rq_id rq) o) s) = list_visible s).
Proof.
  split; [|split]; intros s rq o e Hr Hin Hc Hres Hname;
    apply String.eqb_neq in Hname.
  - pose proof (TsA_reachable_well_formed _ Hr) as W.
    unfold TsA.step. rewrite (settled_live _ _ _ _ W Hin Hc). cbn [fst detached].
    rewrite TsA_lookup_resume_spec, Hres. unfold TsA.lookup_catch. rewrite Hname.
    cbn [negb]. unfold console_error, TsA._hideSuggestions.
    rewrite run_modify_bind. unfold modify, lookup_failed, rendered, list_visible.
    cbn. destruct (_suggestionsEl s) eqn:E; cbn; rewrite ?E; repeat split.
  - pose proof (TsB_reachable_well_formed _ Hr) as W.
    unfold TsB.step. rewrite (settled_live _ _ _ _ W Hin Hc). cbn [fst detached].
    rewrite TsB_lookup_resume_spec, Hres. unfold TsB.lookup_catch. rewrite Hname.
    cbn [negb]. rewrite andb_true_r.
    destruct (err_isError e); unfold lookup_failed; cbn;
      repeat split; now rewrite ?app_nil_r.
  - pose proof (Js_reachable_well_formed _ Hr) as W.
    assert (Hne : pending s <> [])
      by (destruct (pending s); [destruct Hin|discriminate]).
    destruct (wf_attached _ W Hne) as [_ Hsome].
    unfold Js.step. rewrite (settled_live _ _ _ _ W Hin Hc). cbn [fst detached].
    rewrite Js_lookup_resume_spec by exact Hsome.
    rewrite Hres. unfold Js.lookup_catch. rewrite Hname.
    unfold lookup_failed; cbn; repeat split.
Qed.


Lemma failed_lookup_is_logged_witness :
  console (TsB.step (EvSettle 1 (Response false "Not Found" (Normal []))) TsB_looking)
    = [mkLog "NetsiAddress lookup failed:"
         (Some (Error "API request failed: Not Found"))].
Proof.
  destruct failed_lookup_is_logged as [_ [HB _]].
  destruct (HB TsB_looking first_request (Response false "Not Found" (Normal []))
              (Error "API request failed: Not Found")) as [[Hlog _] _].
  - apply reachable_run. constructor.
  - vm_compute. left. reflexivity.
  - vm_compute. reflexivity.
  - reflexivity.
  - discriminate.
  - etransitivity; [exact Hlog|]. vm_compute. reflexivity.
Defined.

Lemma no_fallback (data : list Suggestion) flag :
  data <> [] \/ truthy flag = false ->
  (length data =? 0)%nat && truthy flag = false.
Proof.
  intros [Hd|Hf].
  - destruct data; [congruence|reflexivity].
  - rewrite Hf. apply andb_false_r.
Qed.

Lemma pending_has_list s rq :
  well_formed s -> In rq (pending s) ->
  is_Some (_suggestionsEl s) /\ is_Some (_abortController s).
Proof.
  intros W Hin.
  assert (Hne : pending s <> [])
    by (destruct (pending s); [destruct Hin|discriminate]).
  destruct (wf_attached _ W Hne) as [Hat Hsome].
  split; [exact (wf_list _ W Hat)|exact Hsome].
Qed.

(** X12: a lookup whose live primary request is answered, when no fallback
    is due (the result is not empty, or the flag is off): the list holds
    the suggestions of the answer in their order - in the documented class
    each with its [isFuzzy] set to whether the request had a [fuzzy]
    parameter -, it is open unless the answer is empty, nothing is
    highlighted, and nothing is logged, written or requested. *)
Theorem answered_lookup_is_rendered :
  (forall s rq o data,
      reachable TsA.config TsA.step s -> In rq (pending s) ->
      cancelled s rq = false -> rq_stage rq = Primary ->
      TsA._fetchData_result rq o = Normal data ->
      data <> [] \/ truthy (useFuzzyFallback (_config s)) = false ->
      lookup_rendered s (TsA.step (EvSettle (rq_id rq) o) s) rq data) /\
  (forall s rq o data,
      reachable TsB.config TsB.step s -> In rq (pending s) ->
      cancelled s rq = false -> rq_stage rq = Primary ->
      TsB._fetchData_result o = Normal data ->
      data <> [] \/ truthy (useFuzzyFallback (_config s)) = false ->
      lookup_rendered s (TsB.step (EvSettle (rq_id rq) o) s) rq data) /\
  (forall s rq o data,
      reachable Js.config Js.step s -> In rq (pending s) ->
      cancelled s rq = false -> rq_stage rq = Primary ->
      Js._fetchData_result o = Normal data ->
      data <> [] \/ truthy (useFuzzyFallback (_config s)) = false ->
      lookup_rendered s (Js.step (EvSettle (rq_id rq) o) s) rq data).
Proof.
  split; [|split]; intros s rq o data Hr Hin Hc Hst Hres Hno.
  - pose proof (TsA_reachable_well_formed _ Hr) as W.
    destruct (pending_has_list s rq W Hin) as [[l Hl] _].
    unfold TsA.step. rewrite (settled_live _ _ _ _ W Hin Hc). cbn [fst detached].
    rewrite TsA_lookup_resume_spec, Hres, Hst.
    cbn [_config set_pending]. rewrite (no_fallback _ _ Hno), TsA_render_spec.
    cbn [_suggestionsEl set_pending]. rewrite Hl.
    unfold lookup_rendered, rendered, list_visible. cbn. repeat split.
  - pose proof (TsB_reachable_well_formed _ Hr) as W.
    destruct (pending_has_list s rq W Hin) as [[l Hl] _].
    unfold TsB.step. rewrite (settled_live _ _ _ _ W Hin Hc). cbn [fst detached].
    rewrite TsB_lookup_resume_spec, Hres, Hst.
    cbn [_config set_pending]. rewrite (no_fallback _ _ Hno), TsA_render_spec.
    cbn [_suggestionsEl set_pending]. rewrite Hl.
    unfold lookup_rendered, rendered, list_visible. cbn. repeat split.
  - pose proof (Js_reachable_well_formed _ Hr) as W.
    destruct (pending_has_list s rq W Hin) as [[l Hl] Hsome].
    unfold Js.step. rewrite (settled_live _ _ _ _ W Hin Hc). cbn [fst detached].
    rewrite Js_lookup_resume_spec by exact Hsome. rewrite Hres, Hst.
    cbn [_config set_pending]. rewrite (no_fallback _ _ Hno).
    unfold try_catch. rewrite Js_render_spec.
    cbn [_suggestionsEl set_pending]. rewrite Hl.
    unfold lookup_rendered, rendered, list_visible. cbn. repeat split.
Qed.

Lemma answered_lookup_is_rendered_witness :
  rendered TsB_open = three_suggestions /\ list_visible TsB_open = true.
Proof.
  destruct answered_lookup_is_rendered as [_ [HB _]].
  destruct (HB TsB_looking first_request (Response true "OK" (Normal three_suggestions))
              three_suggestions) as [Hshown [Hopen _]].
  - apply reachable_run. constructor.
  - vm_compute. left. reflexivity.
  - vm_compute. reflexivity.
  - reflexivity.
  - reflexivity.
  - left. discriminate.
  - split; [exact Hshown|exact Hopen].
Defined.

(** ** Lookups that complete *)

Lemma try_catch_completes (m : M unit) (handler : JsError -> M unit) s :
  (forall e s', snd (handler e s') = Normal tt) ->
  snd (try_catch m handler s) = Normal tt.
Proof.
  intros Hh. unfold try_catch. destruct (m s) as [s' [[]|e]]; [reflexivity|apply Hh].
Qed.

Lemma catch_completes e s :
  snd (TsA.lookup_catch e s) = Normal tt /\ snd (TsB.lookup_catch e s) = Normal tt /\
  snd (Js.lookup_catch e s) = Normal tt.
Proof.
  unfold TsA.lookup_catch, TsB.lookup_catch, Js.lookup_catch.
  destruct (String.eqb (err_name e) "AbortError"), (err_isError e); repeat split.
Qed.

(** X13: lookups do not fail.  Whatever the request settles with, the part
    of [lookup] after the await completes in all three classes: every error
    ends in the [catch].  The part before the await completes in the two
    TypeScript classes when the search field, if there is one, is a form
    control, and in the JavaScript class in every state a component
    attached to a form control reaches. *)
Theorem lookup_never_rejects :
  (forall rq o s,
      snd (TsA.lookup_resume rq o s) = Normal tt /\
      snd (TsB.lookup_resume rq o s) = Normal tt /\
      snd (Js.lookup_resume rq o s) = Normal tt) /\
  (forall s,
      field_is_control s ->
      snd (TsA.lookup s) = Normal tt /\ snd (TsB.lookup s) = Normal tt) /\
  (forall s,
      reachable Js.config Js.step s -> attached s ->
      snd (Js.lookup s) = Normal tt).
Proof.
  split; [|split].
  - intros rq o s. unfold TsA.lookup_resume, TsB.lookup_resume, Js.lookup_resume.
    repeat split; apply try_catch_completes; intros e s';
      apply (catch_completes e s').
  - intros s Hf. split.
    + rewrite TsA_lookup_spec. destruct (_inputEl s) as [h|] eqn:Hh; [|reflexivity].
      specialize (Hf h Hh).
      destruct (element_of (document s) h) as [v|t]; [|discriminate].
      cbn [get_value]. destruct (String.length v <? 2)%nat; [reflexivity|].
      unfold raw_params. rewrite Hh. reflexivity.
    + rewrite TsB_lookup_spec. unfold trimmed_params. rewrite query_of_restart.
      unfold query_of. destruct (_inputEl s) as [h|] eqn:Hh.
      * specialize (Hf h Hh).
        destruct (element_of (document s) h) as [v|t]; [|discriminate].
        cbn [get_value cbind]. destruct (TsB.no_query (Some (trim v)));
          [apply TsA_render_normal|reflexivity].
      * cbn [TsB.no_query]. apply TsA_render_normal.
  - intros s Hr [h [v [Hh Hv]]].
    pose proof (Js_reachable_well_formed _ Hr) as W.
    destruct (wf_list _ W (ex_intro _ h (ex_intro _ v (conj Hh Hv)))) as [l Hl].
    rewrite Js_lookup_spec. unfold trimmed_params. rewrite query_of_restart.
    unfold query_of. rewrite Hh, Hv. cbn [get_value cbind].
    destruct (TsB.no_query (Some (trim v))); [|reflexivity].
    rewrite Js_render_spec. destruct (restart_same s) as [_ [_ [_ Hs]]].
    rewrite Hs, Hl. reflexivity.
Qed.

Lemma lookup_never_rejects_witness :
  snd (Js.lookup (started Js.config no_config "Gren")) = Normal tt.
Proof.
  destruct lookup_never_rejects as [_ [_ HJ]].
  apply HJ.
  - constructor.
  - exists 0%nat, "Gren". split; [reflexivity|vm_compute; reflexivity].
Defined.

(** ** A component without a search field *)

Lemma settle_nothing resume rid o s :
  pending s = [] -> settle resume rid o s = (s, Normal tt).
Proof. intros Hp. unfold settle. now rewrite Hp. Qed.

Lemma inert_quiet s s' : quiet s s' -> inert s -> inert s'.
Proof.
  intros Hq [Hi Hp]. split; [now rewrite (q_input _ _ Hq)|now rewrite (q_pending _ _ Hq)].
Qed.

Lemma inert_restart s : inert s -> inert (restart s).
Proof.
  intros [Hi Hp]. destruct (restart_same s) as [Hi' _].
  split; [now rewrite Hi'|now rewrite restart_pending].
Qed.

Lemma inert_step ev s :
  inert s ->
  inert (TsA.step ev s) /\ inert (TsB.step ev s) /\ inert (Js.step ev s).
Proof.
  intros Hs. destruct (local ev) eqn:Hl.
  - destruct (local_quiet ev s Hl) as [HA [HB HJ]].
    split; [|split]; eapply inert_quiet; eauto.
  - destruct Hs as [Hi Hp]. destruct ev; try discriminate.
    + split; [|split].
      * unfold TsA.step. rewrite TsA_lookup_spec, Hi.
        eapply inert_quiet; [apply quiet_hide|now split].
      * unfold TsB.step. rewrite TsB_lookup_spec, query_of_restart.
        unfold query_of. rewrite Hi. cbn [TsB.no_query].
        eapply inert_quiet; [apply quiet_TsA_render|].
        apply inert_restart. now split.
      * unfold Js.step. rewrite Js_lookup_spec, query_of_restart.
        unfold query_of. rewrite Hi. cbn [TsB.no_query].
        eapply inert_quiet; [apply quiet_Js_render|].
        apply inert_restart. now split.
    + unfold TsA.step, TsB.step, Js.step. rewrite !settle_nothing by exact Hp.
      split; [|split]; split; assumption.
Qed.


(** X14: a component whose search field was not found stays without one
    and never issues an autocomplete request, whatever happens to it
    afterwards: in all three classes every later state has no search field
    and no outstanding request. *)
Theorem component_without_field_never_fetches (evs : list Event) (s : State) :
  inert s ->
  inert (run TsA.step evs s) /\ inert (run TsB.step evs s) /\
  inert (run Js.step evs s).
Proof.
  intros Hs.
  assert (H : forall step,
             (forall ev st, inert st -> inert (step ev st)) ->
             forall l st, inert st -> inert (run step l st)).
  { intros step Hstep l. induction l as [|ev l IH]; intros st Hst; [exact Hst|].
    cbn [run fold_left]. apply IH, Hstep, Hst. }
  split; [|split]; apply H; try exact Hs; intros ev st Hst;
    apply (inert_step ev st Hst).
Qed.

Lemma component_without_field_never_fetches_witness :
  inert (started TsB.config missing_field_config "Gren") /\
  pending (run TsB.step [EvEdit 0 "Vej"; EvLookup; EvKeydown "ArrowDown"]
             (started TsB.config missing_field_config "Gren")) = [].
Proof.
  assert (Hi : inert (started TsB.config missing_field_config "Gren"))
    by (split; vm_compute; reflexivity).
  split; [exact Hi|].
  destruct (component_without_field_never_fetches
              [EvEdit 0 "Vej"; EvLookup; EvKeydown "ArrowDown"] _ Hi)
    as [_ [[_ Hp] _]].
  exact Hp.
Defined.

(** ** Population of a target element *)

Lemma for_each_app {A} (body : A -> M unit) l1 l2 s :
  for_each body (l1 ++ l2) s =
    match for_each body l1 s with
    | (s1, Normal _) => for_each body l2 s1
    | (s1, Throw e) => (s1, Throw e)
    end.
Proof.
  revert s. induction l1 as [|x l1 IH]; intros s; [reflexivity|].
  cbn [app for_each]. rewrite !run_bind.
  destruct (body x s) as [s' [[]|e]]; [apply IH|reflexivity].
Qed.

Lemma Js_write_kind v e e' :
  has_value e' = has_value e -> Js_write v e' = Js_write v e.
Proof.
  unfold Js_write. destruct e, e'; simpl; intros H; try discriminate; reflexivity.
Qed.

Lemma set_value_kind v e e' :
  has_value e' = has_value e ->
  (has_value e = true \/ e' = e) -> set_value v e' = set_value v e.
Proof.
  destruct e, e'; simpl; intros H [H'|H'];
    try discriminate; try reflexivity; now rewrite H'.
Qed.

Lemma element_of_update h f s :
  element_of (document (fst (update_element h f s))) h
    = f (element_of (document s) h).
Proof. unfold element_of. simpl. now rewrite lookup_insert_eq. Qed.


Ltac loop_body :=
  match goal with
  | |- context [for_each ?b _ _] => set (body := b)
  end.

(** X15: [_populate] of the JavaScript class fills the element a mapping
    points at.  For a mapping other than [address] whose selector finds an
    element that no later mapping points at, and whose mapper (if it has
    one) returns: when [_populate] completes, the element holds the
    mapper's result - or, without a mapper, the value the path resolves to
    - as its [value] if it is a form control and as its text otherwise
    ([null] shows as the empty text, and so does [undefined] in an element
    that is no form control). *)
Theorem Js_populate_fills_target (data : JsVal) (s s' : State) (pre post : UiConfig)
    (path : string) (m : UiMapping) (h : nat) (raw shown : JsVal) :
  cfg_ui (_config s) = Some (pre ++ (path, Some m) :: post)%list ->
  path <> "address" -> selector_of m <> "" ->
  qs (document s) (selector_of m) = Normal (Some h) ->
  untargeted (qs (document s)) post h ->
  Js._populate data s = (s', Normal tt) ->
  rawValue (realm (document s)) data path = Normal raw ->
  shown_value m raw data = Normal shown ->
  element_of (document s') h = Js_write shown (element_of (document s) h).
Proof.
  intros Hui Hpath Hsel Hq Hpost Hrun Hraw Hshown.
  unfold Js._populate in Hrun. rewrite run_gets_bind, Hui in Hrun.
  cbn [default from_option id] in Hrun.
  match type of Hrun with
  | context [for_each ?b _ _] => set (body := b) in Hrun
  end.
  assert (Hqs : forall l, preserves (fun st => qs (document st)) (for_each body l))
    by (intros l; unfold body; frame).
  assert (Hin : forall l,
             preserves (fun st => realm (document st)) (for_each body l))
    by (intros l; unfold body; frame).
  assert (Hquiet : forall l, respects quiet (for_each body l))
    by (intros l; unfold body; quiet).
  rewrite for_each_app in Hrun.
  pose proof (Hqs pre s) as Hq1. pose proof (Hin pre s) as Hi1.
  pose proof (q_kind _ _ (Hquiet pre s) h) as Hk1.
  destruct (for_each body pre s) as [s1 [[]|e]]; [|discriminate].
  cbn [fst] in Hq1, Hi1, Hk1. cbn [for_each] in Hrun. rewrite run_bind in Hrun.
  assert (Hentry : body (path, Some m) s1
                   = (fst (update_element h (Js_write shown) s1), Normal tt)).
  { unfold body. cbn [fst snd]. apply String.eqb_neq in Hpath. rewrite Hpath.
    assert (Hgo : forall mp,
               match mp with Some f => f raw data | None => Normal raw end
                 = Normal shown ->
               (element ← querySelector (selector_of m);
                match element with
                | None => mret tt
                | Some h0 =>
                    rawValue0 ← in_realm (fun realm => rawValue realm data path);
                    match (match mp with
                           | Some f => f rawValue0 data
                           | None => Normal rawValue0
                           end) with
                    | Throw e =>
                        console_error
                          ("Mapper function for path " +:+ Js.dquote +:+ path
                           +:+ Js.dquote +:+ " failed:") (Some e)
                    | Normal displayValue =>
                        e ← read_element h0;
                        if has_value e
                        then update_element h0 (set_value displayValue)
                        else update_element h0 (set_textContent displayValue)
                    end
                end) s1
               = (fst (update_element h (Js_write shown) s1), Normal tt)).
    { intros mp Hmp. rewrite run_querySelector_bind, Hq1, Hq.
      rewrite run_in_realm_bind, Hi1, Hraw, Hmp. unfold read_element.
      rewrite run_gets_bind. unfold update_element, modify, Js_write.
      destruct (has_value (element_of (document s1) h)); reflexivity. }
    destruct m as [sel|sel [f|]]; cbn [selector_of shown_value] in *.
    - exact (Hgo None Hshown).
    - apply String.eqb_neq in Hsel. rewrite Hsel. exact (Hgo (Some f) Hshown).
    - apply String.eqb_neq in Hsel. rewrite Hsel. exact (Hgo None Hshown). }
  rewrite Hentry in Hrun. cbv beta iota in Hrun.
  assert (Hpage : same_page (qs (document s)) h
                    (Js_write shown (element_of (document s) h))
                    (fst (update_element h (Js_write shown) s1))).
  { split; [exact Hq1|]. rewrite element_of_update. now apply Js_write_kind. }
  assert (Hs' : s' = fst (for_each body post
                            (fst (update_element h (Js_write shown) s1))))
    by now rewrite Hrun.
  rewrite Hs'.
  exact (proj2 (Js_populate_same_page data _ _ _ post Hpost _ Hpage)).
Qed.

Lemma Js_populate_fills_target_witness :
  element_of
    (document (fst (Js._populate sample_address (started Js.config date_config "Gren"))))
    2 = FormControl "den 2".
Proof.
  etransitivity.
  - apply (Js_populate_fills_target sample_address
             (started Js.config date_config "Gren") _
             [("address", Some (MapSelector "#address"))]
             [("d" +:+ unit_string 248 +:+ "r", Some (MapSelector "#doer"));
              ("adgangsadresse.vejstykke.navn", Some (MapSelector "#vejnavn"));
              ("adgangsadresse.husnr", Some (MapSelector "#husnr"));
              ("adgangsadresse.postnummer.nr", Some (MapSelector "#postnr"));
              ("adgangsadresse.postnummer.navn", Some (MapSelector "#postnrnavn"));
              ("adgangsadresse.kommune.kode", Some (MapSelector "#kommunekode"));
              ("adgangsadresse.kommune.navn", Some (MapSelector "#kommune"))]
             "etage" (MapObject "#etage" (Some date_mapper)) 2%nat
             (JStr "2") (JStr "den 2")).
    + reflexivity.
    + discriminate.
    + discriminate.
    + reflexivity.
    + intros path m Hin Hne.
      repeat (destruct Hin as [[= <- <-]|Hin]; [vm_compute; discriminate|]).
      destruct Hin.
    + apply completed. vm_compute. reflexivity.
    + reflexivity.
    + reflexivity.
  - vm_compute. reflexivity.
Defined.

(** X16: [_populate] of the bundled TypeScript class fills the form control
    a mapping points at.  For a mapping other than [address] with a
    non-empty selector that finds a form control no later mapping points
    at: when [_populate] completes, the control's value is the mapper's
    result or, without a mapper, the value [_getValue] resolves the path to
    (so [undefined] shows as the text "undefined"). *)
Theorem TsB_populate_fills_target (data : JsVal) (s s' : State) (pre post : UiConfig)
    (path : string) (m : UiMapping) (h : nat) (raw shown : JsVal) :
  cfg_ui (_config s) = Some (pre ++ (path, Some m) :: post)%list ->
  path <> "address" -> selector_of m <> "" ->
  qs (document s) (selector_of m) = Normal (Some h) ->
  has_value (element_of (document s) h) = true ->
  untargeted (qs (document s)) post h ->
  TsB._populate data s = (s', Normal tt) ->
  _getValue (realm (document s)) data path = Normal raw ->
  shown_value m raw data = Normal shown ->
  element_of (document s') h = FormControl (dom_string shown).
Proof.
  intros Hui Hpath Hsel Hq Hctl Hpost Hrun Hraw Hshown.
  unfold TsB._populate in Hrun.
  rewrite run_gets_bind, Hui, run_gets_bind, run_bind in Hrun.
  match type of Hrun with
  | context [for_each ?b _ _] => set (body := b) in Hrun
  end.
  assert (Hqs : forall l, preserves (fun st => qs (document st)) (for_each body l))
    by (intros l; unfold body; frame).
  assert (Hquiet : forall l, respects quiet (for_each body l))
    by (intros l; unfold body; quiet).
  match type of Hrun with
  | match ?f s with _ => _ end = _ => set (first := f) in Hrun
  end.
  assert (Hfq : preserves (fun st => qs (document st)) first)
    by (unfold first; frame).
  assert (Hfi : preserves (fun st => realm (document st)) first)
    by (unfold first; frame).
  assert (Hin : forall l,
             preserves (fun st => realm (document st)) (for_each body l))
    by (intros l; unfold body; frame).
  assert (Hfk : respects quiet first) by (unfold first; quiet).
  specialize (Hfq s). specialize (Hfi s).
  pose proof (q_kind _ _ (Hfk s) h) as Hk0.
  destruct (first s) as [s0 [[]|e]]; [|discriminate]. cbn [fst] in Hfq, Hfi, Hk0.
  rewrite for_each_app in Hrun.
  pose proof (Hqs pre s0) as Hq1. pose proof (Hin pre s0) as Hi1.
  pose proof (q_kind _ _ (Hquiet pre s0) h) as Hk1.
  destruct (for_each body pre s0) as [s1 [[]|e]]; [|discriminate].
  cbn [fst] in Hq1, Hi1, Hk1. cbn [for_each] in Hrun. rewrite run_bind in Hrun.
  assert (Hentry : body (path, Some m) s1
                   = (fst (update_element h (set_value shown) s1), Normal tt)).
  { unfold body. cbn [fst snd].
    apply String.eqb_neq in Hpath. rewrite Hpath, orb_false_r.
    apply String.eqb_neq in Hsel.
    destruct m as [sel|sel [f|]]; cbn [selector_of shown_value mapping_falsy] in *;
      rewrite ?Hsel; rewrite run_querySelector_bind, Hq1, Hfq, Hq;
      rewrite run_in_realm_bind, Hi1, Hfi, Hraw.
    - rewrite run_ret_bind. injection Hshown as <-. reflexivity.
    - rewrite Hshown, run_lift_bind. reflexivity.
    - rewrite run_ret_bind. injection Hshown as <-. reflexivity. }
  rewrite Hentry in Hrun.
  assert (Hpage : same_page (qs (document s)) h (FormControl (dom_string shown))
                    (fst (update_element h (set_value shown) s1))).
  { split; [cbn; now rewrite Hq1, Hfq|]. rewrite element_of_update.
    rewrite Hk0, Hctl in Hk1.
    destruct (element_of (document s1) h); [reflexivity|discriminate]. }
  cbv beta iota in Hrun.
  assert (Hs' : s' = fst (for_each body post
                            (fst (update_element h (set_value shown) s1))))
    by now rewrite Hrun.
  rewrite Hs'.
  exact (proj2 (TsB_populate_loop_same_page data _ _ _ post Hpost _ Hpage)).
Qed.

Lemma TsB_populate_fills_target_witness :
  element_of
    (document (fst (TsB._populate sample_address (started TsB.config date_config "Gren"))))
    2 = FormControl "den 2".
Proof.
  apply (TsB_populate_fills_target sample_address
           (started TsB.config date_config "Gren") _
           [("address", Some (MapSelector "#address"))]
           [("d" +:+ unit_string 248 +:+ "r", Some (MapSelector "#doer"));
            ("adgangsadresse.vejstykke.navn", Some (MapSelector "#vejnavn"));
            ("adgangsadresse.husnr", Some (MapSelector "#husnr"));
            ("adgangsadresse.postnummer.nr", Some (MapSelector "#postnr"));
            ("adgangsadresse.postnummer.navn", Some (MapSelector "#postnrnavn"));
            ("adgangsadresse.kommune.kode", Some (MapSelector "#kommunekode"));
            ("adgangsadresse.kommune.navn", Some (MapSelector "#kommune"))]
           "etage" (MapObject "#etage" (Some date_mapper)) 2%nat
           (JStr "2") (JStr "den 2")).
  - reflexivity.
  - discriminate.
  - discriminate.
  - reflexivity.
  - vm_compute. reflexivity.
  - intros path m Hin Hne.
    repeat (destruct Hin as [[= <- <-]|Hin]; [vm_compute; discriminate|]).
    destruct Hin.
  - apply completed. vm_compute. reflexivity.
  - reflexivity.
  - reflexivity.
Defined.

Lemma TsA_populate_loop_same_page data q h e ui :
  untargeted_all q ui h ->
  keeps (same_page q h e)
    (for_each (fun entry =>
       let key := fst entry in
       let mapping := snd entry in
       if mapping_falsy mapping then mret tt
       else
         let '(selector, mapper) :=
           match mapping with
           | Some (MapObject sel m) => (sel, m)
           | Some (MapSelector sel) => (sel, Some TsA.default_mapper)
           | None => ("", None)
           end in
         element ← querySelector selector;
         match element with
         | Some h =>
             value ← in_realm (fun realm => _getValue realm data key);
             match mapper with
             | Some f =>
                 shown ← lift (f value data);
                 update_element h (set_value shown)
             | None => throw (TypeError "mapper is not a function")
             end
         | None => mret tt
         end) ui).
Proof.
  intros Hl. apply for_each_keeps_in. intros [p mp] Hin st Hst.
  cbn [fst snd].
  destruct mp as [m0|]; [|exact Hst].
  destruct (mapping_falsy (Some m0)); [exact Hst|].
  assert (Hsel0 : forall h',
             qs (document st) (selector_of m0) = Normal (Some h') -> h' <> h).
  { intros h' Hq' ->. destruct Hst as [Hqst _]. rewrite Hqst in Hq'.
    exact (Hl _ _ Hin Hq'). }
  destruct m0 as [sel|sel mapper]; cbn [selector_of] in Hsel0;
    rewrite run_querySelector_bind;
    (destruct (qs (document st) sel) as [[h'|]|err] eqn:Hq'; [|exact Hst..]);
    pose proof (Hsel0 _ eq_refl) as Hh';
    rewrite run_in_realm_bind;
    (destruct (_getValue _ data p) as [r|err]; [|exact Hst]).
  - rewrite run_lift_bind. cbn [TsA.default_mapper].
    now apply same_page_update.
  - destruct mapper as [f|]; [|exact Hst].
    rewrite run_lift_bind. destruct (f r data); [|exact Hst].
    now apply same_page_update.
Qed.

(** X17: [_populate] of the documented class fills the form control a
    mapping points at, the [address] mapping included.  For a mapping with
    a non-empty selector that finds a form control no later mapping points
    at: when [_populate] completes, the control's value is the result of
    the mapping's mapper; a mapping given as a selector string has the
    mapper [String(val ?? "")], so a missing value shows as the empty
    text. *)
Theorem TsA_populate_fills_target (data : JsVal) (s s' : State) (pre post : UiConfig)
    (path : string) (m : UiMapping) (h : nat) (raw shown : JsVal) :
  cfg_ui (_config s) = Some (pre ++ (path, Some m) :: post)%list ->
  selector_of m <> "" ->
  qs (document s) (selector_of m) = Normal (Some h) ->
  has_value (element_of (document s) h) = true ->
  untargeted_all (qs (document s)) post h ->
  TsA._populate data s = (s', Normal tt) ->
  _getValue (realm (document s)) data path = Normal raw ->
  TsA_shown_value m raw data = Normal shown ->
  element_of (document s') h = FormControl (dom_string shown).
Proof.
  intros Hui Hsel Hq Hctl Hpost Hrun Hraw Hshown.
  unfold TsA._populate in Hrun. rewrite run_gets_bind, Hui in Hrun.
  match type of Hrun with
  | context [for_each ?b _ _] => set (body := b) in Hrun
  end.
  assert (Hqs : forall l, preserves (fun st => qs (document st)) (for_each body l))
    by (intros l; unfold body; frame).
  assert (Hquiet : forall l, respects quiet (for_each body l))
    by (intros l; unfold body; quiet).
  assert (Hkeep : forall e l,
             untargeted_all (qs (document s)) l h ->
             keeps (same_page (qs (document s)) h e) (for_each body l))
    by (intros e l Hl; exact (TsA_populate_loop_same_page data _ h e l Hl)).
  assert (Hin : forall l,
             preserves (fun st => realm (document st)) (for_each body l))
    by (intros l; unfold body; frame).
  rewrite for_each_app in Hrun.
  pose proof (Hqs pre s) as Hq1. pose proof (Hin pre s) as Hi1.
  pose proof (q_kind _ _ (Hquiet pre s) h) as Hk1.
  destruct (for_each body pre s) as [s1 [[]|e]]; [|discriminate].
  cbn [fst] in Hq1, Hi1, Hk1. cbn [for_each] in Hrun. rewrite run_bind in Hrun.
  assert (Hentry : body (path, Some m) s1
                   = (fst (update_element h (set_value shown) s1), Normal tt)).
  { unfold body. cbn [fst snd]. apply String.eqb_neq in Hsel.
    destruct m as [sel|sel [f|]]; cbn [selector_of TsA_shown_value mapping_falsy] in *;
      try discriminate;
      rewrite ?Hsel; rewrite run_querySelector_bind, Hq1, Hq;
      rewrite run_in_realm_bind, Hi1, Hraw, Hshown, run_lift_bind; reflexivity. }
  rewrite Hentry in Hrun. cbv beta iota in Hrun.
  assert (Hpage : same_page (qs (document s)) h (FormControl (dom_string shown))
                    (fst (update_element h (set_value shown) s1))).
  { split; [cbn; now rewrite Hq1|]. rewrite element_of_update.
    rewrite Hctl in Hk1.
    destruct (element_of (document s1) h); [reflexivity|discriminate]. }
  assert (Hs' : s' = fst (for_each body post
                            (fst (update_element h (set_value shown) s1))))
    by now rewrite Hrun.
  rewrite Hs'. exact (proj2 (Hkeep _ post Hpost _ Hpage)).
Qed.

Lemma TsA_populate_fills_target_witness :
  element_of
    (document (fst (TsA._populate sample_address (started TsA.config no_config "Gren"))))
    0 = FormControl "".
Proof.
  apply (TsA_populate_fills_target sample_address
           (started TsA.config no_config "Gren") _
           []
           [("etage", Some (MapSelector "#etage"));
            ("d" +:+ unit_string 195 +:+ unit_string 184 +:+ "r",
             Some (MapSelector "#doer"));
            ("adgangsadresse.vejstykke.navn", Some (MapSelector "#vejnavn"));
            ("adgangsadresse.husnr", Some (MapSelector "#husnr"));
            ("adgangsadresse.postnummer.nr", Some (MapSelector "#postnr"));
            ("adgangsadresse.postnummer.navn", Some (MapSelector "#postnrnavn"));
            ("adgangsadresse.kommune.kode", Some (MapSelector "#kommunekode"));
            ("adgangsadresse.kommune.navn", Some (MapSelector "#kommune"))]
           "address" (MapSelector "#address") 0%nat JUndefined (JStr "")).
  - reflexivity.
  - discriminate.
  - reflexivity.
  - vm_compute. reflexivity.
  - intros path m Hin.
    repeat (destruct Hin as [[= <- <-]|Hin]; [vm_compute; discriminate|]).
    destruct Hin.
  - apply completed. vm_compute. reflexivity.
  - reflexivity.
  - reflexivity.
Defined.


(** ** Elements that population leaves alone *)

(** X18: [_populate] changes no element other than the ones its mappings
    point at.  An element that no mapping other than [address] points at
    keeps its content through [_populate] of the JavaScript class and,
    unless it is the search field, of the bundled TypeScript class; an
    element that no mapping at all points at keeps it through [_populate]
    of the documented class.  This holds also when a mapper throws. *)
Theorem populate_leaves_other_elements (data : JsVal) (s : State) (h : nat) :
  (untargeted (qs (document s)) (default [] (cfg_ui (_config s))) h ->
   element_of (document (fst (Js._populate data s))) h = element_of (document s) h /\
   (_inputEl s <> Some h ->
    element_of (document (fst (TsB._populate data s))) h
      = element_of (document s) h)) /\
  (untargeted_all (qs (document s)) (default [] (cfg_ui (_config s))) h ->
   element_of (document (fst (TsA._populate data s))) h = element_of (document s) h).
Proof.
  assert (H0 : same_page (qs (document s)) h (element_of (document s) h) s)
    by (split; reflexivity).
  split.
  - intros Hun. split.
    + unfold Js._populate. rewrite run_gets_bind.
      exact (proj2 (Js_populate_same_page data _ _ _ _ Hun _ H0)).
    + intros Hin. unfold TsB._populate. rewrite run_gets_bind.
      destruct (cfg_ui (_config s)) as [ui|]; [|reflexivity].
      rewrite run_gets_bind.
      assert (H1 : forall hi,
                 hi <> h ->
                 same_page (qs (document s)) h (element_of (document s) h)
                   (fst ((betegnelse ← lift (getProp data "adressebetegnelse");
                          update_element hi (set_value betegnelse)) s))).
      { intros hi Hne. rewrite run_lift_bind.
        destruct (getProp data "adressebetegnelse"); [|exact H0].
        now apply same_page_update. }
      destruct (_inputEl s) as [hi|].
      * assert (Hne : hi <> h) by congruence. specialize (H1 hi Hne).
        rewrite run_bind.
        match goal with
        | |- context [match ?m s with _ => _ end] =>
            destruct (m s) as [s0 [[]|e]]
        end; [|exact (proj2 H1)].
        exact (proj2 (TsB_populate_loop_same_page data _ _ _ ui Hun _ H1)).
      * rewrite run_ret_bind.
        exact (proj2 (TsB_populate_loop_same_page data _ _ _ ui Hun _ H0)).
  - intros Hun. unfold TsA._populate. rewrite run_gets_bind.
    destruct (cfg_ui (_config s)) as [ui|]; [|reflexivity].
    exact (proj2 (TsA_populate_loop_same_page data _ _ _ ui Hun _ H0)).
Qed.

Lemma populate_leaves_other_elements_witness :
  element_of
    (document (fst (Js._populate sample_address
                      (started Js.config no_postnr_config "Gren"))))
    1 = FormControl "".
Proof.
  destruct (populate_leaves_other_elements sample_address
              (started Js.config no_postnr_config "Gren") 1%nat) as [HJ _].
  destruct HJ as [HJs _].
  - intros path m Hin Hne. vm_compute in Hin.
    repeat (destruct Hin as [Heq|Hin];
            [inversion Heq; subst; vm_compute; discriminate|]).
    destruct Hin.
  - etransitivity; [exact HJs|]. vm_compute. reflexivity.
Defined.

Lemma keeps_plain_update h e h' v :
  has_value e = false ->
  keeps (fun st => element_of (document st) h = e) (update_element h' (set_value v)).
Proof.
  intros He st Hst. destruct (decide (h' = h)) as [->|Hne].
  - rewrite element_of_update, Hst. destruct e; [discriminate|reflexivity].
  - unfold element_of in *. simpl. now rewrite lookup_insert_ne.
Qed.

Ltac keep_plain :=
  repeat first [ apply keeps_plain_update; assumption
               | apply keeps_gets | keep_step ].

(** X19: the two TypeScript classes assign [value] whatever the element
    is, so an element that is not a form control is never changed by their
    [_populate], mapped or not; the JavaScript class writes such an
    element's text instead (X15). *)
Theorem typescript_populate_skips_text_elements (data : JsVal) (s : State) (h : nat) :
  has_value (element_of (document s) h) = false ->
  element_of (document (fst (TsA._populate data s))) h = element_of (document s) h /\
  element_of (document (fst (TsB._populate data s))) h = element_of (document s) h.
Proof.
  intros Hp.
  assert (HA : keeps (fun st => element_of (document st) h = element_of (document s) h)
                 (TsA._populate data))
    by (unfold TsA._populate; keep_plain).
  assert (HB : keeps (fun st => element_of (document st) h = element_of (document s) h)
                 (TsB._populate data))
    by (unfold TsB._populate; keep_plain).
  split; [apply HA|apply HB]; reflexivity.
Qed.

Lemma typescript_populate_skips_text_elements_witness :
  element_of
    (document (fst (TsB._populate sample_address (started TsB.config no_config "Gren"))))
    3 = PlainElement "".
Proof.
  etransitivity.
  - apply (typescript_populate_skips_text_elements sample_address
             (started TsB.config no_config "Gren") 3).
    vm_compute. reflexivity.
  - vm_compute. reflexivity.
Defined.

(** ** Initialisation *)

Lemma assoc_spread {A} k (target source : list (string * A)) :
  unique_keys source ->
  assoc k (spread target source)
    = match assoc k source with
      | Some x => Some x
      | None => assoc k target
      end.
Proof.
  intros Hu. destruct (assoc k source) eqn:Hk.
  - now apply assoc_spread_some.
  - now apply assoc_spread_none.
Qed.

Lemma initialize_found d s sel :
  document s = d -> _inputEl s = None -> _suggestionsEl s = None -> console s = [] ->
  TsA.address_mapping (_config s) = Some (MapSelector sel) -> sel <> "" ->
  initialised d sel (TsA._initialize s).
Proof.
  intros Hd Hi Hl Hc Ha Hsel. unfold TsA._initialize. rewrite run_gets_bind, Ha.
  apply String.eqb_neq in Hsel. cbn [mapping_falsy]. rewrite Hsel.
  rewrite run_querySelector_bind, Hd.
  unfold initialised.
  destruct (qs d sel) as [[h|]|err]; rewrite ?run_modify_bind;
    repeat split; cbn; rewrite ?Hc, ?Hl, ?Hi; reflexivity.
Qed.

Lemma Js_initialize_found d s sel ui mapping :
  document s = d -> _inputEl s = None -> _suggestionsEl s = None -> console s = [] ->
  cfg_ui (_config s) = Some ui -> assoc "address" ui = Some mapping ->
  mapping = Some (MapSelector sel) \/ (mapping = None /\ sel = "undefined") ->
  initialised d sel (Js._initialize s).
Proof.
  intros Hd Hi Hl Hc Hui Ha Hm. unfold Js._initialize.
  rewrite run_gets_bind, Hui, Ha.
  assert (Hq : match mapping with
               | Some (MapSelector x) => querySelector x
               | Some (MapObject _ _) =>
                   throw (mkError "SyntaxError" true
                            "'[object Object]' is not a valid selector")
               | None => querySelector "undefined"
               end = querySelector sel)
    by (destruct Hm as [->|[-> ->]]; reflexivity).
  rewrite Hq, run_querySelector_bind, Hd.
  unfold initialised.
  destruct (qs d sel) as [[h|]|err]; rewrite ?run_modify_bind;
    repeat split; cbn; rewrite ?Hc, ?Hl, ?Hi; reflexivity.
Qed.

(** X20: what the [config] setter makes of a new element.  When the caller
    gives no [address] mapping the component looks for the element
    [#address]; when the caller gives a selector, for the element that
    selector finds.  The element found becomes the search field with an
    empty, hidden list and nothing is logged; when none is found this is
    logged and the component has neither field nor list; and when the
    selector engine rejects the selector, its error leaves the setter,
    nothing is logged and the component has neither field nor list.  In
    the two TypeScript classes an [address] given as [undefined] or as the
    empty string is logged as a missing mandatory selector, again with
    neither field nor list; the JavaScript class hands the empty string to
    the selector engine as it is, and [undefined] as the selector
    "undefined". *)
Theorem config_initialises (newConfig cfg : NetsiConfig) (d : Document) :
  unique_keys (default [] (cfg_ui newConfig)) ->
  let given := assoc "address" (default [] (cfg_ui newConfig)) in
  let rA := TsA.config newConfig (constructed cfg d) in
  let rB := TsB.config newConfig (constructed cfg d) in
  let rJ := Js.config newConfig (constructed cfg d) in
  (given = None ->
   initialised d "#address" rA /\ initialised d "#address" rB /\
   initialised d "#address" rJ) /\
  (forall sel,
      given = Some (Some (MapSelector sel)) ->
      (sel <> "" -> initialised d sel rA /\ initialised d sel rB) /\
      initialised d sel rJ) /\
  (given = Some None \/ given = Some (Some (MapSelector "")) ->
   uninitialised (fst rA) /\ snd rA = Normal tt /\
   uninitialised (fst rB) /\ snd rB = Normal tt) /\
  (given = Some None -> initialised d "undefined" rJ).
Proof.
  intros Hu given rA rB rJ.
  assert (HA : TsA.address_mapping (_config (set_config (TsA.merged newConfig)
                                              (constructed cfg d)))
               = match given with
                 | Some x => x
                 | None => Some (MapSelector "#address")
                 end).
  { unfold TsA.address_mapping, TsA.merged. cbn [_config set_config cfg_ui mbind option_bind].
    rewrite (assoc_spread _ _ _ Hu). fold given. now destruct given. }
  assert (HB : TsA.address_mapping (_config (set_config (TsB.merged newConfig)
                                              (constructed cfg d)))
               = match given with
                 | Some x => x
                 | None => Some (MapSelector "#address")
                 end).
  { unfold TsA.address_mapping, TsB.merged. cbn [_config set_config cfg_ui mbind option_bind].
    rewrite (assoc_spread _ _ _ Hu). fold given. now destruct given. }
  assert (HJ : assoc "address"
                 (spread (default [] (cfg_ui Js._defaults)) (default [] (cfg_ui newConfig)))
               = match given with
                 | Some x => Some x
                 | None => Some (Some (MapSelector "#address"))
                 end).
  { rewrite (assoc_spread _ _ _ Hu). fold given. now destruct given. }
  unfold rA, rB, rJ, TsA.config, TsB.config, Js.config, TsB._initialize.
  rewrite !run_modify_bind.
  split; [|split; [|split]].
  - intros Hg. rewrite Hg in HA, HB, HJ. split; [|split].
    + apply initialize_found; try reflexivity; [exact HA|discriminate].
    + apply initialize_found; try reflexivity; [exact HB|discriminate].
    + eapply Js_initialize_found; try reflexivity; [exact HJ|now left].
  - intros sel Hg. rewrite Hg in HA, HB, HJ. split.
    + intros Hsel. split; apply initialize_found; try reflexivity; assumption.
    + eapply Js_initialize_found; try reflexivity; [exact HJ|now left].
  - intros Hg.
    unfold TsA._initialize. rewrite !run_gets_bind, HA, HB.
    destruct Hg as [-> | ->]; repeat split.
  - intros Hg. rewrite Hg in HJ.
    eapply Js_initialize_found; try reflexivity; [exact HJ|now right].
Qed.

Lemma config_initialises_witness :
  _inputEl (started TsB.config no_config "Gren") = Some 0%nat /\
  uninitialised
    (started TsA.config (mkConfig (Some [("address", Some (MapSelector ""))]) []) "Gren") /\
  snd (Js.config (mkConfig (Some [("address", Some (MapSelector ""))]) [])
         (constructed no_config (sample_document "Gren")))
  = Throw (SyntaxError "").
Proof.
  split; [|split].
  - destruct (config_initialises no_config no_config (sample_document "Gren"))
      as [Hdefault _]; [constructor|].
    destruct (Hdefault eq_refl) as [_ [HB _]].
    exact (proj1 (proj2 HB)).
  - destruct (config_initialises
                (mkConfig (Some [("address", Some (MapSelector ""))]) [])
                no_config (sample_document "Gren")) as [_ [_ [Hnone _]]].
    + apply NoDup_singleton.
    + exact (proj1 (Hnone (or_intror eq_refl))).
  - destruct (config_initialises
                (mkConfig (Some [("address", Some (MapSelector ""))]) [])
                no_config (sample_document "Gren")) as [_ [Hsel _]].
    + apply NoDup_singleton.
    + exact (proj1 (proj2 (Hsel "" eq_refl))).
Defined.

(** ** Debouncing *)

Section DebounceFacts.
Context {A : Type}.
Implicit Types (d : Debounce.Debounced A) (a : A).

Lemma coalesced_debounce n : Debounce.coalesced (Debounce.debounce (A:=A) n).
Proof. intros id args H. simpl in H. now rewrite lookup_empty in H. Qed.

Lemma clear_coalesced d :
  Debounce.coalesced d ->
  Debounce.clearTimeout (Debounce.timeoutId d) (Debounce.scheduled d) = ∅.
Proof.
  intros Hc. apply map_empty. intros id.
  destruct (Debounce.scheduled d !! id) as [args|] eqn:Hs.
  - rewrite (Hc _ _ Hs). simpl. apply lookup_delete_eq.
  - destruct (Debounce.timeoutId d) as [i|]; simpl; [|exact Hs].
    destruct (decide (i = id)) as [->|Hne];
      [apply lookup_delete_eq|now rewrite lookup_delete_ne].
Qed.

Lemma call_scheduled d a :
  Debounce.coalesced d ->
  Debounce.scheduled (Debounce.call a d) = {[Debounce.next_timer d := a]}.
Proof.
  intros Hc. unfold Debounce.call. simpl. rewrite (clear_coalesced d Hc).
  apply insert_empty.
Qed.

Lemma coalesced_step ev d :
  Debounce.coalesced d -> Debounce.coalesced (Debounce.step ev d).
Proof.
  intros Hc. destruct ev as [a|id]; simpl.
  - intros id args. rewrite (call_scheduled d a Hc). simpl.
    intros H. apply lookup_singleton_Some in H as [<- _]. reflexivity.
  - unfold Debounce.fire. destruct (Debounce.scheduled d !! id) eqn:Hs; [|exact Hc].
    intros id' args. simpl. intros H.
    apply lookup_delete_Some in H as [_ H]. exact (Hc _ _ H).
Qed.

Lemma coalesced_run evs : forall d,
  Debounce.coalesced d -> Debounce.coalesced (Debounce.run evs d).
Proof.
  induction evs as [|ev evs IH]; intros d Hc; [exact Hc|].
  apply IH. now apply coalesced_step.
Qed.

(** After a burst of calls one timer is scheduled, the last one, and
    [func] has not run. *)
Lemma after_calls calls : forall d a,
  Debounce.coalesced d ->
  let d' := Debounce.run (List.map Debounce.Call (calls ++ [a])) d in
  Debounce.scheduled d' = {[(Debounce.next_timer d + length calls)%nat := a]} /\
  Debounce.invoked d' = Debounce.invoked d.
Proof.
  induction calls as [|b calls IH]; intros d a Hc; cbn [app List.map Debounce.run fold_left].
  - cbn [Debounce.step length]. rewrite Nat.add_0_r.
    split; [now apply call_scheduled|reflexivity].
  - destruct (IH (Debounce.call b d) a (coalesced_step (Debounce.Call b) d Hc))
      as [Hs Hi].
    cbn [Debounce.step]. unfold Debounce.run in Hs, Hi. rewrite Hs, Hi.
    cbn [Debounce.call Debounce.next_timer Debounce.invoked length].
    split; [|reflexivity]. f_equal. lia.
Qed.

Lemma fires_nothing fires : forall d,
  Debounce.scheduled d = ∅ ->
  Debounce.invoked (Debounce.run (List.map Debounce.Fire fires) d)
    = Debounce.invoked d.
Proof.
  induction fires as [|id fires IH]; intros d He; [reflexivity|].
  cbn [List.map Debounce.run fold_left Debounce.step]. unfold Debounce.fire.
  rewrite He, lookup_empty. now apply IH.
Qed.

Lemma fires_one fires : forall d i a,
  Debounce.scheduled d = {[i := a]} ->
  Debounce.invoked (Debounce.run (List.map Debounce.Fire fires) d)
    = (Debounce.invoked d ++ (if bool_decide (i ∈ fires) then [a] else []))%list.
Proof.
  induction fires as [|id fires IH]; intros d i a Hs.
  - rewrite bool_decide_eq_false_2 by apply not_elem_of_nil.
    now rewrite app_nil_r.
  - cbn [List.map Debounce.run fold_left Debounce.step]. unfold Debounce.fire.
    rewrite Hs. destruct (decide (i = id)) as [->|Hne].
    + rewrite lookup_singleton_eq.
      rewrite bool_decide_eq_true_2 by apply list_elem_of_here.
      apply (fires_nothing fires). simpl. apply delete_singleton_eq.
    + rewrite lookup_singleton_ne by exact Hne.
      unfold Debounce.run in IH. rewrite (IH d i a Hs).
      assert (Hb : bool_decide (i ∈ id :: fires) = bool_decide (i ∈ fires)).
      { apply bool_decide_ext. rewrite elem_of_cons. split; [|tauto].
        intros [Heq|Hin]; [congruence|exact Hin]. }
      now rewrite Hb.
Qed.

End DebounceFacts.

(** X21: [debounce] coalesces a burst of calls.  At any moment at most one
    timer is scheduled, the one [timeoutId] names.  After one or more calls
    in a row, whatever timers fire afterwards, [func] runs at most once
    more: once, with the arguments of the last call, if the timer set by
    the last call is among them, and not at all otherwise. *)
Theorem debounce_runs_last_call_once {A : Type} (first_id : nat)
    (before : list (Debounce.Event A)) (calls : list A) (a : A) (fires : list nat) :
  let d := Debounce.run before (Debounce.debounce first_id) in
  let last_timer := (Debounce.next_timer d + length calls)%nat in
  Debounce.coalesced d /\
  Debounce.invoked
    (Debounce.run
       (List.map Debounce.Call (calls ++ [a]) ++ List.map Debounce.Fire fires) d)
    = (Debounce.invoked d
       ++ (if bool_decide (last_timer ∈ fires) then [a] else []))%list.
Proof.
  intros d last_timer.
  assert (Hc : Debounce.coalesced d)
    by (apply coalesced_run, coalesced_debounce).
  split; [exact Hc|].
  destruct (after_calls calls d a Hc) as [Hs Hi].
  unfold Debounce.run at 1. rewrite fold_left_app.
  change (fold_left (fun d0 ev => Debounce.step ev d0)
            (List.map Debounce.Call (calls ++ [a])) d)
    with (Debounce.run (List.map Debounce.Call (calls ++ [a])) d).
  rewrite <- Hi. apply (fires_one fires _ _ _ Hs).
Qed.

(** ** The debounced lookup *)

Lemma typing_run lookup h texts : forall s d,
  input_run lookup (List.map (Typed h) texts) (s, d)
    = (edits h texts s,
       Debounce.run (List.map Debounce.Call (List.map (fun _ => tt) texts)) d).
Proof.
  induction texts as [|t texts IH]; intros s d; [reflexivity|].
  cbn [List.map input_run fold_left input_step fst snd].
  exact (IH _ _).
Qed.

Lemma timers_nothing lookup fires : forall c,
  Debounce.scheduled (snd c) = ∅ ->
  fst (input_run lookup (List.map TimerFires fires) c) = fst c.
Proof.
  induction fires as [|id fires IH]; intros c He; [reflexivity|].
  cbn [List.map input_run fold_left input_step]. rewrite He, lookup_empty.
  now apply IH.
Qed.

Lemma timers_one lookup fires : forall c i,
  Debounce.scheduled (snd c) = {[i := tt]} ->
  fst (input_run lookup (List.map TimerFires fires) c)
    = if bool_decide (i ∈ fires) then fst (lookup (fst c)) else fst c.
Proof.
  induction fires as [|id fires IH]; intros c i Hs.
  - now rewrite bool_decide_eq_false_2 by apply not_elem_of_nil.
  - cbn [List.map input_run fold_left input_step]. rewrite Hs.
    destruct (decide (i = id)) as [->|Hne].
    + rewrite lookup_singleton_eq.
      rewrite bool_decide_eq_true_2 by apply list_elem_of_here.
      apply (timers_nothing lookup fires). cbn [snd]. unfold Debounce.fire.
      rewrite Hs, lookup_singleton_eq. simpl. apply delete_singleton_eq.
    + rewrite lookup_singleton_ne by exact Hne.
      unfold input_run in IH. rewrite (IH c i Hs).
      assert (Hb : bool_decide (i ∈ id :: fires) = bool_decide (i ∈ fires)).
      { apply bool_decide_ext. rewrite elem_of_cons. split; [|tauto].
        intros [Heq|Hin]; [congruence|exact Hin]. }
      now rewrite Hb.
Qed.

Lemma edits_last h texts text s :
  has_value (element_of (document s) h) = true ->
  element_of (document (edits h (texts ++ [text]) s)) h = FormControl text.
Proof.
  intros Hv. unfold edits. rewrite fold_left_app. cbn [fold_left].
  assert (Hk : forall l st, has_value (element_of (document st) h) = true ->
                 has_value (element_of (document
                   (fold_left (fun s0 t => fst (edit h t s0)) l st)) h) = true).
  { induction l as [|t l IH]; intros st Hst; [exact Hst|].
    cbn [fold_left]. apply IH. unfold edit. rewrite element_of_update.
    destruct (element_of (document st) h); [reflexivity|discriminate]. }
  specialize (Hk texts s Hv).
  set (s1 := fold_left (fun s0 t => fst (edit h t s0)) texts s) in *.
  unfold edit. rewrite element_of_update.
  destruct (element_of (document s1) h); [reflexivity|discriminate].
Qed.

Lemma burst_looks_up_once lookup h texts text fires s d :
  Debounce.coalesced d ->
  fst (input_run lookup
         (List.map (Typed h) (texts ++ [text]) ++ List.map TimerFires fires) (s, d))
    = if bool_decide ((Debounce.next_timer d + length texts)%nat ∈ fires)
      then fst (lookup (edits h (texts ++ [text]) s))
      else edits h (texts ++ [text]) s.
Proof.
  intros Hc.
  assert (Happ : forall l1 l2 c,
             input_run lookup (l1 ++ l2) c
               = input_run lookup l2 (input_run lookup l1 c))
    by (intros l1 l2 c; apply fold_left_app).
  rewrite Happ, typing_run.
  destruct (after_calls (List.map (fun _ => tt) texts) d tt Hc) as [Hs _].
  rewrite length_map in Hs.
  rewrite (timers_one lookup fires _ (Debounce.next_timer d + length texts)%nat).
  - reflexivity.
  - cbn [snd]. rewrite List.map_app. exact Hs.
Qed.

(** X22: the debounced lookup.  When one or more texts are typed into the
    search field in a row - each keystroke restarting the timer - and
    timers fire afterwards, [lookup] runs at most once: once if the timer
    set by the last keystroke is among them, on the state that holds the
    last text in the field; otherwise the texts have only been typed. *)
Theorem typing_burst_looks_up_once (h : nat) (texts : list string) (text : string)
    (fires : list nat) (s : State) (d : Debounce.Debounced unit) :
  Debounce.coalesced d ->
  has_value (element_of (document s) h) = true ->
  let evs := (List.map (Typed h) (texts ++ [text]) ++ List.map TimerFires fires)%list in
  let typed_in := edits h (texts ++ [text]) s in
  let fired := bool_decide ((Debounce.next_timer d + length texts)%nat ∈ fires) in
  element_of (document typed_in) h = FormControl text /\
  fst (input_run TsA.lookup evs (s, d))
    = (if fired then TsA.step EvLookup typed_in else typed_in) /\
  fst (input_run TsB.lookup evs (s, d))
    = (if fired then TsB.step EvLookup typed_in else typed_in) /\
  fst (input_run Js.lookup evs (s, d))
    = (if fired then Js.step EvLookup typed_in else typed_in).
Proof.
  intros Hc Hv evs typed_in fired.
  split; [now apply edits_last|].
  split; [|split]; apply (burst_looks_up_once _ h texts text fires s d Hc).
Qed.


Lemma typing_burst_looks_up_once_witness :
  exists rq,
    pending
      (fst (input_run TsB.lookup
              (List.map (Typed 0) (["G"; "Gr"] ++ ["Gre"])%list
               ++ List.map TimerFires [1; 2; 3]%nat)%list
              (started TsB.config no_config "", Debounce.debounce 1)))
      = [rq] /\
    params_get "q" (rq_params rq) = Some "Gre".
Proof.
  destruct (typing_burst_looks_up_once 0 ["G"; "Gr"] "Gre" [1; 2; 3]%nat
              (started TsB.config no_config "") (Debounce.debounce 1))
    as [_ [_ [HB _]]].
  - apply coalesced_debounce.
  - vm_compute. reflexivity.
  - rewrite HB. eexists. split; vm_compute; reflexivity.
Defined.

(** ** Set-up and teardown *)

Lemma add_fresh l ls :
  ~ In l ls -> Lifecycle.addEventListener l ls = (ls ++ [l])%list.
Proof.
  intros Hn. unfold Lifecycle.addEventListener.
  rewrite bool_decide_eq_false_2; [reflexivity|].
  now rewrite list_elem_of_In.
Qed.

Lemma add_registered l ls :
  In l ls -> Lifecycle.addEventListener l ls = ls.
Proof.
  intros Hin. unfold Lifecycle.addEventListener.
  rewrite bool_decide_eq_true_2; [reflexivity|].
  now rewrite list_elem_of_In.
Qed.

Lemma in_add l l' ls :
  In l' (Lifecycle.addEventListener l ls) <-> l' = l \/ In l' ls.
Proof.
  unfold Lifecycle.addEventListener. case_bool_decide as Hin.
  - apply list_elem_of_In in Hin. split; [tauto|].
    intros [->|H]; assumption.
  - rewrite in_app_iff. simpl. split; [intros [H|[H|[]]]; auto|].
    intros [->|H]; auto.
Qed.

Lemma remove_absent l ls :
  ~ In l ls -> Lifecycle.removeEventListener l ls = ls.
Proof.
  unfold Lifecycle.removeEventListener.
  induction ls as [|l' ls IH]; simpl; intros Hn; [reflexivity|].
  rewrite bool_decide_eq_false_2 by (intros ->; tauto). simpl.
  f_equal. apply IH. tauto.
Qed.

Lemma remove_app l ls ls' :
  Lifecycle.removeEventListener l (ls ++ ls')
    = (Lifecycle.removeEventListener l ls ++ Lifecycle.removeEventListener l ls')%list.
Proof. unfold Lifecycle.removeEventListener. apply List.filter_app. Qed.

Lemma remove_head l ls :
  Lifecycle.removeEventListener l (l :: ls) = Lifecycle.removeEventListener l ls.
Proof.
  unfold Lifecycle.removeEventListener. simpl.
  now rewrite bool_decide_eq_true_2 by reflexivity.
Qed.

Lemma in_remove l l' ls :
  In l' (Lifecycle.removeEventListener l ls) <-> In l' ls /\ l' <> l.
Proof.
  unfold Lifecycle.removeEventListener. rewrite filter_In, negb_true_iff.
  rewrite bool_decide_eq_false. tauto.
Qed.

Lemma filter_fresh_node n ns :
  (forall n', In n' ns -> (n' < n)%nat) ->
  List.filter (fun n' => negb (Nat.eqb n' n)) (ns ++ [n]) = ns.
Proof.
  intros Hlt. rewrite List.filter_app. simpl. rewrite Nat.eqb_refl. simpl.
  rewrite app_nil_r. induction ns as [|m ns IH]; simpl; [reflexivity|].
  assert (Hm : (m < n)%nat) by (apply Hlt; now left).
  destruct (Nat.eqb_spec m n); [lia|]. simpl. f_equal.
  apply IH. intros n' Hin. apply Hlt. now right.
Qed.

(** What [_initialize] adds to a page that holds nothing of the component:
    the style element unless there is one, a new list element, and the five
    listeners. *)
Lemma initialize_adds id h p :
  Lifecycle.new_to (Lifecycle.constructed id) p ->
  Lifecycle._initialize h (Lifecycle.constructed id, p)
    = (Lifecycle.mkComponent id (Some h) (Some (Lifecycle.next_node p)),
       Lifecycle.mkPage
         (Lifecycle.listeners p ++ Lifecycle_registered id h)
         (Nat.max 1 (Lifecycle.styles p))
         (Lifecycle.lists p ++ [Lifecycle.next_node p])
         (S (Lifecycle.next_node p))).
Proof.
  intros [Hown _]. cbn [Lifecycle.constructed Lifecycle.self] in Hown.
  unfold Lifecycle._initialize, Lifecycle._createSuggestionsUI,
    Lifecycle._attachListeners, Lifecycle._injectStyles.
  cbn [Lifecycle.constructed Lifecycle.self Lifecycle._inputEl
         Lifecycle._suggestionsEl].
  destruct (0 <? Lifecycle.styles p)%nat eqn:Hs;
    [apply Nat.ltb_lt in Hs|apply Nat.ltb_ge in Hs];
    cbn [Lifecycle.listeners Lifecycle.styles Lifecycle.lists Lifecycle.next_node
           Lifecycle.self Lifecycle._inputEl];
    (rewrite !add_fresh;
     [ f_equal; f_equal;
       [ unfold Lifecycle_registered; now rewrite <- !app_assoc | lia ]
     | .. ]);
    rewrite ?in_add;
    intros Hin; decompose [or] Hin; try discriminate;
    match goal with
    | H : In _ (Lifecycle.listeners p) |- _ => exact (Hown _ H eq_refl)
    end.
Qed.


Lemma remove_from_tail l ls tl :
  ~ In l ls ->
  Lifecycle.removeEventListener l (ls ++ tl)
    = (ls ++ Lifecycle.removeEventListener l tl)%list.
Proof. intros Hn. now rewrite remove_app, (remove_absent _ _ Hn). Qed.

Ltac not_owned Hown :=
  let Hin := fresh "Hin" in
  intros Hin; exact (Hown _ Hin eq_refl).

Ltac remove_first Hown :=
  match goal with
  | |- context [Lifecycle.removeEventListener ?l (?ls ++ ?l :: ?rest)] =>
      rewrite (remove_from_tail l ls (l :: rest)) by not_owned Hown;
      rewrite (remove_head l rest);
      rewrite (remove_absent l rest) by (simpl; intuition discriminate)
  end.

(** X23: teardown releases what set-up added.  On a page that holds
    nothing of the component, [_initialize] registers five listeners (input
    and keydown on the search field, click on the document, resize and
    capturing scroll on the window), appends one list element and makes
    sure there is one style element; [disconnectedCallback] then removes
    exactly these: the listeners and the list elements of the page are as
    before, and the style element is gone. *)
Theorem teardown_releases_setup (id h : nat) (p : Lifecycle.Page) :
  Lifecycle.new_to (Lifecycle.constructed id) p ->
  (Lifecycle.styles p <= 1)%nat ->
  let set_up := Lifecycle._initialize h (Lifecycle.constructed id, p) in
  let torn_down := snd (Lifecycle.disconnectedCallback set_up) in
  Lifecycle.listeners (snd set_up)
    = (Lifecycle.listeners p ++ Lifecycle_registered id h)%list /\
  Lifecycle.lists (snd set_up)
    = (Lifecycle.lists p ++ [Lifecycle.next_node p])%list /\
  Lifecycle.styles (snd set_up) = 1%nat /\
  Lifecycle.listeners torn_down = Lifecycle.listeners p /\
  Lifecycle.lists torn_down = Lifecycle.lists p /\
  Lifecycle.styles torn_down = 0%nat.
Proof.
  intros Hnew Hst set_up torn_down. unfold torn_down, set_up.
  rewrite (initialize_adds id h p Hnew).
  destruct Hnew as [Hown Hnodes].
  cbn [Lifecycle.constructed Lifecycle.self] in Hown.
  cbn [snd Lifecycle.disconnectedCallback Lifecycle.listeners Lifecycle.lists
         Lifecycle.styles Lifecycle.self Lifecycle._inputEl
         Lifecycle._suggestionsEl Lifecycle.next_node].
  split; [reflexivity|]. split; [reflexivity|]. split; [lia|].
  split; [|split; [now apply filter_fresh_node|lia]].
  unfold Lifecycle_registered.
  remove_first Hown. remove_first Hown. remove_first Hown.
  remove_first Hown. remove_first Hown.
  apply app_nil_r.
Qed.

Lemma teardown_releases_setup_witness :
  Lifecycle.listeners
    (snd (Lifecycle.disconnectedCallback
            (Lifecycle._initialize 0 (Lifecycle.constructed 1, Lifecycle_sample_page))))
    = Lifecycle.listeners Lifecycle_sample_page.
Proof.
  destruct (teardown_releases_setup 1 0 Lifecycle_sample_page)
    as [_ [_ [_ [Hl _]]]].
  - split.
    + intros l [<-|[]]. discriminate.
    + intros n [].
  - simpl. lia.
  - exact Hl.
Defined.

Lemma filter_filter {X} (f g : X -> bool) l :
  List.filter f (List.filter g l) = List.filter (fun x => g x && f x) l.
Proof.
  induction l as [|x l IH]; simpl; [reflexivity|].
  destruct (g x); simpl; [destruct (f x); simpl; now rewrite IH|exact IH].
Qed.

Lemma filter_all {X} (f : X -> bool) l :
  (forall x, In x l -> f x = true) -> List.filter f l = l.
Proof.
  induction l as [|x l IH]; simpl; intros H; [reflexivity|].
  rewrite (H x) by now left. f_equal. apply IH. intros y Hy. apply H. now right.
Qed.

Lemma filter_none {X} (f : X -> bool) l :
  (forall x, In x l -> f x = false) -> List.filter f l = [].
Proof.
  induction l as [|x l IH]; simpl; intros H; [reflexivity|].
  rewrite (H x) by now left. apply IH. intros y Hy. apply H. now right.
Qed.

(** [disconnectedCallback] of a component with a search field removes the
    five listeners and nothing else. *)
Lemma teardown_listeners id h sl p :
  Lifecycle.listeners
    (snd (Lifecycle.disconnectedCallback (Lifecycle.mkComponent id (Some h) sl, p)))
  = List.filter (fun l => negb (bool_decide (l ∈ Lifecycle_registered id h)))
      (Lifecycle.listeners p).
Proof.
  cbn [snd Lifecycle.disconnectedCallback Lifecycle.listeners Lifecycle._inputEl
         Lifecycle.self].
  unfold Lifecycle.removeEventListener. rewrite !filter_filter.
  apply filter_ext. intros l. unfold Lifecycle_registered.
  repeat case_bool_decide; simpl; try reflexivity; exfalso;
    repeat match goal with
           | H : _ ∈ _ :: _ |- _ => apply elem_of_cons in H as [H|H]
           | H : _ ∈ [] |- _ => now apply not_elem_of_nil in H
           | H : ¬ _ ∈ _ |- _ => apply H; clear H
           end;
    try contradiction; subst;
    repeat first [ apply list_elem_of_here | apply list_elem_of_further ].
Qed.


(** X24: set-up and teardown can be repeated.  [_injectStyles] leaves at
    least one style element and a second call changes nothing;
    [_attachListeners] called again for the same search field registers
    nothing twice; and a second [disconnectedCallback] changes nothing
    (on a page with at most one style element). *)
Theorem setup_and_teardown_repeat (c : Lifecycle.Component) (p : Lifecycle.Page) :
  Lifecycle._injectStyles (Lifecycle._injectStyles p) = Lifecycle._injectStyles p /\
  Lifecycle.styles (Lifecycle._injectStyles p) = Nat.max 1 (Lifecycle.styles p) /\
  Lifecycle._attachListeners c (Lifecycle._attachListeners c p)
    = Lifecycle._attachListeners c p /\
  ((Lifecycle.styles p <= 1)%nat ->
   Lifecycle.disconnectedCallback (Lifecycle.disconnectedCallback (c, p))
     = Lifecycle.disconnectedCallback (c, p)).
Proof.
  split; [|split; [|split]].
  - unfold Lifecycle._injectStyles.
    destruct (0 <? Lifecycle.styles p)%nat eqn:Hs; [now rewrite Hs|reflexivity].
  - unfold Lifecycle._injectStyles.
    destruct (Nat.ltb_spec 0 (Lifecycle.styles p)); simpl; lia.
  - unfold Lifecycle._attachListeners.
    cbn [Lifecycle.listeners Lifecycle.styles Lifecycle.lists Lifecycle.next_node].
    f_equal.
    destruct (Lifecycle._inputEl c) as [h|];
      [do 5 (rewrite add_registered; [|rewrite ?in_add; tauto])
      |do 3 (rewrite add_registered; [|rewrite ?in_add; tauto])];
      reflexivity.
  - intros Hst. unfold Lifecycle.disconnectedCallback.
    cbn [Lifecycle.listeners Lifecycle.styles Lifecycle.lists Lifecycle.next_node].
    f_equal. f_equal.
    + destruct (Lifecycle._inputEl c) as [h|];
        [do 5 (rewrite remove_absent; [|rewrite ?in_remove; tauto])
        |do 3 (rewrite remove_absent; [|rewrite ?in_remove; tauto])];
        reflexivity.
    + lia.
    + destruct (Lifecycle._suggestionsEl c) as [n|]; [|reflexivity].
      rewrite filter_filter. apply filter_ext. intros n'. apply andb_diag.
Qed.

Lemma setup_and_teardown_repeat_witness :
  Lifecycle.styles (Lifecycle._injectStyles (Lifecycle._injectStyles Lifecycle_sample_page))
    = 1%nat /\
  Lifecycle.disconnectedCallback
    (Lifecycle.disconnectedCallback (Lifecycle.constructed 1, Lifecycle_sample_page))
  = Lifecycle.disconnectedCallback (Lifecycle.constructed 1, Lifecycle_sample_page).
Proof.
  destruct (setup_and_teardown_repeat (Lifecycle.constructed 1) Lifecycle_sample_page)
    as [Hi [Hs [_ Hd]]].
  split; [now rewrite Hi, Hs|]. apply Hd. simpl. lia.
Defined.

(** X25: the style element is shared.  When two components are set up on
    a page and the first is torn down, the second keeps its five listeners
    and its list element, and every listener and list the page had before
    is still there, but the one style element is gone. *)
Theorem shared_style_goes_with_first_teardown (id1 id2 h1 h2 : nat)
    (p : Lifecycle.Page) :
  id1 <> id2 ->
  Lifecycle.new_to (Lifecycle.constructed id1) p ->
  Lifecycle.new_to (Lifecycle.constructed id2) p ->
  Lifecycle.styles p = 0%nat ->
  let first := Lifecycle._initialize h1 (Lifecycle.constructed id1, p) in
  let second := Lifecycle._initialize h2 (Lifecycle.constructed id2, snd first) in
  let left_over := snd (Lifecycle.disconnectedCallback (fst first, snd second)) in
  Lifecycle.styles (snd second) = 1%nat /\
  Lifecycle.styles left_over = 0%nat /\
  Lifecycle.listeners left_over
    = (Lifecycle.listeners p ++ Lifecycle_registered id2 h2)%list /\
  Lifecycle.lists left_over = (Lifecycle.lists p ++ [S (Lifecycle.next_node p)])%list.
Proof.
  intros Hne H1 H2 Hst first second left_over.
  unfold left_over, second, first.
  rewrite (initialize_adds id1 h1 p H1). cbn [fst snd].
  destruct H1 as [Hown1 Hnodes]. destruct H2 as [Hown2 _].
  cbn [Lifecycle.constructed Lifecycle.self] in Hown1, Hown2.
  rewrite initialize_adds.
  2:{ split; cbn [Lifecycle.listeners Lifecycle.lists Lifecycle.next_node
                    Lifecycle.constructed Lifecycle.self].
      - intros l Hin. apply in_app_or in Hin as [Hin|Hin]; [now apply Hown2|].
        unfold Lifecycle_registered in Hin. simpl in Hin.
        decompose [or] Hin; subst; simpl; congruence.
      - intros n Hin. apply in_app_or in Hin as [Hin|[<-|[]]]; [|lia].
        specialize (Hnodes n Hin). lia. }
  cbn [snd Lifecycle.listeners Lifecycle.styles Lifecycle.lists Lifecycle.next_node].
  rewrite Hst. split; [reflexivity|].
  split; [reflexivity|]. split.
  - rewrite teardown_listeners.
    cbn [Lifecycle.listeners]. rewrite !List.filter_app.
    rewrite (filter_all _ (Lifecycle.listeners p)), (filter_none _ (Lifecycle_registered id1 h1)),
      (filter_all _ (Lifecycle_registered id2 h2)).
    + now rewrite app_nil_r.
    + intros l Hin. apply negb_true_iff, bool_decide_eq_false.
      rewrite list_elem_of_In. intros Hin1.
      unfold Lifecycle_registered in Hin, Hin1. simpl in Hin, Hin1.
      decompose [or] Hin; decompose [or] Hin1; subst; try discriminate; congruence.
    + intros l Hin. apply negb_false_iff, bool_decide_eq_true.
      now rewrite list_elem_of_In.
    + intros l Hin. apply negb_true_iff, bool_decide_eq_false.
      rewrite list_elem_of_In. intros Hin1.
      apply (Hown1 l Hin). unfold Lifecycle_registered in Hin1. simpl in Hin1.
      decompose [or] Hin1; subst; simpl; (reflexivity || contradiction).
  - cbn [Lifecycle.disconnectedCallback snd Lifecycle._suggestionsEl Lifecycle.lists].
    rewrite List.filter_app. cbn [List.filter].
    rewrite filter_fresh_node by exact Hnodes.
    destruct (Nat.eqb_spec (S (Lifecycle.next_node p)) (Lifecycle.next_node p)); [lia|].
    reflexivity.
Qed.

Lemma shared_style_goes_with_first_teardown_witness :
  Lifecycle.styles
    (snd (Lifecycle.disconnectedCallback
            (fst (Lifecycle._initialize 0 (Lifecycle.constructed 1, Lifecycle_sample_page)),
             snd (Lifecycle._initialize 5
                    (Lifecycle.constructed 2,
                     snd (Lifecycle._initialize 0
                            (Lifecycle.constructed 1, Lifecycle_sample_page)))))))
  = 0%nat.
Proof.
  destruct (shared_style_goes_with_first_teardown 1 2 0 5 Lifecycle_sample_page)
    as [_ [Hs _]].
  - discriminate.
  - split; [intros l [<-|[]]; discriminate|intros n []].
  - split; [intros l [<-|[]]; discriminate|intros n []].
  - reflexivity.
  - exact Hs.
Defined.

(** ** The fuzzy fallback of the bundled class *)

Lemma TsB_settle_primary s rq o :
  well_formed s -> In rq (pending s) -> rq_stage rq = Primary ->
  falls_back_iff_empty s (TsB.step (EvSettle (rq_id rq) o) s) (effective s rq o).
Proof.
  intros W Hin Hst. unfold TsB.step. rewrite (settle_found _ _ _ _ W Hin).
  cbn [fst detached].
  set (s0 := set_pending (remove_request (rq_id rq) (pending s)) s).
  set (o' := effective s rq o).
  assert (Hne : pending s <> []) by (destruct (pending s); [destruct Hin|discriminate]).
  destruct (wf_attached _ W Hne) as [[h [v [Hh Hv]]] _].
  rewrite TsB_lookup_resume_spec, Hst.
  assert (Hquiet : forall s', quiet s0 s' ->
             ~ (zero_results o' /\ truthy (useFuzzyFallback (_config s)) = true) ->
             falls_back_iff_empty s s' o').
  { intros s' Hq Hno. split.
    - split; [intros [rq' Hi]; now apply (quiet_no_issue _ _ _ Hq) in Hi|tauto].
    - intros rq' Hi. now apply (quiet_no_issue _ _ _ Hq) in Hi. }
  unfold TsB._fetchData_result.
  destruct (received _ o') as [data|e] eqn:Hres.
  - pose proof (received_length _ _ _ Hres) as Hz.
    change (_config s0) with (_config s).
    destruct (length data =? 0)%nat eqn:Hl; cbn [andb].
    + destruct (truthy (useFuzzyFallback (_config s))) eqn:Hf.
      * assert (Hq : query_of s0 = Normal (Some (trim v))).
        { unfold query_of. change (_inputEl s0) with (_inputEl s).
          change (document s0) with (document s). now rewrite Hh, Hv. }
        destruct (trimmed_params true s0) as [ps|e] eqn:Hps;
          [|unfold trimmed_params in Hps; rewrite Hq in Hps; discriminate].
        destruct (fetch_issued s (rq_id rq) (_abortController s0) ps Fuzzy s0 W)
          as [Hnew Honly]; [reflexivity|simpl; lia|].
        split.
        -- split; [intros _; split; [now apply Hz|exact Hf]|eauto].
        -- intros rq' Hi. rewrite (Honly rq' Hi).
           split; [reflexivity|exact (trimmed_params_fuzzy _ _ Hps)].
      * apply Hquiet; [apply quiet_TsA_render|]. intros [_ H]. congruence.
    + apply Hquiet; [apply quiet_TsA_render|]. intros [H _].
      apply Hz in H. discriminate.
  - apply Hquiet; [apply quiet_TsB_catch|]. intros [Hzero _].
    apply (received_zero
             (fun statusText => Error ("API request failed: " +:+ statusText)))
      in Hzero.
    rewrite Hzero in Hres. discriminate.
Qed.

Lemma TsB_settle_fuzzy s rq o statusText data :
  well_formed s -> In rq (pending s) -> rq_stage rq = Fuzzy ->
  effective s rq o = Response true statusText (Normal data) ->
  rendered (TsB.step (EvSettle (rq_id rq) o) s) = List.map TsB.tag_fuzzy data.
Proof.
  intros W Hin Hst Ho. unfold TsB.step. rewrite (settle_found _ _ _ _ W Hin).
  cbn [fst detached]. rewrite TsB_lookup_resume_spec, Hst, Ho.
  unfold TsB._fetchData_result. cbn [received].
  rewrite TsA_render_spec, tag_if_any.
  assert (Hne : pending s <> []) by (destruct (pending s); [destruct Hin|discriminate]).
  destruct (wf_attached _ W Hne) as [Hat _].
  destruct (wf_list _ W Hat) as [l Hl]. cbn [_suggestionsEl set_pending].
  rewrite Hl. reflexivity.
Qed.

(** X26: the fuzzy fallback of the bundled class. In a state the component
    reaches, the settlement of an outstanding primary request issues a
    request exactly when the result delivered to the lookup is an empty list
    and the fuzzy flag is on, and that request is the fuzzy one; a failed or
    cancelled primary request is never followed by one. When an outstanding
    fuzzy request comes back with results, the list shows them, every one
    marked fuzzy. *)
Theorem bundled_fuzzy_fallback (s : State) (rq : Request)
    (o : Outcome (list Suggestion)) :
  reachable TsB.config TsB.step s ->
  In rq (pending s) ->
  let s' := TsB.step (EvSettle (rq_id rq) o) s in
  (rq_stage rq = Primary -> falls_back_iff_empty s s' (effective s rq o)) /\
  (rq_stage rq = Fuzzy ->
     forall statusText data,
       effective s rq o = Response true statusText (Normal data) ->
       rendered s' = List.map TsB.tag_fuzzy data /\ all_fuzzy (rendered s')).
Proof.
  intros Hr Hin s'. pose proof (TsB_reachable_well_formed _ Hr) as W.
  split; intros Hst.
  - now apply TsB_settle_primary.
  - intros statusText data Ho. subst s'.
    rewrite (TsB_settle_fuzzy _ _ _ _ _ W Hin Hst Ho).
    split; [reflexivity|apply all_fuzzy_tag].
Qed.

Lemma bundled_fuzzy_fallback_witness :
  (exists rq', issued TsB_fuzzy_looking
                 (TsB.step (EvSettle 1 (Response true "OK" (Normal [])))
                    TsB_fuzzy_looking) rq') /\
  rendered (TsB.step (EvSettle 2 (Response true "OK" (Normal three_suggestions)))
              (TsB.step (EvSettle 1 (Response true "OK" (Normal [])))
                 TsB_fuzzy_looking))
  = List.map TsB.tag_fuzzy three_suggestions.
Proof.
  split.
  - assert (Hreach : reachable TsB.config TsB.step TsB_fuzzy_looking).
    { apply reachable_run. constructor. }
    destruct (bundled_fuzzy_fallback TsB_fuzzy_looking
                (mkRequest 1 (Some 0%nat) [("q", "Gren")] Primary)
                (Response true "OK" (Normal [])) Hreach) as [Hprimary _].
    + left. reflexivity.
    + apply (Hprimary eq_refl). split; [now exists "OK"|reflexivity].
  - set (s1 := TsB.step (EvSettle 1 (Response true "OK" (Normal [])))
                 TsB_fuzzy_looking).
    assert (Hreach : reachable TsB.config TsB.step s1).
    { apply reach_step, reachable_run. constructor. }
    destruct (bundled_fuzzy_fallback s1
                (mkRequest 2 (Some 0%nat) [("q", "Gren"); ("fuzzy", "true")] Fuzzy)
                (Response true "OK" (Normal three_suggestions)) Hreach)
      as [_ Hfuzzy].
    + left. reflexivity.
    + exact (proj1 (Hfuzzy eq_refl "OK" three_suggestions eq_refl)).
Defined.

(** X27: the fallback is tried once. In a state a component of any of the
    three classes reaches, the settlement of an outstanding fuzzy request -
    with results, with none, with a failure or after a cancellation - issues
    no request. *)
Theorem fallback_is_tried_once (s : State) (rq : Request)
    (o : Outcome (list Suggestion)) :
  In rq (pending s) -> rq_stage rq = Fuzzy ->
  (reachable TsA.config TsA.step s ->
   forall rq', ~ issued s (TsA.step (EvSettle (rq_id rq) o) s) rq') /\
  (reachable TsB.config TsB.step s ->
   forall rq', ~ issued s (TsB.step (EvSettle (rq_id rq) o) s) rq') /\
  (reachable Js.config Js.step s ->
   forall rq', ~ issued s (Js.step (EvSettle (rq_id rq) o) s) rq').
Proof.
  intros Hin Hst.
  assert (Hne : pending s <> []) by (destruct (pending s); [destruct Hin|discriminate]).
  split; [|split]; intros Hr.
  - pose proof (TsA_reachable_well_formed _ Hr) as W.
    unfold TsA.step. rewrite (settle_found _ _ _ _ W Hin). cbn [fst detached].
    apply (quiet_no_issue s (rq_id rq)). rewrite TsA_lookup_resume_spec, Hst.
    destruct (TsA._fetchData_result rq (effective s rq o));
      [apply quiet_TsA_render|apply quiet_TsA_catch].
  - pose proof (TsB_reachable_well_formed _ Hr) as W.
    unfold TsB.step. rewrite (settle_found _ _ _ _ W Hin). cbn [fst detached].
    apply (quiet_no_issue s (rq_id rq)). rewrite TsB_lookup_resume_spec, Hst.
    destruct (TsB._fetchData_result (effective s rq o));
      [apply quiet_TsA_render|apply quiet_TsB_catch].
  - pose proof (Js_reachable_well_formed _ Hr) as W.
    unfold Js.step. rewrite (settle_found _ _ _ _ W Hin). cbn [fst detached].
    destruct (wf_attached _ W Hne) as [_ Hsome].
    apply (quiet_no_issue s (rq_id rq)). rewrite Js_lookup_resume_spec by exact Hsome.
    rewrite Hst.
    destruct (Js._fetchData_result (effective s rq o));
      [apply (respects_try_catch quiet quiet_trans); auto with quiet
      |apply quiet_Js_catch].
Qed.

Lemma fallback_is_tried_once_witness :
  ~ issued
      (TsB.step (EvSettle 1 (Response true "OK" (Normal []))) TsB_fuzzy_looking)
      (TsB.step (EvSettle 2 (Response true "OK" (Normal [])))
         (TsB.step (EvSettle 1 (Response true "OK" (Normal []))) TsB_fuzzy_looking))
      (mkRequest 3 (Some 0%nat) [("q", "Gren"); ("fuzzy", "true")] Fuzzy).
Proof.
  set (s1 := TsB.step (EvSettle 1 (Response true "OK" (Normal [])))
               TsB_fuzzy_looking).
  assert (Hreach : reachable TsB.config TsB.step s1).
  { apply reach_step, reachable_run. constructor. }
  destruct (fallback_is_tried_once s1
              (mkRequest 2 (Some 0%nat) [("q", "Gren"); ("fuzzy", "true")] Fuzzy)
              (Response true "OK" (Normal []))) as [_ [Hb _]].
  - left. reflexivity.
  - reflexivity.
  - exact (Hb Hreach _).
Defined.

(** ** The configuration of the other two classes *)

(** X28: the configuration that the [config] setter of the bundled class
    and of the JavaScript class leaves in [_config], whatever state the
    component is in and whatever [_initialize] then does.  In both, a
    field-path holds the caller's mapping when the caller gave one and the
    built-in id-selector otherwise.  The bundled class keeps every key of
    the caller and adds the fuzzy flag as false when the caller gave none;
    the JavaScript class keeps the caller's keys and nothing more, so a
    flag the caller did not give stays undefined there. *)
Theorem other_classes_config_merge (newConfig : NetsiConfig) (s : State) :
  unique_keys (default [] (cfg_ui newConfig)) ->
  unique_keys (cfg_props newConfig) ->
  let bundled := _config (fst (TsB.config newConfig s)) in
  let script := _config (fst (Js.config newConfig s)) in
  (forall path,
      assoc path (default [] (cfg_ui bundled))
      = match assoc path (default [] (cfg_ui newConfig)) with
        | Some mapping => Some mapping
        | None => assoc path (default [] (cfg_ui TsB._defaults))
        end /\
      assoc path (default [] (cfg_ui script))
      = match assoc path (default [] (cfg_ui newConfig)) with
        | Some mapping => Some mapping
        | None => assoc path (default [] (cfg_ui Js._defaults))
        end) /\
  (forall key value,
      assoc key (cfg_props newConfig) = Some value ->
      assoc key (cfg_props bundled) = Some value /\
      assoc key (cfg_props script) = Some value) /\
  (forall key,
      assoc key (cfg_props newConfig) = None ->
      assoc key (cfg_props script) = None /\
      (key <> "useFuzzyFallback" -> assoc key (cfg_props bundled) = None)) /\
  (assoc "useFuzzyFallback" (cfg_props newConfig) = None ->
   useFuzzyFallback bundled = JBool false /\
   useFuzzyFallback script = JUndefined).
Proof.
  intros Hui Hprops bundled script. unfold bundled, script.
  rewrite TsB_config_stores, Js_config_stores.
  split; [|split; [|split]].
  - intros path. split; simpl; now rewrite assoc_spread.
  - intros key value Hk. split; [|exact Hk].
    simpl. now rewrite assoc_spread, Hk.
  - intros key Hk. split; [exact Hk|]. intros Hne.
    simpl. rewrite assoc_spread, Hk by exact Hprops.
    simpl. destruct (String.eqb_spec key "useFuzzyFallback"); [contradiction|].
    reflexivity.
  - intros Hn. unfold useFuzzyFallback. split.
    + simpl. now rewrite assoc_spread, Hn.
    + simpl. now rewrite Hn.
Qed.

Lemma other_classes_config_merge_witness :
  assoc "adgangsadresse.postnummer.nr"
    (default []
       (cfg_ui (_config (fst (TsB.config
          (mkConfig (Some [("adgangsadresse.postnummer.nr", Some (MapSelector "#zip"))])
                    [("per_side", JNum "7")])
          (constructed no_config (sample_document "")))))))
  = Some (Some (MapSelector "#zip")) /\
  assoc "etage"
    (default []
       (cfg_ui (_config (fst (Js.config
          (mkConfig (Some [("adgangsadresse.postnummer.nr", Some (MapSelector "#zip"))])
                    [("per_side", JNum "7")])
          (constructed no_config (sample_document "")))))))
  = Some (Some (MapSelector "#etage")).
Proof.
  destruct (other_classes_config_merge
              (mkConfig (Some [("adgangsadresse.postnummer.nr", Some (MapSelector "#zip"))])
                        [("per_side", JNum "7")])
              (constructed no_config (sample_document ""))) as [Hpath _].
  - apply NoDup_singleton.
  - apply NoDup_singleton.
  - split.
    + etransitivity; [exact (proj1 (Hpath _))|reflexivity].
    + etransitivity; [exact (proj2 (Hpath _))|reflexivity].
Defined.
